(** * Health-check fan-out and geocoding lookup: a shallow embedding

    Two scripts are covered:
    - [vm_trigger.py]: three liveness probes, their ordered combination,
      the collection loop over completed futures and the two Slack alerts;
    - [geolocation/geolocation.py]: the lookup [get_geolocation], the
      address builder, the two database functions and the batch run
      [process_leads].

    Everything the scripts obtain from outside (sockets, HTTP, the ping
    process, the clock, the webhook) is read from an environment record, and
    every call that leaves the process is recorded in a trace, so that the
    order of the calls can be stated. *)

From stdpp Require Import gmap strings list fin_maps pretty.

#[local] Open Scope string_scope.
#[local] Open Scope list_scope.
#[local] Open Scope Z_scope.

(** ** Python exceptions

    Only the distinction the handlers make is kept: [except
    requests.exceptions.RequestException] catches the first class,
    [except Exception] and a bare [except] catch both. [exc_str] is
    [str(e)]. *)

Inductive ExcClass := RequestException | OtherException.

Record Exc := mkExc { exc_class : ExcClass; exc_str : string }.

#[global] Instance ExcClass_eq_dec : EqDecision ExcClass.
Proof. solve_decision. Defined.
#[global] Instance Exc_eq_dec : EqDecision Exc.
Proof. solve_decision. Defined.

(** [str.lower()] on the ASCII range, which is all [platform.system()]
    ever returns. *)
Definition ascii_lower (c : Ascii.ascii) : Ascii.ascii :=
  let n := Ascii.nat_of_ascii c in
  if bool_decide (65 ≤ n ≤ 90)%nat then Ascii.ascii_of_nat (n + 32) else c.

Fixpoint str_lower (s : string) : string :=
  match s with
  | EmptyString => EmptyString
  | String c r => String (ascii_lower c) (str_lower r)
  end.

(** [s * n] for a string and a count. *)
Fixpoint str_repeat (s : string) (n : nat) : string :=
  match n with
  | O => ""
  | S k => s +:+ str_repeat s k
  end.

Module VmTrigger.

(** ** Data *)

(** [config.py] is not part of the sources; its three names are taken as
    a record. A Python dict has one value per key, hence the [gmap]. *)
Record Config := mkConfig {
  SLACK_WEBHOOK_URL : string;
  VMS_TO_MONITOR : gmap string string;
  COMMON_PORTS : list Z
}.

(** The dict built by [check_single_vm] and by the error handler of the
    collection loop. [time.time()] is kept as an integer clock reading. *)
Record CheckResult := mkResult {
  name : string;
  ip : string;
  status : string;
  method : string;
  timestamp : Z
}.

#[global] Instance CheckResult_eq_dec : EqDecision CheckResult.
Proof. solve_decision. Defined.

(** Slack block-kit payloads, one constructor per dict shape used. *)
Inductive TextObj :=
| PlainText (text : string) (emoji : bool)
| Mrkdwn (text : string).

Inductive Block :=
| Header (text : TextObj)
| SectionFields (fields : list TextObj)
| SectionText (text : TextObj)
| Divider
| Context (elements : list TextObj).

Record SlackData := mkSlackData { text : string; blocks : list Block }.

#[global] Instance TextObj_eq_dec : EqDecision TextObj.
Proof. solve_decision. Defined.
#[global] Instance Block_eq_dec : EqDecision Block.
Proof. solve_decision. Defined.
#[global] Instance SlackData_eq_dec : EqDecision SlackData.
Proof. solve_decision. Defined.

(** [subprocess.DEVNULL] and [subprocess.PIPE]. *)
Inductive Stream := DEVNULL | PIPE.

(** ** Environment and trace *)

Record Env := mkEnv {
  (** [platform.system()] *)
  platform_system : string;
  (** socket creation, [settimeout], [connect_ex] and [close] for an
      address, a port and a timeout: the value of [connect_ex], or the
      exception one of the four calls raised *)
  socket_connect_ex : string → Z → Z → Exc + Z;
  (** [requests.get(url, ...)]: the final status code or an exception *)
  requests_get : string → Exc + Z;
  (** running a command line to completion under a timeout: the exit
      status, or an exception ([TimeoutExpired], [OSError]) *)
  os_exec : list string → Z → Exc + Z;
  (** [requests.post(url, data=json.dumps(payload), ...)]: the status
      code, or the exception raised, which is a [RequestException]
      (connection error, timeout, ...) or one of another class ([OSError]
      for a missing CA bundle, ...) *)
  requests_post : string → SlackData → Exc + Z;
  time_time : Z;
  time_strftime : string → string;
  time_ctime : string
}.

Inductive Event :=
| EvConnect (ip : string) (port : Z) (timeout : Z)
| EvGet (url : string) (timeout : Z)
| EvPlatform
| EvSubprocessRun (cmd : list string)
| EvExec (cmd : list string) (timeout : Z)
| EvPost (url : string) (data : SlackData)
| EvPrint (line : string).

#[global] Instance Event_eq_dec : EqDecision Event.
Proof. solve_decision. Defined.

(** A computation yields a value and the calls it made, in order. *)
Record M (A : Type) := mkM { value : A; trace : list Event }.
Arguments mkM {A} _ _.
Arguments value {A} _.
Arguments trace {A} _.

#[global] Instance M_ret : MRet M := λ A a, mkM a [].
#[global] Instance M_bind : MBind M := λ A B k m,
  let r := k (value m) in mkM (value r) (trace m ++ trace r)%list.

Definition emit (e : Event) : M unit := mkM () [e].

Definition print (line : string) : M unit := emit (EvPrint line).

Section Probes.
Context (env : Env).

(** *** Library calls *)

Definition connect_ex (ip : string) (port timeout : Z) : M (Exc + Z) :=
  mkM (socket_connect_ex env ip port timeout) [EvConnect ip port timeout].

Definition http_get (url : string) (timeout : Z) : M (Exc + Z) :=
  mkM (requests_get env url) [EvGet url timeout].

Definition call_platform_system : M string :=
  mkM (platform_system env) [EvPlatform].

(** [subprocess.run]: the standard library refuses [capture_output]
    together with an explicit [stdout] or [stderr] by raising
    [ValueError] before any process is created. *)
Definition subprocess_run (cmd : list string) (capture_output : bool)
    (timeout : Z) (stdout stderr : option Stream) : M (Exc + Z) :=
  _ ← emit (EvSubprocessRun cmd);
  if capture_output && (bool_decide (is_Some stdout) || bool_decide (is_Some stderr))
  then mret (inl (mkExc OtherException
         "stdout and stderr arguments may not be used with capture_output."))
  else mkM (os_exec env cmd timeout) [EvExec cmd timeout].

(** *** check_tcp_port *)

Definition check_tcp_port (ip_address : string) (port : Z) (timeout : Z) : M bool :=
  r ← connect_ex ip_address port timeout;
  match r with
  | inr result => mret (bool_decide (result = 0))
  | inl _ => mret false
  end.

(** *** check_any_port_open *)

Fixpoint check_any_port_open (ip_address : string) (ports : list Z)
    : M (bool * option Z) :=
  match ports with
  | [] => mret (false, None)
  | port :: rest =>
      is_open ← check_tcp_port ip_address port 2;
      if is_open : bool then mret (true, Some port)
      else check_any_port_open ip_address rest
  end.

(** *** check_http_service

    The import of [InsecureRequestWarning] and the call that silences it
    change no result and are left out. *)

Definition http_protocols : list string := ["http"; "https"].
Definition http_ports : list Z := [80; 443; 8080; 3000; 8000].

Definition http_url (protocol ip_address : string) (port : Z) : string :=
  protocol +:+ "://" +:+ ip_address +:+ ":" +:+ pretty port.

Definition http_service (protocol : string) (port : Z) : string :=
  protocol +:+ ":" +:+ pretty port.

(** The inner loop; [Some s] is the early [return True, s], [None] is
    the loop running to its end. *)
Fixpoint http_try_ports (ip_address protocol : string) (ports : list Z)
    : M (option string) :=
  match ports with
  | [] => mret None
  | port :: rest =>
      r ← http_get (http_url protocol ip_address port) 3;
      match r with
      | inr status_code =>
          if bool_decide (status_code < 500)
          then mret (Some (http_service protocol port))
          else http_try_ports ip_address protocol rest
      | inl _ => http_try_ports ip_address protocol rest
      end
  end.

Fixpoint http_try_protocols (ip_address : string) (protocols : list string)
    : M (bool * option string) :=
  match protocols with
  | [] => mret (false, None)
  | protocol :: rest =>
      r ← http_try_ports ip_address protocol http_ports;
      match r with
      | Some service => mret (true, Some service)
      | None => http_try_protocols ip_address rest
      end
  end.

Definition check_http_service (ip_address : string) : M (bool * option string) :=
  http_try_protocols ip_address http_protocols.

(** *** check_vm_status_ping *)

Definition ping_command (system ip_address : string) : list string :=
  if bool_decide (str_lower system = "windows")
  then ["ping"; "-n"; "2"; "-w"; "3000"; ip_address]
  else ["ping"; "-c"; "2"; "-W"; "3"; ip_address].

Definition check_vm_status_ping (ip_address : string) : M bool :=
  system ← call_platform_system;
  r ← subprocess_run (ping_command system ip_address) true 10
        (Some DEVNULL) (Some DEVNULL);
  match r with
  | inr returncode => mret (bool_decide (returncode = 0))
  | inl _ => mret false
  end.

End Probes.

(** ** comprehensive_server_check

    The function calls the three probes through their global names; the
    embedding takes them as a record, and [probes] below is the record of
    the three functions above. *)

Record ProbeSet := mkProbes {
  port_probe : string → M (bool * option Z);
  http_probe : string → M (bool * option string);
  icmp_probe : string → M bool
}.

(** [f"{x}"] for a value that may be [None]. *)
Definition fmt_opt {A} (f : A → string) (x : option A) : string :=
  match x with Some a => f a | None => "None" end.

Definition comprehensive_server_check_with (P : ProbeSet) (ip_address : string)
    : M (string * string) :=
  '(port_open, port) ← port_probe P ip_address;
  if port_open : bool then mret ("UP", "TCP Port " +:+ fmt_opt pretty port)
  else
    '(http_works, service) ← http_probe P ip_address;
    if http_works : bool then mret ("UP", "HTTP " +:+ fmt_opt id service)
    else
      ping_ok ← icmp_probe P ip_address;
      if ping_ok : bool then mret ("UP", "ICMP Ping")
      else mret ("DOWN", "All checks failed").

Definition probes (env : Env) (cfg : Config) : ProbeSet :=
  mkProbes (λ a, check_any_port_open env a (COMMON_PORTS cfg))
           (check_http_service env)
           (check_vm_status_ping env).

Definition comprehensive_server_check (env : Env) (cfg : Config)
    (ip_address : string) : M (string * string) :=
  comprehensive_server_check_with (probes env cfg) ip_address.

(** ** check_single_vm *)

Definition nl : string := String (Ascii.ascii_of_nat 10) "".

Definition check_single_vm (env : Env) (cfg : Config)
    (vm_name ip_address : string) : M CheckResult :=
  _ ← print ("⏳ Checking " +:+ vm_name +:+ " (" +:+ ip_address +:+ ")...");
  '(status, method) ← comprehensive_server_check env cfg ip_address;
  let icon := if bool_decide (status = "UP") then "✅" else "❌" in
  _ ← print ("   " +:+ icon +:+ " " +:+ vm_name +:+ ": " +:+ status
             +:+ " (" +:+ method +:+ ")");
  mret (mkResult vm_name ip_address status method (time_time env)).

(** ** send_slack_notification *)

Definition status_emoji : gmap string string :=
  {[ "DOWN" := "🔴"; "TIMEOUT" := "⏱️"; "ERROR" := "⚠️" ]}.

Definition alert_payload (env : Env) (vm_name ip_address status : string)
    (method : option string) : SlackData :=
  let emoji := default "❌" (status_emoji !! status) in
  let method_text :=
    if bool_decide (method = Some "All checks failed")
    then nl +:+ "*Check Method:* All methods tried (TCP ports, HTTP, Ping)"
    else nl +:+ "*Last Successful Check:* " +:+ fmt_opt id method in
  mkSlackData
    (emoji +:+ " ALERT: " +:+ vm_name +:+ " is " +:+ status +:+ "!")
    [ Header (PlainText "🚨 SERVER DOWN ALERT" true);
      SectionFields
        [ Mrkdwn ("*Server Name:*" +:+ nl +:+ "`" +:+ vm_name +:+ "`");
          Mrkdwn ("*IP Address:*" +:+ nl +:+ "`" +:+ ip_address +:+ "`") ];
      SectionFields
        [ Mrkdwn ("*Status:*" +:+ nl +:+ emoji +:+ " *" +:+ status +:+ "*");
          Mrkdwn ("*Detected At:*" +:+ nl +:+ "<!date^" +:+ pretty (time_time env)
                  +:+ "^{time} {date_short}|"
                  +:+ time_strftime env "%Y-%m-%d %H:%M:%S" +:+ ">") ];
      Divider;
      Context
        [ Mrkdwn ("⚡ *Action Required:* Server is not responding to any connectivity checks."
                  +:+ method_text) ] ].

Definition post (env : Env) (url : string) (data : SlackData) : M (Exc + Z) :=
  mkM (requests_post env url data) [EvPost url data].

(** The handler names [RequestException]: an exception of another class
    raised by the post leaves the function. *)
Definition send_slack_notification (env : Env) (cfg : Config)
    (vm_name ip_address status : string) (method : option string) : M (Exc + bool) :=
  let slack_data := alert_payload env vm_name ip_address status method in
  r ← post env (SLACK_WEBHOOK_URL cfg) slack_data;
  match r with
  | inr status_code =>
      if bool_decide (status_code = 200) then
        _ ← print ("   ✅ Slack notification sent for " +:+ vm_name);
        mret (inr true)
      else
        _ ← print ("   ❌ Slack notification failed. Status: " +:+ pretty status_code);
        mret (inr false)
  | inl e =>
      match exc_class e with
      | RequestException =>
          _ ← print ("   ❌ Error sending Slack notification: " +:+ exc_str e);
          mret (inr false)
      | OtherException => mret (inl e)
      end
  end.

(** ** send_summary_notification *)

Definition server_field (server : CheckResult) : TextObj :=
  Mrkdwn ("*" +:+ name server +:+ "*" +:+ nl +:+ "`" +:+ ip server +:+ "` - _"
          +:+ status server +:+ "_").

Definition summary_text (down_count total_servers : nat) : string :=
  "⚠️ MONITORING SUMMARY: " +:+ pretty down_count +:+ "/" +:+ pretty total_servers
  +:+ " servers are DOWN".

Definition summary_count_text (down_count total_servers : nat) : string :=
  "*" +:+ pretty down_count +:+ " out of " +:+ pretty total_servers
  +:+ " servers are currently DOWN* 🔴".

Definition summary_payload (env : Env) (down_servers : list CheckResult)
    (total_servers : nat) : SlackData :=
  let down_count := length down_servers in
  let server_fields := server_field <$> down_servers in
  let summary_section := SectionFields (take 10 server_fields) in
  mkSlackData
    (summary_text down_count total_servers)
    [ Header (PlainText "📊 Monitoring Summary Report" true);
      SectionText (Mrkdwn (summary_count_text down_count total_servers));
      Divider;
      summary_section;
      Context
        [ Mrkdwn ("Scan completed at <!date^" +:+ pretty (time_time env)
                  +:+ "^{time} {date_long}|" +:+ time_ctime env +:+ ">") ] ].

Definition send_summary_notification (env : Env) (cfg : Config)
    (down_servers : list CheckResult) (total_servers : nat) : M (Exc + unit) :=
  match down_servers with
  | [] => mret (inr ())
  | _ =>
      r ← post env (SLACK_WEBHOOK_URL cfg) (summary_payload env down_servers total_servers);
      match r with
      | inr status_code =>
          if bool_decide (status_code = 200)
          then _ ← print (nl +:+ "✅ Summary report sent to Slack"); mret (inr ())
          else mret (inr ())
      | inl e =>
          match exc_class e with
          | RequestException =>
              _ ← print (nl +:+ "❌ Error sending summary: " +:+ exc_str e);
              mret (inr ())
          | OtherException => mret (inl e)
          end
      end
  end.

(** ** The main block

    Worker threads run [check_single_vm]; the main thread sees each future
    once, in completion order, and [future.result()] either returns the
    worker's dict or re-raises what the worker raised. The trace of the
    main block holds the calls of the main thread only. *)

Definition Future : Type := string * (Exc + CheckResult).

Definition error_result (env : Env) (cfg : Config) (vm_name : string) (e : Exc)
    : CheckResult :=
  mkResult vm_name (VMS_TO_MONITOR cfg !!! vm_name) "ERROR" (exc_str e) (time_time env).

(** The body of [for future in as_completed(future_to_vm)], threading the
    two lists the loop appends to. The per-target alert is sent inside the
    [try]: an exception it lets through is caught by [except Exception]
    like one of [future.result()], the lists being as the [try] left them.
    The alert of the handler is sent outside any [try]: an exception it lets
    through ends the loop, and the run. *)
Fixpoint collect (env : Env) (cfg : Config) (futures : list Future)
    (results down_servers : list CheckResult)
    : M (Exc + (list CheckResult * list CheckResult)) :=
  match futures with
  | [] => mret (inr (results, down_servers))
  | (vm_name, outcome) :: rest =>
      let handler (e : Exc) (results down_servers : list CheckResult) :=
        let error_result := error_result env cfg vm_name e in
        let results := (results ++ [error_result])%list in
        let down_servers := (down_servers ++ [error_result])%list in
        _ ← print ("   ⚠️ Exception checking " +:+ vm_name +:+ ": " +:+ exc_str e);
        sent ← send_slack_notification env cfg vm_name
                 (VMS_TO_MONITOR cfg !!! vm_name) "ERROR" (Some (exc_str e));
        match sent with
        | inr _ => collect env cfg rest results down_servers
        | inl e' => mret (inl e')
        end in
      match outcome with
      | inr result =>
          let results := (results ++ [result])%list in
          if bool_decide (status result ≠ "UP") then
            let down_servers := (down_servers ++ [result])%list in
            sent ← send_slack_notification env cfg (name result) (ip result)
                     (status result) (Some (method result));
            match sent with
            | inr _ => collect env cfg rest results down_servers
            | inl e => handler e results down_servers
            end
          else collect env cfg rest results down_servers
      | inl e => handler e results down_servers
      end
  end.

Fixpoint print_down_servers (down_servers : list CheckResult) : M unit :=
  match down_servers with
  | [] => mret ()
  | server :: rest =>
      _ ← print ("   - " +:+ name server +:+ " (" +:+ ip server +:+ ") - "
                 +:+ status server);
      print_down_servers rest
  end.

Definition banner : string := str_repeat "=" 60.

(** [task vm_name ip_addr] is the outcome of the call submitted for one
    target; [completed] lists the submitted (name, address) pairs in the
    order their futures complete. *)
Definition futures_of (task : string → string → Exc + CheckResult)
    (completed : list (string * string)) : list Future :=
  (λ '(vm_name, ip_addr), (vm_name, task vm_name ip_addr)) <$> completed.

Definition main_with (env : Env) (cfg : Config)
    (task : string → string → Exc + CheckResult)
    (completed : list (string * string))
    : M (Exc + (list CheckResult * list CheckResult)) :=
  _ ← print banner;
  _ ← print "🔍 VM MONITORING SYSTEM - Starting Health Check";
  _ ← print banner;
  _ ← print ("📊 Monitoring " +:+ pretty (size (VMS_TO_MONITOR cfg)) +:+ " servers...");
  _ ← print ("⏰ Started at: " +:+ time_strftime env "%Y-%m-%d %H:%M:%S");
  _ ← print ("🔧 Using: TCP Port Scan + HTTP Check + Ping" +:+ nl);
  let futures := futures_of task completed in
  collected ← collect env cfg futures [] [];
  match collected with
  | inl e => mret (inl e)
  | inr (results, down_servers) =>
      _ ← print (nl +:+ banner);
      _ ← print "📈 MONITORING SUMMARY";
      _ ← print banner;
      let total_servers := length results in
      let up_count := (Z.of_nat total_servers - Z.of_nat (length down_servers))%Z in
      _ ← print ("✅ Servers UP: " +:+ pretty up_count +:+ "/" +:+ pretty total_servers);
      _ ← print ("❌ Servers DOWN/ERROR: " +:+ pretty (length down_servers) +:+ "/"
                 +:+ pretty total_servers);
      reported ← match down_servers with
                 | [] => _ ← print (nl +:+ "✅ All servers are operational!"); mret (inr ())
                 | _ =>
                     _ ← print (nl +:+ "🔴 DOWN / ERROR SERVERS:");
                     _ ← print_down_servers down_servers;
                     if bool_decide (1 ≤ length down_servers)%nat
                     then send_summary_notification env cfg down_servers total_servers
                     else mret (inr ())
                 end;
      match reported with
      | inl e => mret (inl e)
      | inr _ =>
          _ ← print (nl +:+ banner);
          _ ← print ("✅ Monitoring completed at: "
                     +:+ time_strftime env "%Y-%m-%d %H:%M:%S");
          _ ← print banner;
          mret (inr (results, down_servers))
      end
  end.

Definition main (env : Env) (cfg : Config) (completed : list (string * string))
    : M (Exc + (list CheckResult * list CheckResult)) :=
  main_with env cfg (λ vm_name ip_addr, inr (value (check_single_vm env cfg vm_name ip_addr)))
    completed.

(** The payloads posted to the webhook, in order. *)
Definition posted (t : list Event) : list SlackData :=
  omap (λ e, match e with EvPost _ d => Some d | _ => None end) t.

(** ** Vocabulary of the statements *)

(** A port accepts a connection when [connect_ex] returns 0 under the
    two-second timeout the port probe uses. *)
Definition accepts (env : Env) (ip_address : string) (port : Z) : Prop :=
  socket_connect_ex env ip_address port 2 = inr 0.

#[global] Instance accepts_dec env a p : Decision (accepts env a p).
Proof. unfold accepts. apply _. Defined.

Definition connects (ip_address : string) (ports : list Z) : list Event :=
  (λ p, EvConnect ip_address p 2) <$> ports.

(** A (scheme, port) pair responds when the GET returns a status below 500. *)
Definition responds (env : Env) (ip_address : string) (pr : string * Z) : Prop :=
  ∃ code, requests_get env (http_url pr.1 ip_address pr.2) = inr code ∧ code < 500.

#[global] Instance responds_dec env a pr : Decision (responds env a pr).
Proof.
  unfold responds. destruct (requests_get env (http_url pr.1 a pr.2)) as [e|code].
  - right. intros (c & H & _). discriminate.
  - destruct (decide (code < 500)) as [Hlt|Hge].
    + left. by exists code.
    + right. intros (c & [= <-] & Hc). by apply Hge.
Defined.

Definition gets (ip_address : string) (prs : list (string * Z)) : list Event :=
  (λ pr, EvGet (http_url pr.1 ip_address pr.2) 3) <$> prs.

(** The pairs the two nested loops go through, in order. *)
Definition pairs_of (protos : list string) : list (string * Z) :=
  protocol ← protos; pair protocol <$> http_ports.

Definition tried_pairs : list (string * Z) := pairs_of http_protocols.

(** The five pairs named by the written contract of the HTTP probe. *)
Definition listed_pairs : list (string * Z) :=
  [("http", 80); ("https", 443); ("http", 8080); ("http", 3000); ("http", 8000)].

(** The written contract of the HTTP probe: only the five listed pairs are
    requested, the first of them that responds is reported, and the probe
    fails when none of them responds. *)
Definition five_pair_contract : Prop :=
  ∀ (env : Env) (ip_address : string),
    let r := check_http_service env ip_address in
    (∀ url t, EvGet url t ∈ trace r →
       ∃ pr, pr ∈ listed_pairs ∧ url = http_url pr.1 ip_address pr.2)
    ∧ (∀ pre pr post, listed_pairs = (pre ++ pr :: post)%list →
         Forall (λ q, ¬ responds env ip_address q) pre →
         responds env ip_address pr →
         value r = (true, Some (http_service pr.1 pr.2)))
    ∧ (Forall (λ q, ¬ responds env ip_address q) listed_pairs →
         value r = (false, None)).

(** The written contract of the ICMP probe: two echo requests are sent
    under the ten-second bound, and the probe succeeds exactly when the
    ping process exits with status 0. *)
Definition icmp_contract : Prop :=
  ∀ (env : Env) (ip_address : string),
    let cmd := ping_command (platform_system env) ip_address in
    EvExec cmd 10 ∈ trace (check_vm_status_ping env ip_address)
    ∧ (value (check_vm_status_ping env ip_address) = true ↔ os_exec env cmd 10 = inr 0).

(** Replacing the webhook of an environment. *)
Definition with_requests_post (env : Env) (f : string → SlackData → Exc + Z) : Env :=
  mkEnv (platform_system env) (socket_connect_ex env) (requests_get env)
        (os_exec env) f (time_time env) (time_strftime env) (time_ctime env).

(** What the collection loop records for one completed future. *)
Definition outcome_result (env : Env) (cfg : Config) (f : Future) : CheckResult :=
  match f.2 with
  | inr result => result
  | inl e => error_result env cfg f.1 e
  end.

Definition is_down (r : CheckResult) : Prop := status r ≠ "UP".

#[global] Instance is_down_dec r : Decision (is_down r).
Proof. unfold is_down. apply _. Defined.

Definition alert_of (env : Env) (r : CheckResult) : SlackData :=
  alert_payload env (name r) (ip r) (status r) (Some (method r)).


(** No common port of the address accepts a connection and none of the
    pairs the HTTP probe tries responds. *)
Definition unreachable (env : Env) (cfg : Config) (ip_address : string) : Prop :=
  Forall (λ q, ¬ accepts env ip_address q) (COMMON_PORTS cfg)
  ∧ Forall (λ q, ¬ responds env ip_address q) tried_pairs.

#[global] Instance unreachable_dec env cfg a : Decision (unreachable env cfg a).
Proof. unfold unreachable. apply _. Defined.

Definition is_up (r : CheckResult) : Prop := status r = "UP".

(** The webhook call raises nothing but what the two alert functions
    catch. *)
Definition raises_only_request_exceptions (env : Env) : Prop :=
  ∀ url data e, requests_post env url data = inl e → exc_class e = RequestException.

(** The written contract of the per-target alert: the call always returns
    a boolean. *)
Definition alert_never_raises : Prop :=
  ∀ (env : Env) (cfg : Config) (vm_name ip_address status : string)
    (method : option string),
    ∃ sent : bool,
      value (send_slack_notification env cfg vm_name ip_address status method) = inr sent.

(** The written contract of the collection loop: whatever fault a check
    raises, the run goes on and every target has its record, the faulty
    ones an "ERROR" record with the failure message. *)
Definition fault_never_aborts : Prop :=
  ∀ (env : Env) (cfg : Config) (task : string → string → Exc + CheckResult)
    (completed : list (string * string)),
    completed ≡ₚ map_to_list (VMS_TO_MONITOR cfg) →
    ∃ results down_servers,
      value (main_with env cfg task completed) = inr (results, down_servers)
      ∧ (∀ n addr e, VMS_TO_MONITOR cfg !! n = Some addr → task n addr = inl e →
           mkResult n addr "ERROR" (exc_str e) (time_time env) ∈ results)
      ∧ (∀ n addr r, VMS_TO_MONITOR cfg !! n = Some addr → task n addr = inr r →
           r ∈ results).

#[global] Instance is_up_dec r : Decision (is_up r).
Proof. unfold is_up. apply _. Defined.

End VmTrigger.



Module Geolocation.

(** ** Values

    What [response.json()] can return. An integer literal gives an [int],
    any other number a [float], kept as the rational it denotes; of a
    number only the type and whether it is zero are ever looked at. *)

#[warnings="-register-all"]
Inductive Json :=
| JNull
| JBool (b : bool)
| JInt (n : Z)
| JNum (q : QArith_base.Q)
| JStr (s : string)
| JArr (l : list Json)
| JObj (m : gmap string Json).

(** A statement either completes with a value or raises. *)
Inductive Result (A : Type) :=
| Return (a : A)
| Raise (e : Exc).
Arguments Return {A} _.
Arguments Raise {A} _.

#[global] Instance Result_ret : MRet Result := λ A, Return.
#[global] Instance Result_bind : MBind Result := λ A B k m,
  match m with
  | Return a => k a
  | Raise e => Raise e
  end.

Definition type_name (v : Json) : string :=
  match v with
  | JNull => "NoneType"
  | JBool _ => "bool"
  | JInt _ => "int"
  | JNum _ => "float"
  | JStr _ => "str"
  | JArr _ => "list"
  | JObj _ => "dict"
  end.

Definition not_subscriptable {A} (v : Json) : Result A :=
  Raise (mkExc OtherException ("'" +:+ type_name v +:+ "' object is not subscriptable")).

(** [v[key]] for a string key. *)
Definition getitem_str (v : Json) (key : string) : Result Json :=
  match v with
  | JObj m =>
      match m !! key with
      | Some x => Return x
      | None => Raise (mkExc OtherException ("'" +:+ key +:+ "'"))
      end
  | JArr _ => Raise (mkExc OtherException "list indices must be integers or slices, not str")
  | JStr _ => Raise (mkExc OtherException "string indices must be integers, not 'str'")
  | _ => not_subscriptable v
  end.

(** [v[0]] *)
Definition getitem_0 (v : Json) : Result Json :=
  match v with
  | JArr (x :: _) => Return x
  | JArr [] => Raise (mkExc OtherException "list index out of range")
  | JStr (String c _) => Return (JStr (String c ""))
  | JStr EmptyString => Raise (mkExc OtherException "string index out of range")
  | JObj _ => Raise (mkExc OtherException "0")
  | _ => not_subscriptable v
  end.

(** [v.get(key, default)] *)
Definition dict_get (v : Json) (key : string) (dflt : Json) : Result Json :=
  match v with
  | JObj m => Return (default dflt (m !! key))
  | _ => Raise (mkExc OtherException
           ("'" +:+ type_name v +:+ "' object has no attribute 'get'"))
  end.

(** Truth value of an object in a condition. *)
Definition truthy (v : Json) : bool :=
  match v with
  | JNull => false
  | JBool b => b
  | JInt n => negb (n =? 0)
  | JNum q => negb (QArith_base.Qnum q =? 0)
  | JStr s => negb (bool_decide (s = ""))
  | JArr l => negb (bool_decide (l = []))
  | JObj m => negb (bool_decide (m = ∅))
  end.

(** [v == s] for a string literal [s]. *)
Definition eq_str (v : Json) (s : string) : bool :=
  match v with
  | JStr s' => bool_decide (s' = s)
  | _ => false
  end.

(** ** Environment *)

Record Response := mkResponse {
  status_code : Z;
  (** [str] of the [HTTPError] that [raise_for_status] builds *)
  http_error : string;
  (** [response.json()] *)
  json : Result Json
}.

Record Env := mkEnv {
  GOOGLE_API_KEY : option string;
  (** [requests.get(url, params=..., timeout=...)] *)
  requests_get : string → list (string * option string) → Z → Result Response
}.

Definition GEOCODING_URL : string := "https://maps.googleapis.com/maps/api/geocode/json".

Definition raise_for_status (response : Response) : Result unit :=
  if bool_decide (400 ≤ status_code response < 600)
  then Raise (mkExc RequestException (http_error response))
  else Return ().

(** ** get_geolocation *)

(** The statements inside [try]. *)
Definition get_geolocation_body (env : Env) (address : string)
    : Result (gmap string Json) :=
  let params := [("address", Some address); ("key", GOOGLE_API_KEY env)] in
  response ← requests_get env GEOCODING_URL params 10;
  _ ← raise_for_status response;
  data ← json response;
  status ← getitem_str data "status";
  cond ← (if eq_str status "OK"
          then results ← getitem_str data "results"; mret (truthy results)
          else mret false);
  if cond : bool then
    results ← getitem_str data "results";
    first ← getitem_0 results;
    geometry ← getitem_str first "geometry";
    location ← getitem_str geometry "location";
    formatted_address ← getitem_str first "formatted_address";
    lat ← getitem_str location "lat";
    lng ← getitem_str location "lng";
    place_id ← dict_get first "place_id" (JStr "");
    mret ({[ "latitude" := lat; "longitude" := lng;
             "formatted_address" := formatted_address;
             "place_id" := place_id ]} : gmap string Json)
  else
    error ← dict_get data "status" (JStr "UNKNOWN");
    message ← dict_get data "error_message" (JStr "No results found");
    mret ({[ "error" := error; "message" := message ]} : gmap string Json).

(** The two handlers; between them they catch every exception class. *)
Definition get_geolocation (env : Env) (address : string) : gmap string Json :=
  match get_geolocation_body env address with
  | Return d => d
  | Raise e =>
      match exc_class e with
      | RequestException =>
          {[ "error" := JStr "API_REQUEST_FAILED"; "message" := JStr (exc_str e) ]}
      | OtherException =>
          {[ "error" := JStr "UNEXPECTED_ERROR"; "message" := JStr (exc_str e) ]}
      end
  end.

Definition geocode_params (env : Env) (address : string)
    : list (string * option string) :=
  [("address", Some address); ("key", GOOGLE_API_KEY env)].

(** The API reported status 'OK' together with a non-empty result list. *)
Definition reports_ok (env : Env) (address : string) : Prop :=
  ∃ response data first rest,
    requests_get env GEOCODING_URL (geocode_params env address) 10 = Return response
    ∧ ¬ (400 ≤ status_code response < 600)
    ∧ json response = Return data
    ∧ getitem_str data "status" = Return (JStr "OK")
    ∧ getitem_str data "results" = Return (JArr (first :: rest)).

(** The same, with a first result that is an object carrying a location
    and a formatted address; [pid] is its place id, or '' without one. *)
Definition located_answer (env : Env) (address : string)
    (lat lng fa pid : Json) : Prop :=
  ∃ response m first rest geometry location,
    requests_get env GEOCODING_URL (geocode_params env address) 10 = Return response
    ∧ ¬ (400 ≤ status_code response < 600)
    ∧ json response = Return (JObj m)
    ∧ m !! "status" = Some (JStr "OK")
    ∧ m !! "results" = Some (JArr (JObj first :: rest))
    ∧ first !! "geometry" = Some (JObj geometry)
    ∧ geometry !! "location" = Some (JObj location)
    ∧ location !! "lat" = Some lat
    ∧ location !! "lng" = Some lng
    ∧ first !! "formatted_address" = Some fa
    ∧ pid = default (JStr "") (first !! "place_id").

Definition success_keys (d : gmap string Json) : Prop :=
  "latitude" ∈ dom d ∧ "longitude" ∈ dom d
  ∧ "formatted_address" ∈ dom d ∧ "place_id" ∈ dom d.

Definition error_keys (d : gmap string Json) : Prop :=
  "error" ∈ dom d ∧ "message" ∈ dom d.

Definition success_dict (lat lng fa pid : Json) : gmap string Json :=
  {[ "latitude" := lat; "longitude" := lng;
     "formatted_address" := fa; "place_id" := pid ]}.

(** The reading under which an 'OK' status with a non-empty result list
    is all it takes for the four keys, every other case giving the error
    keys. *)
Definition ok_gives_coordinates : Prop :=
  ∀ (env : Env) (address : string),
    (reports_ok env address → success_keys (get_geolocation env address))
    ∧ (¬ reports_ok env address → error_keys (get_geolocation env address)).

End Geolocation.

(** * The lead pipeline of the geocoding script

    [build_address_string], the two database functions and [process_leads].
    The database is a state: the two tables the queries name, the rows of
    the transaction in progress, and a schedule saying which of the coming
    database calls raise. Console output is left out: it changes no value
    and no call. *)

Module Leads.
Import Geolocation.

(** ** Column values

    What the driver hands over for the columns read here: [None], an
    integer or a string. *)
Inductive SqlVal :=
| SNull
| SInt (n : Z)
| SText (s : string).

#[global] Instance SqlVal_eq_dec : EqDecision SqlVal.
Proof. solve_decision. Defined.

Definition sql_truthy (v : SqlVal) : bool :=
  match v with
  | SNull => false
  | SInt n => negb (n =? 0)
  | SText s => negb (bool_decide (s = ""))
  end.

(** [str(v)] *)
Definition sql_str (v : SqlVal) : string :=
  match v with
  | SNull => "None"
  | SInt n => pretty n
  | SText s => s
  end.

Definition sql_type_name (v : SqlVal) : string :=
  match v with
  | SNull => "NoneType"
  | SInt _ => "int"
  | SText _ => "str"
  end.

(** [lead.get(key)] *)
Definition lead_get (lead : gmap string SqlVal) (key : string) : SqlVal :=
  default SNull (lead !! key).

(** ** str.join *)

Fixpoint join_texts (sep : string) (l : list string) : string :=
  match l with
  | [] => ""
  | [x] => x
  | x :: rest => x +:+ sep +:+ join_texts sep rest
  end.

(** The items of the sequence, which must all be strings; [i] is the
    position of the first item of [parts]. *)
Fixpoint as_texts (i : nat) (parts : list SqlVal) : Result (list string) :=
  match parts with
  | [] => Return []
  | SText s :: rest => r ← as_texts (S i) rest; mret (s :: r)
  | v :: _ =>
      Raise (mkExc OtherException
               ("sequence item " +:+ pretty i +:+ ": expected str instance, "
                +:+ sql_type_name v +:+ " found"))
  end.

Definition str_join (sep : string) (parts : list SqlVal) : Result string :=
  texts ← as_texts 0 parts; mret (join_texts sep texts).

(** ** build_address_string

    [lead[key]] after a truthy [lead.get(key)] is that same value. *)
Definition build_address_string (lead : gmap string SqlVal) : Result string :=
  let address_parts : list SqlVal := [] in
  let address_parts :=
    if sql_truthy (lead_get lead "address")
    then address_parts ++ [lead_get lead "address"] else address_parts in
  let address_parts :=
    if sql_truthy (lead_get lead "city")
    then address_parts ++ [lead_get lead "city"] else address_parts in
  let address_parts :=
    if sql_truthy (lead_get lead "state")
    then address_parts ++ [lead_get lead "state"] else address_parts in
  let address_parts :=
    if sql_truthy (lead_get lead "pincode")
    then address_parts ++ [SText (sql_str (lead_get lead "pincode"))]
    else address_parts in
  let address_parts := address_parts ++ [SText "India"] in
  str_join ", " address_parts.

(** ** Tables *)

Record LeadRow := mkLeadRow {
  l_id : Z;
  l_lead_name : SqlVal;
  l_address : SqlVal;
  l_pincode : SqlVal;
  l_state : SqlVal;
  l_city : SqlVal;
  l_stage : SqlVal
}.

Record GeoRow := mkGeoRow {
  g_id : Z;
  g_latitude : Json;
  g_longitude : Json;
  g_type : string
}.

(** [dict(zip(columns, row))] for the seven selected columns. *)
Definition lead_dict (l : LeadRow) : gmap string SqlVal :=
  {[ "id" := SInt (l_id l); "lead_name" := l_lead_name l; "address" := l_address l;
     "pincode" := l_pincode l; "state" := l_state l; "city" := l_city l;
     "stage" := l_stage l ]}.

(** ** The outside world *)

Inductive Ev :=
| EvDbConnect
| EvFetchLeads
| EvSelect (lead_id : Z)
| EvInsert (row : GeoRow)
| EvCommit
| EvRollback
| EvClose
| EvGeocode (address : string)
| EvSleep.

Record World := mkWorld {
  (** the rows of [lead], in the order the server scans them *)
  lead_table : list LeadRow;
  (** the committed rows of [geolocation] *)
  geolocation_table : list GeoRow;
  (** the rows inserted by the transaction in progress *)
  pending : list GeoRow;
  (** for each database call still to come, the error it raises, if any;
      calls beyond the schedule succeed *)
  faults : list (option string);
  (** the calls made so far *)
  log : list Ev
}.

Definition add_log (ev : Ev) (w : World) : World :=
  mkWorld (lead_table w) (geolocation_table w) (pending w) (faults w) (log w ++ [ev]).

Definition set_faults (f : list (option string)) (w : World) : World :=
  mkWorld (lead_table w) (geolocation_table w) (pending w) f (log w).

Definition set_pending (p : list GeoRow) (w : World) : World :=
  mkWorld (lead_table w) (geolocation_table w) p (faults w) (log w).

Definition commit_pending (w : World) : World :=
  mkWorld (lead_table w) (geolocation_table w ++ pending w) [] (faults w) (log w).

(** What a statement of the connection sees. *)
Definition visible (w : World) : list GeoRow := geolocation_table w ++ pending w.

(** A computation on the world that returns or raises. *)
Record DbM (A : Type) := mkDbM { run_db : World → Result A * World }.
Arguments mkDbM {A} _.
Arguments run_db {A} _ _.

#[global] Instance DbM_ret : MRet DbM := λ A a, mkDbM (λ w, (Return a, w)).
#[global] Instance DbM_bind : MBind DbM := λ A B k m,
  mkDbM (λ w, match run_db m w with
              | (Return a, w') => run_db (k a) w'
              | (Raise e, w') => (Raise e, w')
              end).

Definition lift {A} (r : Result A) : DbM A := mkDbM (λ w, (r, w)).

(** [try: m except Exception as e: h e] *)
Definition try_except {A} (m : DbM A) (h : Exc → DbM A) : DbM A :=
  mkDbM (λ w, match run_db m w with
              | (Return a, w') => (Return a, w')
              | (Raise e, w') => run_db (h e) w'
              end).

(** [try: m finally: f] *)
Definition try_finally {A} (m : DbM A) (f : DbM unit) : DbM A :=
  mkDbM (λ w, match run_db m w with
              | (r, w') =>
                  match run_db f w' with
                  | (Return _, w'') => (r, w'')
                  | (Raise e, w'') => (Raise e, w'')
                  end
              end).

(** A call to the database: it is logged, and it raises when the schedule
    says so, without effect on the tables. *)
Definition db_call {A} (ev : Ev) (op : World → A * World) : DbM A :=
  mkDbM (λ w,
    let w := add_log ev w in
    match faults w with
    | Some msg :: rest => (Raise (mkExc OtherException msg), set_faults rest w)
    | None :: rest => let '(a, w') := op (set_faults rest w) in (Return a, w')
    | [] => let '(a, w') := op w in (Return a, w')
    end).

Definition tell (ev : Ev) : DbM unit := mkDbM (λ w, (Return (), add_log ev w)).

(** ** get_leads_without_geolocation

    The query, clause by clause: [ct] are the geolocation rows of type
    'lead'; [main] joins them to the leads with the same id and keeps the
    joined leads that have a stage; the result are the leads that have a
    stage and whose id is not among those of [main]. *)
Definition has_stage (l : LeadRow) : Prop := l_stage l ≠ SNull.

#[global] Instance has_stage_dec l : Decision (has_stage l).
Proof. unfold has_stage. apply _. Defined.

Definition query_ct (w : World) : list GeoRow :=
  filter (λ g, g_type g = "lead") (visible w).

Definition query_main (w : World) : list LeadRow :=
  c ← query_ct w;
  filter (λ l, l_id l = g_id c ∧ has_stage l) (lead_table w).

Definition leads_query (w : World) : list LeadRow :=
  filter (λ l, has_stage l ∧ l_id l ∉ (l_id <$> query_main w)) (lead_table w).

Definition get_leads_without_geolocation : DbM (list LeadRow) :=
  db_call EvFetchLeads (λ w, (leads_query w, w)).

(** ** save_geolocation *)

Definition dict_index (d : gmap string Json) (key : string) : Result Json :=
  match d !! key with
  | Some x => Return x
  | None => Raise (mkExc OtherException ("'" +:+ key +:+ "'"))
  end.

(** The check query and [fetchone]: the first matching row, if any. *)
Definition select_existing (lead_id : Z) : DbM (option GeoRow) :=
  db_call (EvSelect lead_id)
    (λ w, (head (filter (λ g, g_id g = lead_id ∧ g_type g = "lead") (visible w)), w)).

Definition insert_row (row : GeoRow) : DbM unit :=
  db_call (EvInsert row) (λ w, ((), set_pending (pending w ++ [row]) w)).

Definition commit : DbM unit := db_call EvCommit (λ w, ((), commit_pending w)).

Definition rollback : DbM unit := db_call EvRollback (λ w, ((), set_pending [] w)).

Definition save_geolocation (lead_id : Z) (geo_data : gmap string Json) : DbM bool :=
  try_except
    (existing ← select_existing lead_id;
     match existing with
     | Some _ => mret false
     | None =>
         latitude ← lift (dict_index geo_data "latitude");
         longitude ← lift (dict_index geo_data "longitude");
         _ ← insert_row (mkGeoRow lead_id latitude longitude "lead");
         _ ← commit;
         mret true
     end)
    (λ e, _ ← rollback; mret false).

(** ** process_leads *)

(** The dicts appended to [results]. *)
Inductive Entry :=
| EntrySuccess (lead_id : Z) (latitude longitude formatted_address : Json)
| EntrySkipped (lead_id : Z) (reason : string)
| EntryFailed (lead_id : Z) (error message : Json).

Definition entry_id (e : Entry) : Z :=
  match e with
  | EntrySuccess i _ _ _ => i
  | EntrySkipped i _ => i
  | EntryFailed i _ _ => i
  end.

(** [l[:n]] *)
Definition slice_to {A} (l : list A) (n : Z) : list A :=
  if bool_decide (0 ≤ n) then take (Z.to_nat n) l
  else take (length l - Z.to_nat (- n)) l.

(** Truth value of an optional string, as [all] sees it. *)
Definition setting_truthy (s : option string) : bool :=
  match s with
  | Some x => negb (bool_decide (x = ""))
  | None => false
  end.

Definition geocode (env : Geolocation.Env) (address : string)
    : DbM (gmap string Json) :=
  mkDbM (λ w, (Return (get_geolocation env address), add_log (EvGeocode address) w)).

(** One turn of the loop for the lead at position [idx] (from 1) out of
    [total]. *)
Definition process_lead (env : Geolocation.Env) (total idx : nat) (lead : LeadRow)
    (results : list Entry) : DbM (list Entry) :=
  let lead_id := l_id lead in
  address ← lift (build_address_string (lead_dict lead));
  geo_data ← geocode env address;
  results ←
    (if negb (bool_decide (geo_data = ∅)) && bool_decide (is_Some (geo_data !! "latitude"))
     then
       _ ← lift (dict_index geo_data "latitude");
       _ ← lift (dict_index geo_data "longitude");
       _ ← lift (dict_index geo_data "formatted_address");
       saved ← save_geolocation lead_id geo_data;
       if saved : bool then
         latitude ← lift (dict_index geo_data "latitude");
         longitude ← lift (dict_index geo_data "longitude");
         formatted_address ← lift (dict_index geo_data "formatted_address");
         mret (results ++ [EntrySuccess lead_id latitude longitude formatted_address])
       else
         mret (results ++ [EntrySkipped lead_id "Already exists in database"])
     else
       mret (results ++ [EntryFailed lead_id
                           (default (JStr "Unknown") (geo_data !! "error"))
                           (default (JStr "N/A") (geo_data !! "message"))]));
  _ ← (if bool_decide (idx < total)%nat then tell EvSleep else mret ());
  mret results.

Fixpoint process_loop (env : Geolocation.Env) (total idx : nat) (leads : list LeadRow)
    (results : list Entry) : DbM (list Entry) :=
  match leads with
  | [] => mret results
  | lead :: rest =>
      results ← process_lead env total idx lead results;
      process_loop env total (S idx) rest results
  end.

(** A new connection has no transaction in progress, and closing one
    discards what it has not committed. *)
Definition connect : DbM unit := db_call EvDbConnect (λ w, ((), set_pending [] w)).

Definition close : DbM unit := db_call EvClose (λ w, ((), set_pending [] w)).

(** [host] is [PG_CONFIG['host']]; the API key is that of [env]. The
    result is [None] where the function returns nothing. [conn] is set
    only when [connect] returns, so the [finally] clause closes exactly the
    connections that were opened; the handlers of the [try] print and fall
    through. *)
Definition process_leads (env : Geolocation.Env) (host : option string)
    (limit : option Z) : DbM (option (list Entry)) :=
  if negb (setting_truthy host && setting_truthy (GOOGLE_API_KEY env))
  then mret None
  else
    mkDbM (λ w,
      match run_db connect w with
      | (Raise e, w') => (Return None, w')
      | (Return _, w') =>
          run_db
            (try_finally
               (try_except
                  (all_leads ← get_leads_without_geolocation;
                   let leads :=
                     match limit with
                     | Some n => if bool_decide (n = 0) then all_leads
                                 else slice_to all_leads n
                     | None => all_leads
                     end in
                   match leads with
                   | [] => mret None
                   | _ =>
                       results ← process_loop env (length leads) 1 leads [];
                       mret (Some results)
                   end)
                  (λ e, mret None))
               close)
            w'
      end).

(** ** Vocabulary of the statements *)

(** The string a text column contributes to the address, if any. *)
Definition text_part (v : SqlVal) : list string :=
  match v with
  | SText s => if bool_decide (s = "") then [] else [s]
  | _ => []
  end.

Definition pin_part (v : SqlVal) : list string :=
  if sql_truthy v then [sql_str v] else [].

Definition address_texts (lead : gmap string SqlVal) : list string :=
  text_part (lead_get lead "address") ++ text_part (lead_get lead "city")
  ++ text_part (lead_get lead "state") ++ pin_part (lead_get lead "pincode")
  ++ ["India"].

(** A non-zero integer where [join] needs a string. *)
Definition wrong_type (v : SqlVal) : Prop := ∃ n, v = SInt n ∧ n ≠ 0.

#[global] Instance wrong_type_dec v : Decision (wrong_type v).
Proof.
  unfold wrong_type. destruct v as [|n|s].
  - right. intros (n & H & _). discriminate.
  - destruct (decide (n = 0)) as [->|Hn].
    + right. intros (m & [= <-] & Hm). by destruct Hm.
    + left. by exists n.
  - right. intros (n & H & _). discriminate.
Defined.

(** The connection sees a geolocation row of type 'lead' for this id. *)
Definition has_geolocation (w : World) (lead_id : Z) : Prop :=
  Exists (λ g, g_id g = lead_id ∧ g_type g = "lead") (visible w).

#[global] Instance has_geolocation_dec w i : Decision (has_geolocation w i).
Proof. unfold has_geolocation. apply _. Defined.

(** The ids of the rows of type 'lead' the connection sees. *)
Definition lead_ids (w : World) : list Z :=
  g_id <$> filter (λ g, g_type g = "lead") (visible w).

(** The row a success entry stands for. *)
Definition entry_row (e : Entry) : option GeoRow :=
  match e with
  | EntrySuccess i latitude longitude _ => Some (mkGeoRow i latitude longitude "lead")
  | _ => None
  end.

(** What an entry says about the dict that [get_geolocation] returned. *)
Definition geo_matches (geo_data : gmap string Json) (e : Entry) : Prop :=
  match e with
  | EntrySuccess _ latitude longitude formatted_address =>
      geo_data !! "latitude" = Some latitude
      ∧ geo_data !! "longitude" = Some longitude
      ∧ geo_data !! "formatted_address" = Some formatted_address
  | EntrySkipped _ reason =>
      is_Some (geo_data !! "latitude") ∧ reason = "Already exists in database"
  | EntryFailed _ error message =>
      geo_data !! "latitude" = None
      ∧ error = default (JStr "Unknown") (geo_data !! "error")
      ∧ message = default (JStr "N/A") (geo_data !! "message")
  end.

(** What an entry says about its lead: the id, and the outcome of
    geocoding the address built from the lead. *)
Definition entry_matches (env : Geolocation.Env) (lead : LeadRow) (e : Entry) : Prop :=
  entry_id e = l_id lead
  ∧ ∃ address,
      build_address_string (lead_dict lead) = Return address
      ∧ geo_matches (get_geolocation env address) e.

(** A row of type 'lead' for one of these leads. *)
Definition row_of_leads (leads : list LeadRow) (g : GeoRow) : Prop :=
  g_type g = "lead" ∧ g_id g ∈ (l_id <$> leads).

(** The leads [process_leads] goes through for a limit. *)
Definition selected (limit : option Z) (all_leads : list LeadRow) : list LeadRow :=
  match limit with
  | Some n => if bool_decide (n = 0) then all_leads else slice_to all_leads n
  | None => all_leads
  end.

(** The calls [save_geolocation] can make. *)
Definition is_statement (ev : Ev) : bool :=
  match ev with
  | EvSelect _ | EvInsert _ | EvCommit | EvRollback => true
  | _ => false
  end.

Definition is_sleep (ev : Ev) : bool := match ev with EvSleep => true | _ => false end.

Definition geocoded (ev : Ev) : option string :=
  match ev with EvGeocode a => Some a | _ => None end.

Definition is_session (ev : Ev) : bool :=
  match ev with EvDbConnect | EvClose => true | _ => false end.

(** The address [build_address_string] returns for a lead. *)
Definition builds_address (lead : LeadRow) (address : string) : Prop :=
  build_address_string (lead_dict lead) = Return address.

(** The leads a run goes through: those a new connection selects, cut to
    the limit. *)
Definition run_leads (limit : option Z) (w : World) : list LeadRow :=
  selected limit (leads_query (set_pending [] w)).

(** No number in the address, city or state column. *)
Definition text_columns (l : LeadRow) : Prop :=
  ¬ wrong_type (l_address l) ∧ ¬ wrong_type (l_city l) ∧ ¬ wrong_type (l_state l).

End Leads.


(** ** Concrete environments used to run the definitions *)

Module Examples.
Import VmTrigger.

Definition refused : Exc + Z := inl (mkExc OtherException "Connection refused").

(** A Linux host on which port 80 of 10.0.0.1 is open, only
    https://10.0.0.2:8080 answers (with 200), every ping exits with
    status 0 and the webhook answers 503. *)
Definition env_demo : Env :=
  mkEnv "Linux"
    (λ a p _, if bool_decide (a = "10.0.0.1" ∧ p = 80) then inr 0 else inr 111)
    (λ url, if bool_decide (url = "https://10.0.0.2:8080") then inr 200 else refused)
    (λ _ _, inr 0)
    (λ _ _, inr 503)
    1700000000
    (λ _, "2023-11-14 22:13:20")
    "Tue Nov 14 22:13:20 2023".

(** The webhook host cannot be reached: [requests.post] raises a
    [ConnectionError], which is a [RequestException]. *)
Definition env_offline : Env :=
  with_requests_post env_demo
    (λ _ _, inl (mkExc RequestException
                   "HTTPSConnectionPool(host='hooks.slack.example', port=443): Max retries exceeded")).

(** The CA bundle is missing: [requests.post] raises an [OSError], which
    is not a [RequestException]. *)
Definition env_no_ca_bundle : Env :=
  with_requests_post env_demo
    (λ _ _, inl (mkExc OtherException
                   "Could not find a suitable TLS CA certificate bundle, invalid path: /etc/ssl/cert.pem")).

Definition cfg_demo : Config :=
  mkConfig "https://hooks.slack.example/T000"
    {[ "A" := "10.0.0.1"; "B" := "10.0.0.3" ]}
    [22; 80; 443].


(** A task that fails for target "B" and reports everything else UP. *)
Definition task_demo (vm_name ip_addr : string) : Exc + CheckResult :=
  if bool_decide (vm_name = "B")
  then inl (mkExc OtherException "boom")
  else inr (mkResult vm_name ip_addr "UP" "TCP Port 80" 1700000000).

(** Probes with fixed answers. *)
Definition probes_fixed (p : bool * option Z) (h : bool * option string) (i : bool)
    : ProbeSet :=
  mkProbes (λ a, mkM p [EvConnect a 22 2])
           (λ a, mkM h [EvGet a 3])
           (λ a, mkM i [EvPlatform]).

(** Twelve targets whose checks all fail. *)
Definition cfg_twelve : Config :=
  mkConfig "https://hooks.slack.example/T000"
    (list_to_map ((λ n : nat, ("vm" +:+ pretty n, "10.0.1." +:+ pretty n)) <$> seq 1 12))
    [22].

Definition task_all_fail (vm_name ip_addr : string) : Exc + CheckResult :=
  inl (mkExc OtherException "boom").

(** A geocoding answer with one result. *)
Definition geo_first : gmap string Geolocation.Json :=
  {[ "geometry" := Geolocation.JObj
       {[ "location" := Geolocation.JObj
            {[ "lat" := Geolocation.JNum (QArith_base.Qmake 129716 10000);
               "lng" := Geolocation.JNum (QArith_base.Qmake 775946 10000) ]} ]};
     "formatted_address" := Geolocation.JStr "Bengaluru, Karnataka, India";
     "place_id" := Geolocation.JStr "ChIJbU60yXAWrjsR4E9-UejD3_g" ]}.

Definition geo_answer : gmap string Geolocation.Json :=
  {[ "status" := Geolocation.JStr "OK";
     "results" := Geolocation.JArr [Geolocation.JObj geo_first] ]}.

Definition geo_env : Geolocation.Env :=
  Geolocation.mkEnv (Some "key")
    (λ _ _ _, Geolocation.Return
       (Geolocation.mkResponse 200 "" (Geolocation.Return (Geolocation.JObj geo_answer)))).

(** An 'OK' answer whose only result carries nothing. *)
Definition geo_env_bare : Geolocation.Env :=
  Geolocation.mkEnv (Some "key")
    (λ _ _ _, Geolocation.Return
       (Geolocation.mkResponse 200 ""
          (Geolocation.Return
             (Geolocation.JObj
                {[ "status" := Geolocation.JStr "OK";
                   "results" := Geolocation.JArr [Geolocation.JObj ∅] ]})))).

(** Rows of the two tables. *)
Definition lead_a : Leads.LeadRow :=
  Leads.mkLeadRow 1 (Leads.SText "Acme") (Leads.SText "12 MG Road") (Leads.SInt 560001)
    (Leads.SText "Karnataka") (Leads.SText "Bengaluru") (Leads.SText "new").

(** No address, an empty state and the pin code 0. *)
Definition lead_b : Leads.LeadRow :=
  Leads.mkLeadRow 2 (Leads.SText "Bolt") Leads.SNull (Leads.SInt 0)
    (Leads.SText "") Leads.SNull (Leads.SText "won").

(** No stage. *)
Definition lead_c : Leads.LeadRow :=
  Leads.mkLeadRow 3 (Leads.SText "Core") (Leads.SText "x") Leads.SNull
    Leads.SNull Leads.SNull Leads.SNull.

(** A number in the address column. *)
Definition lead_d : Leads.LeadRow :=
  Leads.mkLeadRow 4 (Leads.SText "Dyn") (Leads.SInt 7) Leads.SNull
    Leads.SNull Leads.SNull (Leads.SText "new").

Definition world_demo : Leads.World :=
  Leads.mkWorld [lead_a; lead_b; lead_c]
    [Leads.mkGeoRow 2 Geolocation.JNull Geolocation.JNull "customer"] [] [] [].

(** The geocoding API answering ZERO_RESULTS. *)
Definition geo_env_zero : Geolocation.Env :=
  Geolocation.mkEnv (Some "key")
    (λ _ _ _, Geolocation.Return
       (Geolocation.mkResponse 200 ""
          (Geolocation.Return
             (Geolocation.JObj
                {[ "status" := Geolocation.JStr "ZERO_RESULTS";
                   "results" := Geolocation.JArr [] ]})))).

(** The geocoding API refusing the key. *)
Definition geo_env_denied : Geolocation.Env :=
  Geolocation.mkEnv (Some "key")
    (λ _ _ _, Geolocation.Return
       (Geolocation.mkResponse 403 "403 Client Error: Forbidden for url"
          (Geolocation.Return (Geolocation.JObj ∅)))).

(** A database whose next call fails. *)
Definition world_faulty : Leads.World :=
  Leads.mkWorld [lead_a] [] [] [Some "server closed the connection unexpectedly"] [].

End Examples.


(** * Properties of the health check *)

Module VmTriggerSpec.
Import VmTrigger.

Lemma value_bind {A B} (m : M A) (k : A → M B) :
  value (m ≫= k) = value (k (value m)).
Proof. reflexivity. Qed.

Lemma trace_bind {A B} (m : M A) (k : A → M B) :
  trace (m ≫= k) = (trace m ++ trace (k (value m)))%list.
Proof. reflexivity. Qed.

Lemma M_eq {A} (m1 m2 : M A) :
  value m1 = value m2 → trace m1 = trace m2 → m1 = m2.
Proof. destruct m1, m2; simpl; intros -> ->; reflexivity. Qed.

(** *** The port probe *)

Lemma check_tcp_port_spec env a p t :
  check_tcp_port env a p t
  = mkM (bool_decide (socket_connect_ex env a p t = inr 0)) [EvConnect a p t].
Proof.
  unfold check_tcp_port, connect_ex.
  destruct (socket_connect_ex env a p t) as [e|c] eqn:E; apply M_eq; simpl; try done.
  apply bool_decide_ext. split; congruence.
Qed.

(** A connection error and a non-zero [connect_ex] value both read as
    "closed". *)
Lemma check_tcp_port_closed env a p t :
  socket_connect_ex env a p t ≠ inr 0 → value (check_tcp_port env a p t) = false.
Proof. intros H. rewrite check_tcp_port_spec. simpl. by apply bool_decide_eq_false_2. Qed.

Lemma check_any_port_open_cons env a p rest :
  check_any_port_open env a (p :: rest)
  = check_tcp_port env a p 2 ≫= λ is_open : bool,
      if is_open then mret (true, Some p) else check_any_port_open env a rest.
Proof. reflexivity. Qed.

Lemma check_any_port_open_hit env a p rest :
  accepts env a p →
  check_any_port_open env a (p :: rest) = mkM (true, Some p) [EvConnect a p 2].
Proof.
  intros H. rewrite check_any_port_open_cons, check_tcp_port_spec.
  apply M_eq; cbn [value trace mbind M_bind]; by rewrite bool_decide_eq_true_2.
Qed.

Lemma check_any_port_open_miss env a p rest :
  ¬ accepts env a p →
  check_any_port_open env a (p :: rest)
  = mkM (value (check_any_port_open env a rest))
        (EvConnect a p 2 :: trace (check_any_port_open env a rest)).
Proof.
  intros H. rewrite check_any_port_open_cons, check_tcp_port_spec.
  apply M_eq; cbn [value trace mbind M_bind]; by rewrite bool_decide_eq_false_2.
Qed.

(** C8. For every address and every ordered port list, the port probe
    returns success with the first port of the list that accepts a
    connection, having tried exactly the ports up to that one, and returns
    failure when no port accepts; an attempt that raises and an attempt
    with a non-zero result are both read as a closed port, and the probe
    itself always returns a pair. *)
Theorem port_probe_first_open (env : Env) (a : string) (ports : list Z) :
  (∀ pre p post,
     ports = (pre ++ p :: post)%list →
     Forall (λ q, ¬ accepts env a q) pre →
     accepts env a p →
     check_any_port_open env a ports = mkM (true, Some p) (connects a (pre ++ [p])))
  ∧ (Forall (λ q, ¬ accepts env a q) ports →
     check_any_port_open env a ports = mkM (false, None) (connects a ports))
  ∧ (∀ p t, socket_connect_ex env a p t ≠ inr 0 →
     value (check_tcp_port env a p t) = false).
Proof.
  split; [|split].
  - intros pre. revert ports.
    induction pre as [|q pre IH]; intros ports p post -> Hpre Hp.
    + by apply check_any_port_open_hit.
    + apply Forall_cons in Hpre as [Hq Hpre].
      rewrite <- app_comm_cons, check_any_port_open_miss by done.
      by rewrite (IH _ p post eq_refl Hpre Hp).
  - induction ports as [|q ports IH]; intros Hall; [done|].
    apply Forall_cons in Hall as [Hq Hall].
    rewrite check_any_port_open_miss by done. by rewrite IH.
  - intros p t. apply check_tcp_port_closed.
Qed.

Lemma port_probe_first_open_witness :
  check_any_port_open Examples.env_demo "10.0.0.1" [22; 80; 443]
  = mkM (true, Some 80) [EvConnect "10.0.0.1" 22 2; EvConnect "10.0.0.1" 80 2].
Proof.
  apply (proj1 (port_probe_first_open Examples.env_demo "10.0.0.1" [22; 80; 443])
           [22] 80 [443]).
  - reflexivity.
  - repeat constructor. vm_compute. discriminate.
  - vm_compute. reflexivity.
Defined.

(** *** The HTTP probe *)

Lemma http_try_ports_cons env a proto port rest :
  http_try_ports env a proto (port :: rest)
  = http_get env (http_url proto a port) 3 ≫= λ r,
      match r with
      | inr status_code =>
          if bool_decide (status_code < 500)
          then mret (Some (http_service proto port))
          else http_try_ports env a proto rest
      | inl _ => http_try_ports env a proto rest
      end.
Proof. reflexivity. Qed.

Lemma http_try_ports_hit env a proto port rest :
  responds env a (proto, port) →
  http_try_ports env a proto (port :: rest)
  = mkM (Some (http_service proto port)) [EvGet (http_url proto a port) 3].
Proof.
  intros (code & Hget & Hlt). simpl in Hget.
  rewrite http_try_ports_cons. unfold http_get. rewrite Hget.
  apply M_eq; cbn [value trace mbind M_bind]; by rewrite bool_decide_eq_true_2.
Qed.

Lemma http_try_ports_miss env a proto port rest :
  ¬ responds env a (proto, port) →
  http_try_ports env a proto (port :: rest)
  = mkM (value (http_try_ports env a proto rest))
        (EvGet (http_url proto a port) 3 :: trace (http_try_ports env a proto rest)).
Proof.
  intros Hno. rewrite http_try_ports_cons. unfold http_get.
  destruct (requests_get env (http_url proto a port)) as [e|code] eqn:Hget.
  - by apply M_eq.
  - assert (¬ code < 500) as Hge.
    { intros Hlt. apply Hno. by exists code. }
    apply M_eq; cbn [value trace mbind M_bind]; by rewrite bool_decide_eq_false_2.
Qed.

Lemma http_try_ports_none env a proto ports :
  Forall (λ q, ¬ responds env a (proto, q)) ports →
  http_try_ports env a proto ports = mkM None (gets a (pair proto <$> ports)).
Proof.
  induction ports as [|q ports IH]; intros Hall; [done|].
  apply Forall_cons in Hall as [Hq Hall].
  rewrite http_try_ports_miss by done. by rewrite IH.
Qed.

Lemma http_try_ports_first env a proto pre port post :
  Forall (λ q, ¬ responds env a (proto, q)) pre →
  responds env a (proto, port) →
  http_try_ports env a proto (pre ++ port :: post)
  = mkM (Some (http_service proto port)) (gets a (pair proto <$> (pre ++ [port]))).
Proof.
  induction pre as [|q pre IH]; intros Hpre Hport.
  - by apply http_try_ports_hit.
  - apply Forall_cons in Hpre as [Hq Hpre].
    rewrite <- app_comm_cons, http_try_ports_miss by done. by rewrite IH.
Qed.

Lemma no_response_pairs env a proto (ports : list Z) :
  Forall (λ q, ¬ responds env a q) (pair proto <$> ports) →
  Forall (λ q, ¬ responds env a (proto, q)) ports.
Proof.
  induction ports as [|q ports IH]; intros H; [constructor|].
  apply Forall_cons in H as [Hq H]. constructor; [exact Hq | by apply IH].
Qed.

Lemma http_try_protocols_cons env a proto rest :
  http_try_protocols env a (proto :: rest)
  = http_try_ports env a proto http_ports ≫= λ r,
      match r with
      | Some service => mret (true, Some service)
      | None => http_try_protocols env a rest
      end.
Proof. reflexivity. Qed.

Lemma pairs_of_cons proto rest :
  pairs_of (proto :: rest) = ((pair proto <$> http_ports) ++ pairs_of rest)%list.
Proof. reflexivity. Qed.

Lemma tried_pairs_eq : tried_pairs = pairs_of http_protocols.
Proof. reflexivity. Qed.

Lemma http_try_protocols_none env a protos :
  Forall (λ q, ¬ responds env a q) (pairs_of protos) →
  http_try_protocols env a protos = mkM (false, None) (gets a (pairs_of protos)).
Proof.
  induction protos as [|proto protos IH]; intros Hall; [done|].
  rewrite pairs_of_cons in Hall. apply Forall_app in Hall as [Hin Hrest].
  rewrite http_try_protocols_cons, http_try_ports_none.
  - rewrite (IH Hrest), pairs_of_cons. unfold gets. rewrite fmap_app. by apply M_eq.
  - by apply no_response_pairs.
Qed.

Lemma http_try_protocols_first env a protos pre pr post :
  pairs_of protos = (pre ++ pr :: post)%list →
  Forall (λ q, ¬ responds env a q) pre →
  responds env a pr →
  http_try_protocols env a protos
  = mkM (true, Some (http_service pr.1 pr.2)) (gets a (pre ++ [pr])).
Proof.
  revert pre. induction protos as [|proto protos IH]; intros pre Hsplit Hpre Hpr.
  { by destruct pre. }
  rewrite pairs_of_cons in Hsplit. rewrite http_try_protocols_cons.
  apply app_eq_app in Hsplit as [mid [[Hl Hr]|[Hl Hr]]].
  - destruct mid as [|x mid].
    + (* the hit is the first pair of the next protocol *)
      rewrite app_nil_r in Hl. simpl in Hr. subst pre.
      rewrite http_try_ports_none by (by apply no_response_pairs).
      rewrite (IH [] (eq_sym Hr) (Forall_nil_2 _) Hpr). unfold gets.
      rewrite fmap_app. by apply M_eq.
    + (* the hit is a pair of this protocol *)
      rewrite <- app_comm_cons in Hr. injection Hr as <- _.
      apply fmap_app_inv in Hl as (pre' & tl & -> & Htl & Hports).
      symmetry in Htl. apply fmap_cons_inv in Htl as (port & post' & -> & -> & ->).
      rewrite Hports.
      rewrite http_try_ports_first; [|by apply no_response_pairs|done].
      apply M_eq; cbn [value trace mbind M_bind mret M_ret]; [done|].
      by rewrite app_nil_r, fmap_app.
  - (* every pair of this protocol lies before the hit *)
    subst pre. apply Forall_app in Hpre as [Hin Hmid].
    rewrite http_try_ports_none by (by apply no_response_pairs).
    rewrite (IH mid Hr Hmid Hpr).
    apply M_eq; cbn [value trace mbind M_bind mret M_ret]; [done|].
    unfold gets. by rewrite !fmap_app, app_assoc.
Qed.

(** C4 (as amended). For every address, the HTTP probe goes through the
    ten (scheme, port) pairs of http and https with the ports 80, 443,
    8080, 3000 and 8000, all http pairs first; a response with a status
    below 500 counts as service present; the probe returns success with
    the first pair that so responded, having requested exactly the pairs up
    to that one, and returns failure when each of the ten raises or answers
    with 500 or more. *)
Theorem http_probe_ten_pairs (env : Env) (a : string) :
  tried_pairs
  = [("http", 80); ("http", 443); ("http", 8080); ("http", 3000); ("http", 8000);
     ("https", 80); ("https", 443); ("https", 8080); ("https", 3000); ("https", 8000)]
  ∧ (∀ pre pr post,
       tried_pairs = (pre ++ pr :: post)%list →
       Forall (λ q, ¬ responds env a q) pre →
       responds env a pr →
       check_http_service env a
       = mkM (true, Some (http_service pr.1 pr.2)) (gets a (pre ++ [pr])))
  ∧ (Forall (λ q, ¬ responds env a q) tried_pairs →
       check_http_service env a = mkM (false, None) (gets a tried_pairs)).
Proof.
  split; [reflexivity|]. split.
  - intros pre pr post Hsplit. rewrite tried_pairs_eq in Hsplit.
    by apply http_try_protocols_first with post.
  - rewrite tried_pairs_eq. apply http_try_protocols_none.
Qed.

Lemma http_probe_ten_pairs_witness :
  check_http_service Examples.env_demo "10.0.0.2"
  = mkM (true, Some "https:8080")
        (gets "10.0.0.2"
           [("http", 80); ("http", 443); ("http", 8080); ("http", 3000); ("http", 8000);
            ("https", 80); ("https", 443); ("https", 8080)]).
Proof.
  apply (proj1 (proj2 (http_probe_ten_pairs Examples.env_demo "10.0.0.2"))
           [("http", 80); ("http", 443); ("http", 8080); ("http", 3000); ("http", 8000);
            ("https", 80); ("https", 443)]
           ("https", 8080)
           [("https", 3000); ("https", 8000)]).
  - reflexivity.
  - repeat constructor; intros (c & H & _); vm_compute in H; discriminate.
  - exists 200. split; [vm_compute; reflexivity | lia].
Defined.

(** C4 (as written). The contract that names five pairs fails: on a host
    where only https on port 8080 answers, none of the five listed pairs
    responds and yet the probe reports success, after requests outside the
    list. *)
Lemma http_probe_not_five_pairs : ¬ five_pair_contract.
Proof.
  intros H. destruct (H Examples.env_demo "10.0.0.2") as (_ & _ & Hnone).
  assert (value (check_http_service Examples.env_demo "10.0.0.2") = (false, None)) as E.
  { apply Hnone. repeat constructor; intros (c & Hc & _); vm_compute in Hc; discriminate. }
  vm_compute in E. discriminate.
Qed.

(** *** The ICMP probe *)

Lemma check_vm_status_ping_spec env a :
  check_vm_status_ping env a
  = mkM false [EvPlatform; EvSubprocessRun (ping_command (platform_system env) a)].
Proof. reflexivity. Qed.

(** C5. The ICMP probe does not do what its contract says. The call to
    [subprocess.run] passes [capture_output=True] together with [stdout]
    and [stderr], which the library rejects before creating a process, and
    the bare [except] turns the rejection into [False]: on a host whose
    ping exits with status 0 the probe still returns failure, and no echo
    request is sent. *)
Theorem icmp_probe_fails_on_replying_host :
  os_exec Examples.env_demo (ping_command "Linux" "10.0.0.1") 10 = inr 0
  ∧ check_vm_status_ping Examples.env_demo "10.0.0.1"
    = mkM false [EvPlatform; EvSubprocessRun ["ping"; "-c"; "2"; "-W"; "3"; "10.0.0.1"]]
  ∧ (∀ env a cmd t, EvExec cmd t ∉ trace (check_vm_status_ping env a))
  ∧ ¬ icmp_contract.
Proof.
  split; [reflexivity|]. split; [reflexivity|]. split.
  - intros env a cmd t. rewrite check_vm_status_ping_spec. simpl.
    rewrite !elem_of_cons, elem_of_nil. intros [H|[H|[]]]; discriminate.
  - intros H. destruct (H Examples.env_demo "10.0.0.1") as [_ [_ Hback]].
    specialize (Hback eq_refl). rewrite check_vm_status_ping_spec in Hback.
    discriminate.
Qed.

(** *** The classifier *)

Section Classifier.
Context (P : ProbeSet) (a : string).

Lemma classifier_port_case :
  (value (port_probe P a)).1 = true →
  comprehensive_server_check_with P a
  = mkM ("UP", "TCP Port " +:+ fmt_opt pretty (value (port_probe P a)).2)
        (trace (port_probe P a)).
Proof.
  unfold comprehensive_server_check_with. intros Hp.
  destruct (port_probe P a) as [[ok port] t]; simpl in *; subst ok.
  apply M_eq; simpl; [done | by rewrite app_nil_r].
Qed.

Lemma classifier_http_case :
  (value (port_probe P a)).1 = false →
  (value (http_probe P a)).1 = true →
  comprehensive_server_check_with P a
  = mkM ("UP", "HTTP " +:+ fmt_opt id (value (http_probe P a)).2)
        (trace (port_probe P a) ++ trace (http_probe P a)).
Proof.
  unfold comprehensive_server_check_with. intros Hp Hh.
  destruct (port_probe P a) as [[ok port] t]; simpl in *; subst ok.
  destruct (http_probe P a) as [[ok service] t']; simpl in *; subst ok.
  apply M_eq; simpl; [done | by rewrite app_nil_r].
Qed.

Lemma classifier_icmp_case :
  (value (port_probe P a)).1 = false →
  (value (http_probe P a)).1 = false →
  comprehensive_server_check_with P a
  = mkM (if value (icmp_probe P a)
         then ("UP", "ICMP Ping") else ("DOWN", "All checks failed"))
        (trace (port_probe P a) ++ trace (http_probe P a) ++ trace (icmp_probe P a)).
Proof.
  unfold comprehensive_server_check_with. intros Hp Hh.
  destruct (port_probe P a) as [[ok port] t]; simpl in *; subst ok.
  destruct (http_probe P a) as [[ok service] t']; simpl in *; subst ok.
  destruct (icmp_probe P a) as [[] t'']; apply M_eq; simpl;
    try done; by rewrite app_nil_r.
Qed.

End Classifier.

(** With the probes of this file the ICMP branch is never the one that
    answers: the classifier is "UP" through a port or through HTTP, or
    it is "DOWN". *)
Lemma comprehensive_server_check_without_icmp env cfg a :
  let p := check_any_port_open env a (COMMON_PORTS cfg) in
  let h := check_http_service env a in
  value (comprehensive_server_check env cfg a)
  = if (value p).1 then ("UP", "TCP Port " +:+ fmt_opt pretty (value p).2)
    else if (value h).1 then ("UP", "HTTP " +:+ fmt_opt id (value h).2)
    else ("DOWN", "All checks failed").
Proof.
  cbn zeta. unfold comprehensive_server_check.
  destruct ((value (check_any_port_open env a (COMMON_PORTS cfg))).1) eqn:Hp.
  { by rewrite classifier_port_case. }
  destruct ((value (check_http_service env a)).1) eqn:Hh.
  { by rewrite classifier_http_case. }
  by rewrite classifier_icmp_case.
Qed.

(** C1. For every address the classifier runs the port probe, then the
    HTTP probe, then the ICMP probe, and stops at the first that succeeds:
    the calls it makes are those of the probes up to and including the
    first successful one, in that order, and the result is "UP" with the
    description of that probe ("TCP Port p", "HTTP scheme:port" or
    "ICMP Ping"); whenever any of the three succeeds the status is "UP". *)
Theorem classifier_first_success (P : ProbeSet) (a : string) :
  let p := port_probe P a in
  let h := http_probe P a in
  let i := icmp_probe P a in
  let r := comprehensive_server_check_with P a in
  ((value p).1 = true →
     r = mkM ("UP", "TCP Port " +:+ fmt_opt pretty (value p).2) (trace p))
  ∧ ((value p).1 = false → (value h).1 = true →
     r = mkM ("UP", "HTTP " +:+ fmt_opt id (value h).2) (trace p ++ trace h))
  ∧ ((value p).1 = false → (value h).1 = false → value i = true →
     r = mkM ("UP", "ICMP Ping") (trace p ++ trace h ++ trace i))
  ∧ ((value p).1 = true ∨ (value h).1 = true ∨ value i = true →
     (value r).1 = "UP").
Proof.
  intros p h i r. subst p h i r. repeat split.
  - apply classifier_port_case.
  - apply classifier_http_case.
  - intros Hp Hh Hi. rewrite classifier_icmp_case by done. by rewrite Hi.
  - intros Hany.
    destruct ((value (port_probe P a)).1) eqn:Hp.
    { by rewrite classifier_port_case. }
    destruct ((value (http_probe P a)).1) eqn:Hh.
    { by rewrite classifier_http_case. }
    rewrite classifier_icmp_case by done.
    destruct Hany as [?|[?|Hi]]; try done. by rewrite Hi.
Qed.

Lemma classifier_first_success_witness :
  comprehensive_server_check_with
    (Examples.probes_fixed (false, None) (true, Some "https:443") true) "10.0.0.9"
  = mkM ("UP", "HTTP https:443") [EvConnect "10.0.0.9" 22 2; EvGet "10.0.0.9" 3].
Proof.
  apply (proj1 (proj2 (classifier_first_success
           (Examples.probes_fixed (false, None) (true, Some "https:443") true)
           "10.0.0.9"))); reflexivity.
Defined.

(** C2. For every address on which the port probe, the HTTP probe and the
    ICMP probe all fail, the classifier returns exactly
    ("DOWN", "All checks failed"), after the calls of the three probes in
    that order. *)
Theorem classifier_all_failed (P : ProbeSet) (a : string) :
  (value (port_probe P a)).1 = false →
  (value (http_probe P a)).1 = false →
  value (icmp_probe P a) = false →
  comprehensive_server_check_with P a
  = mkM ("DOWN", "All checks failed")
        (trace (port_probe P a) ++ trace (http_probe P a) ++ trace (icmp_probe P a)).
Proof.
  intros Hp Hh Hi. rewrite classifier_icmp_case by done. by rewrite Hi.
Qed.

Lemma classifier_all_failed_witness :
  value (comprehensive_server_check Examples.env_demo Examples.cfg_demo "10.0.0.3")
  = ("DOWN", "All checks failed").
Proof.
  unfold comprehensive_server_check.
  rewrite (classifier_all_failed (probes Examples.env_demo Examples.cfg_demo) "10.0.0.3");
    reflexivity.
Defined.

(** *** Alerts *)

Lemma posted_app t1 t2 : posted (t1 ++ t2) = posted t1 ++ posted t2.
Proof. apply omap_app. Qed.

Lemma posted_print line : posted (trace (print line)) = [].
Proof. reflexivity. Qed.

Lemma send_slack_notification_posted env cfg vm addr st m :
  posted (trace (send_slack_notification env cfg vm addr st m))
  = [alert_payload env vm addr st m].
Proof.
  unfold send_slack_notification, post.
  destruct (requests_post env _ _) as [e|code]; cbn [trace value mbind M_bind].
  - by destruct (exc_class e).
  - destruct (bool_decide (code = 200)); reflexivity.
Qed.

Lemma send_slack_notification_failed env cfg vm addr st m code :
  requests_post env (SLACK_WEBHOOK_URL cfg) (alert_payload env vm addr st m) = inr code →
  code ≠ 200 →
  send_slack_notification env cfg vm addr st m
  = mkM (inr false)
        [EvPost (SLACK_WEBHOOK_URL cfg) (alert_payload env vm addr st m);
         EvPrint ("   ❌ Slack notification failed. Status: " +:+ pretty code)].
Proof.
  intros Hpost Hcode. unfold send_slack_notification, post. rewrite Hpost.
  cbn [trace value mbind M_bind]. by rewrite bool_decide_eq_false_2.
Qed.

Lemma send_slack_notification_error env cfg vm addr st m e :
  requests_post env (SLACK_WEBHOOK_URL cfg) (alert_payload env vm addr st m) = inl e →
  exc_class e = RequestException →
  send_slack_notification env cfg vm addr st m
  = mkM (inr false)
        [EvPost (SLACK_WEBHOOK_URL cfg) (alert_payload env vm addr st m);
         EvPrint ("   ❌ Error sending Slack notification: " +:+ exc_str e)].
Proof.
  intros Hpost Hclass. unfold send_slack_notification, post. rewrite Hpost.
  cbn [trace value mbind M_bind]. by rewrite Hclass.
Qed.

Lemma send_slack_notification_escapes env cfg vm addr st m e :
  requests_post env (SLACK_WEBHOOK_URL cfg) (alert_payload env vm addr st m) = inl e →
  exc_class e = OtherException →
  send_slack_notification env cfg vm addr st m
  = mkM (inl e) [EvPost (SLACK_WEBHOOK_URL cfg) (alert_payload env vm addr st m)].
Proof.
  intros Hpost Hclass. unfold send_slack_notification, post. rewrite Hpost.
  cbn [trace value mbind M_bind]. by rewrite Hclass.
Qed.

Lemma send_slack_notification_returns env cfg vm addr st m :
  raises_only_request_exceptions env →
  ∃ sent : bool, value (send_slack_notification env cfg vm addr st m) = inr sent.
Proof.
  intros Hro. unfold send_slack_notification, post.
  destruct (requests_post env _ _) as [e|code] eqn:Hpost; cbn [trace value mbind M_bind].
  - rewrite (Hro _ _ _ Hpost). by exists false.
  - destruct (bool_decide (code = 200)); by eexists.
Qed.

Lemma send_summary_notification_posted env cfg ds n :
  posted (trace (send_summary_notification env cfg ds n))
  = match ds with [] => [] | _ => [summary_payload env ds n] end.
Proof.
  destruct ds as [|d ds]; [reflexivity|].
  unfold send_summary_notification, post.
  destruct (requests_post env _ _) as [e|code]; cbn [trace value mbind M_bind].
  - by destruct (exc_class e).
  - destruct (bool_decide (code = 200)); reflexivity.
Qed.

Lemma send_summary_notification_returns env cfg ds n :
  raises_only_request_exceptions env →
  value (send_summary_notification env cfg ds n) = inr ().
Proof.
  intros Hro. destruct ds as [|d ds]; [reflexivity|].
  unfold send_summary_notification, post.
  destruct (requests_post env _ _) as [e|code] eqn:Hpost; cbn [trace value mbind M_bind].
  - by rewrite (Hro _ _ _ Hpost).
  - by destruct (bool_decide (code = 200)).
Qed.

Lemma print_down_servers_posted ds : posted (trace (print_down_servers ds)) = [].
Proof. induction ds as [|d ds IH]; [reflexivity|]. exact IH. Qed.

(** *** The collection loop *)

Lemma is_down_error_result env cfg vm e : is_down (error_result env cfg vm e).
Proof. unfold is_down. simpl. discriminate. Qed.

Lemma collect_cons env cfg f futs rs ds :
  raises_only_request_exceptions env →
  let r := outcome_result env cfg f in
  let ds' := if decide (is_down r) then ds ++ [r] else ds in
  value (collect env cfg (f :: futs) rs ds) = value (collect env cfg futs (rs ++ [r]) ds')
  ∧ posted (trace (collect env cfg (f :: futs) rs ds))
    = (if decide (is_down r) then [alert_of env r] else [])
      ++ posted (trace (collect env cfg futs (rs ++ [r]) ds')).
Proof.
  intros Hro. destruct f as [vm [e|res]]; cbn zeta; unfold outcome_result; cbn [fst snd].
  - rewrite decide_True by apply is_down_error_result.
    cbn [collect]. rewrite !value_bind, !trace_bind, !posted_app.
    destruct (send_slack_notification_returns env cfg vm (VMS_TO_MONITOR cfg !!! vm)
                "ERROR" (Some (exc_str e)) Hro) as [sent ->].
    rewrite send_slack_notification_posted. by split.
  - cbn [collect]. unfold is_down. destruct (decide (status res ≠ "UP")) as [Hd|Hu].
    + rewrite bool_decide_eq_true_2 by done.
      rewrite value_bind, trace_bind, posted_app, send_slack_notification_posted.
      destruct (send_slack_notification_returns env cfg (name res) (ip res)
                  (status res) (Some (method res)) Hro) as [sent ->].
      by split.
    + rewrite bool_decide_eq_false_2 by done. by split.
Qed.

Lemma collect_spec env cfg futs rs ds :
  raises_only_request_exceptions env →
  let out := outcome_result env cfg <$> futs in
  value (collect env cfg futs rs ds) = inr (rs ++ out, ds ++ filter is_down out)
  ∧ posted (trace (collect env cfg futs rs ds)) = alert_of env <$> filter is_down out.
Proof.
  intros Hro. revert rs ds. induction futs as [|f futs IH]; intros rs ds; cbn zeta.
  { split; [|reflexivity]. simpl. by rewrite !app_nil_r. }
  destruct (collect_cons env cfg f futs rs ds Hro) as [-> ->].
  destruct (IH (rs ++ [outcome_result env cfg f])
              (if decide (is_down (outcome_result env cfg f))
               then ds ++ [outcome_result env cfg f] else ds)) as [-> ->].
  rewrite fmap_cons, filter_cons.
  destruct (decide (is_down (outcome_result env cfg f))).
  - rewrite <- !app_assoc. by split.
  - rewrite <- !app_assoc. by split.
Qed.

Lemma main_with_spec env cfg task completed :
  raises_only_request_exceptions env →
  let out := outcome_result env cfg <$> futures_of task completed in
  value (main_with env cfg task completed) = inr (out, filter is_down out)
  ∧ posted (trace (main_with env cfg task completed))
    = (alert_of env <$> filter is_down out)
      ++ match filter is_down out with
         | [] => []
         | ds => [summary_payload env ds (length out)]
         end.
Proof.
  intros Hro. cbn zeta. unfold main_with. cbn zeta.
  destruct (collect_spec env cfg (futures_of task completed) [] [] Hro) as [Hv Ht].
  cbn zeta in Hv, Ht. rewrite !app_nil_l in Hv.
  set (out := outcome_result env cfg <$> futures_of task completed) in *.
  split.
  - rewrite !value_bind. rewrite Hv. cbv beta iota. rewrite !value_bind.
    destruct (filter is_down out) as [|d ds] eqn:Hds.
    + reflexivity.
    + rewrite !value_bind. rewrite bool_decide_eq_true_2 by (simpl; lia).
      by rewrite (send_summary_notification_returns env cfg _ _ Hro).
  - repeat (rewrite trace_bind, posted_app, ?posted_print; cbv beta).
    rewrite Hv, Ht. cbn [app]. f_equal. cbv beta iota.
    repeat (rewrite trace_bind, posted_app, ?posted_print; cbv beta). cbn [app].
    destruct (filter is_down out) as [|d ds] eqn:Hds.
    + repeat (rewrite ?trace_bind, ?posted_app, ?posted_print; cbv beta).
      reflexivity.
    + repeat (rewrite trace_bind, posted_app, ?posted_print; cbv beta).
      rewrite print_down_servers_posted. cbn [app].
      rewrite bool_decide_eq_true_2 by (simpl; lia).
      rewrite send_summary_notification_posted. rewrite !value_bind.
      rewrite (send_summary_notification_returns env cfg _ _ Hro). reflexivity.
Qed.

Lemma outcome_result_of_target env cfg task n addr :
  VMS_TO_MONITOR cfg !! n = Some addr →
  outcome_result env cfg (n, task n addr)
  = match task n addr with
    | inr r => r
    | inl e => mkResult n addr "ERROR" (exc_str e) (time_time env)
    end.
Proof.
  intros Hn. unfold outcome_result, error_result. cbn [fst snd].
  destruct (task n addr); [|done]. by rewrite (lookup_total_correct _ _ _ Hn).
Qed.

Lemma completed_lookup cfg completed n addr :
  completed ≡ₚ map_to_list (VMS_TO_MONITOR cfg) →
  (n, addr) ∈ completed ↔ VMS_TO_MONITOR cfg !! n = Some addr.
Proof. intros ->. apply elem_of_map_to_list. Qed.

Lemma results_of_targets env cfg task completed :
  completed ≡ₚ map_to_list (VMS_TO_MONITOR cfg) →
  outcome_result env cfg <$> futures_of task completed
  = (λ '(n, addr), match task n addr with
                   | inr r => r
                   | inl e => mkResult n addr "ERROR" (exc_str e) (time_time env)
                   end) <$> completed.
Proof.
  intros Hperm. unfold futures_of. rewrite <- list_fmap_compose.
  apply Forall_fmap_ext_1, Forall_forall. intros [n addr] Hin. cbn.
  apply outcome_result_of_target. by apply (completed_lookup cfg completed).
Qed.

Lemma results_length env cfg task completed :
  completed ≡ₚ map_to_list (VMS_TO_MONITOR cfg) →
  length (outcome_result env cfg <$> futures_of task completed)
  = size (VMS_TO_MONITOR cfg).
Proof.
  intros Hperm. unfold futures_of.
  by rewrite !length_fmap, Hperm, length_map_to_list.
Qed.

Lemma send_slack_notification_raise env cfg vm addr st m e :
  value (send_slack_notification env cfg vm addr st m) = inl e →
  requests_post env (SLACK_WEBHOOK_URL cfg) (alert_payload env vm addr st m) = inl e
  ∧ exc_class e = OtherException.
Proof.
  unfold send_slack_notification, post.
  destruct (requests_post env _ _) as [e'|code] eqn:Hpost; cbn [trace value mbind M_bind].
  - destruct (exc_class e') eqn:Hclass; [discriminate|]. by intros [= <-].
  - destruct (bool_decide (code = 200)); discriminate.
Qed.

Lemma send_summary_notification_raise env cfg ds n e :
  value (send_summary_notification env cfg ds n) = inl e →
  requests_post env (SLACK_WEBHOOK_URL cfg) (summary_payload env ds n) = inl e
  ∧ exc_class e = OtherException.
Proof.
  destruct ds as [|d ds]; [discriminate|].
  unfold send_summary_notification, post.
  destruct (requests_post env _ _) as [e'|code] eqn:Hpost; cbn [trace value mbind M_bind].
  - destruct (exc_class e') eqn:Hclass; [discriminate|]. by intros [= <-].
  - destruct (bool_decide (code = 200)); discriminate.
Qed.

(** The loop ends early only on an exception of the webhook call. *)
Lemma collect_raise env cfg futs : ∀ rs ds e,
  value (collect env cfg futs rs ds) = inl e →
  ∃ url data, requests_post env url data = inl e ∧ exc_class e = OtherException.
Proof.
  induction futs as [|[vm [e0|res]] futs IH]; intros rs ds e.
  - discriminate.
  - cbn [collect]. rewrite !value_bind.
    destruct (value (send_slack_notification env cfg vm _ "ERROR" _)) as [e1|sent] eqn:Hsend.
    + intros [= <-]. apply send_slack_notification_raise in Hsend as [? ?]. eauto.
    + apply IH.
  - cbn [collect]. destruct (bool_decide (status res ≠ "UP")); [|apply IH].
    rewrite !value_bind.
    destruct (value (send_slack_notification env cfg (name res) _ _ _)) as [e1|sent];
      [|apply IH].
    rewrite !value_bind.
    destruct (value (send_slack_notification env cfg vm _ "ERROR" _)) as [e2|sent] eqn:Hsend.
    + intros [= <-]. apply send_slack_notification_raise in Hsend as [? ?]. eauto.
    + apply IH.
Qed.

Lemma main_with_raise env cfg task completed e :
  value (main_with env cfg task completed) = inl e →
  ∃ url data, requests_post env url data = inl e ∧ exc_class e = OtherException.
Proof.
  unfold main_with. cbn zeta. rewrite !value_bind.
  destruct (value (collect env cfg (futures_of task completed) [] []))
    as [e1|[results down_servers]] eqn:Hcollect.
  - intros [= <-]. by apply (collect_raise env cfg _ _ _ _ Hcollect).
  - rewrite !value_bind. destruct down_servers as [|d ds]; [discriminate|].
    rewrite !value_bind. rewrite bool_decide_eq_true_2 by (simpl; lia).
    destruct (value (send_summary_notification env cfg (d :: ds) (length results)))
      as [e2|[]] eqn:Hsum; [|discriminate].
    intros [= <-]. apply send_summary_notification_raise in Hsum as [? ?]. eauto.
Qed.

(** C3 (as amended). A fault raised while checking a target is caught in
    the collection loop and becomes the result record of that target, with
    status "ERROR" and the failure message as method. When the webhook call
    raises nothing but [RequestException]s the run goes on: it returns, and
    the results hold exactly one record per target, in completion order, the
    record of every target whose check returned being the one its check
    returned. A run ends early only with an exception of another class
    raised by the webhook call. *)
Theorem fanout_isolates_faults (env : Env) (cfg : Config)
    (task : string → string → Exc + CheckResult)
    (completed : list (string * string)) :
  completed ≡ₚ map_to_list (VMS_TO_MONITOR cfg) →
  (raises_only_request_exceptions env →
   ∃ results down_servers,
     value (main_with env cfg task completed) = inr (results, down_servers)
     ∧ results = (λ '(n, addr), match task n addr with
                                | inr r => r
                                | inl e => mkResult n addr "ERROR" (exc_str e) (time_time env)
                                end) <$> completed
     ∧ length results = size (VMS_TO_MONITOR cfg)
     ∧ (∀ n addr e, VMS_TO_MONITOR cfg !! n = Some addr → task n addr = inl e →
          mkResult n addr "ERROR" (exc_str e) (time_time env) ∈ results)
     ∧ (∀ n addr r, VMS_TO_MONITOR cfg !! n = Some addr → task n addr = inr r →
          r ∈ results))
  ∧ (∀ e, value (main_with env cfg task completed) = inl e →
       exc_class e = OtherException ∧ ∃ url data, requests_post env url data = inl e).
Proof.
  intros Hperm. split.
  - intros Hro. destruct (main_with_spec env cfg task completed Hro) as [Hv _].
    cbn zeta in Hv. eexists _, _. split; [exact Hv|].
    split; [by apply results_of_targets|]. split; [by apply results_length|].
    rewrite results_of_targets by done.
    split; intros n addr x Hn Htask; apply list_elem_of_fmap;
      exists (n, addr); cbn; rewrite Htask;
      (split; [done | by apply (completed_lookup cfg completed)]).
  - intros e He. destruct (main_with_raise env cfg task completed e He)
      as (url & data & Hpost & Hclass). eauto.
Qed.

Lemma fanout_isolates_faults_witness :
  ∃ results down_servers,
    value (main_with Examples.env_offline Examples.cfg_demo Examples.task_demo
             (map_to_list (VMS_TO_MONITOR Examples.cfg_demo)))
    = inr (results, down_servers)
    ∧ mkResult "B" "10.0.0.3" "ERROR" "boom" 1700000000 ∈ results
    ∧ mkResult "A" "10.0.0.1" "UP" "TCP Port 80" 1700000000 ∈ results.
Proof.
  destruct (proj1 (fanout_isolates_faults Examples.env_offline Examples.cfg_demo
                     Examples.task_demo (map_to_list (VMS_TO_MONITOR Examples.cfg_demo))
                     (reflexivity _)))
    as (results & down_servers & Hv & _ & _ & Herr & Hok).
  { intros url data e [= <-]. reflexivity. }
  exists results, down_servers. split; [exact Hv|]. split.
  - apply (Herr "B" "10.0.0.3" (mkExc OtherException "boom")); reflexivity.
  - apply (Hok "A" "10.0.0.1"); reflexivity.
Defined.

(** C3 (as written). Two targets, "B" completing first; the check of "B"
    raises, and the webhook call raises an [OSError]. The fault of "B" is
    caught, the alert sent by the handler raises, and the run ends there
    with that exception: no result list is produced, and "A" is never
    looked at. *)
Lemma fault_aborts_run : ¬ fault_never_aborts.
Proof.
  intros H.
  destruct (H Examples.env_no_ca_bundle Examples.cfg_demo Examples.task_demo
              [("B", "10.0.0.3"); ("A", "10.0.0.1")])
    as (results & down_servers & Hv & _).
  { vm_compute. reflexivity || apply perm_swap. }
  vm_compute in Hv. discriminate Hv.
Qed.








Lemma main_with_ignores_webhook env cfg task completed post' :
  raises_only_request_exceptions env →
  raises_only_request_exceptions (with_requests_post env post') →
  value (main_with (with_requests_post env post') cfg task completed)
  = value (main_with env cfg task completed)
  ∧ posted (trace (main_with (with_requests_post env post') cfg task completed))
    = posted (trace (main_with env cfg task completed)).
Proof.
  intros Hro Hro'.
  destruct (main_with_spec env cfg task completed Hro) as [-> ->].
  destruct (main_with_spec (with_requests_post env post') cfg task completed Hro')
    as [-> ->].
  split; reflexivity.
Qed.

(** C9 (as amended). For every per-target alert the webhook is called
    exactly once. A response outside the 2xx range and a
    [RequestException] are each printed and turned into the return value
    [False]; an exception of another class is not caught: it is raised to
    the caller, nothing being printed. So the call returns a boolean
    whenever the webhook call raises nothing but [RequestException]s, and
    then the records collected by a run and the payloads it sends are the
    same whatever the webhook answers. *)
Theorem alert_delivery_failure_is_swallowed (env : Env) (cfg : Config)
    (vm_name ip_address status : string) (method : option string) :
  let r := send_slack_notification env cfg vm_name ip_address status method in
  let payload := alert_payload env vm_name ip_address status method in
  let url := SLACK_WEBHOOK_URL cfg in
  posted (trace r) = [payload]
  ∧ (∀ code, requests_post env url payload = inr code → ¬ (200 ≤ code < 300) →
       r = mkM (inr false)
             [EvPost url payload;
              EvPrint ("   ❌ Slack notification failed. Status: " +:+ pretty code)])
  ∧ (∀ e, requests_post env url payload = inl e → exc_class e = RequestException →
       r = mkM (inr false)
             [EvPost url payload;
              EvPrint ("   ❌ Error sending Slack notification: " +:+ exc_str e)])
  ∧ (∀ e, requests_post env url payload = inl e → exc_class e = OtherException →
       r = mkM (inl e) [EvPost url payload])
  ∧ (raises_only_request_exceptions env → ∃ sent : bool, value r = inr sent)
  ∧ (∀ task completed post',
       raises_only_request_exceptions env →
       raises_only_request_exceptions (with_requests_post env post') →
       value (main_with (with_requests_post env post') cfg task completed)
       = value (main_with env cfg task completed)
       ∧ posted (trace (main_with (with_requests_post env post') cfg task completed))
         = posted (trace (main_with env cfg task completed))).
Proof.
  cbn zeta. split; [apply send_slack_notification_posted|].
  split; [|split; [|split; [|split]]].
  - intros code Hpost Hcode. apply send_slack_notification_failed; [done|lia].
  - intros e Hpost Hclass. by apply send_slack_notification_error.
  - intros e Hpost Hclass. by apply send_slack_notification_escapes.
  - apply send_slack_notification_returns.
  - intros task completed post'. apply main_with_ignores_webhook.
Qed.

Lemma alert_delivery_failure_is_swallowed_witness :
  send_slack_notification Examples.env_offline Examples.cfg_demo
    "B" "10.0.0.3" "DOWN" (Some "All checks failed")
  = mkM (inr false)
      [EvPost (SLACK_WEBHOOK_URL Examples.cfg_demo)
         (alert_payload Examples.env_offline "B" "10.0.0.3" "DOWN"
            (Some "All checks failed"));
       EvPrint ("   ❌ Error sending Slack notification: "
                +:+ "HTTPSConnectionPool(host='hooks.slack.example', port=443): Max retries exceeded")].
Proof.
  apply (proj1 (proj2 (proj2 (alert_delivery_failure_is_swallowed Examples.env_offline
           Examples.cfg_demo "B" "10.0.0.3" "DOWN" (Some "All checks failed"))))
           (mkExc RequestException
              "HTTPSConnectionPool(host='hooks.slack.example', port=443): Max retries exceeded"));
    reflexivity.
Defined.

(** C9 (as written). With a webhook call that raises an [OSError] the
    alert returns no boolean: the exception leaves the call. *)
Lemma alert_raises_other_exception : ¬ alert_never_raises.
Proof.
  intros H.
  destruct (H Examples.env_no_ca_bundle Examples.cfg_demo "B" "10.0.0.3" "DOWN"
              (Some "All checks failed")) as [sent Hsent].
  vm_compute in Hsent. discriminate Hsent.
Qed.

(** Twelve failing targets: ten fields in the summary, "12/12" in its text. *)
Example summary_of_twelve :
  let r := main_with Examples.env_demo Examples.cfg_twelve Examples.task_all_fail
             (map_to_list (VMS_TO_MONITOR Examples.cfg_twelve)) in
  match value r with inr (_, down_servers) => length down_servers | inl _ => 0%nat end
  = 12%nat
  ∧ (λ d, (text d, length <$> (blocks d !! 3%nat ≫= λ b,
             match b with SectionFields f => Some f | _ => None end)))
      <$> last (posted (trace r))
    = Some ("⚠️ MONITORING SUMMARY: 12/12 servers are DOWN", Some 10%nat).
Proof. vm_compute. split; reflexivity. Qed.

(** ** Further properties of the probes *)

(** A list either has a first element with a decidable property, or none. *)
Lemma first_hit_split {A} (P : A → Prop) `{!∀ x, Decision (P x)} (l : list A) :
  (∃ pre x post, l = pre ++ x :: post ∧ Forall (λ y, ¬ P y) pre ∧ P x)
  ∨ Forall (λ y, ¬ P y) l.
Proof.
  induction l as [|x l IH]; [by right|].
  destruct (decide (P x)) as [Hx|Hx].
  - left. by exists [], x, l.
  - destruct IH as [(pre & y & post & -> & Hpre & Hy)|Hall].
    + left. exists (x :: pre), y, post. repeat split; [by constructor|done].
    + right. by constructor.
Qed.

Lemma check_any_port_open_first env a pre p post :
  Forall (λ q, ¬ accepts env a q) pre →
  accepts env a p →
  check_any_port_open env a (pre ++ p :: post)
  = mkM (true, Some p) (connects a (pre ++ [p])).
Proof.
  induction pre as [|q pre IH]; intros Hpre Hp.
  - by apply check_any_port_open_hit.
  - apply Forall_cons in Hpre as [Hq Hpre].
    rewrite <- app_comm_cons, check_any_port_open_miss by done.
    by rewrite IH.
Qed.

Lemma check_any_port_open_none env a ports :
  Forall (λ q, ¬ accepts env a q) ports →
  check_any_port_open env a ports = mkM (false, None) (connects a ports).
Proof.
  induction ports as [|q ports IH]; intros Hall; [done|].
  apply Forall_cons in Hall as [Hq Hall].
  rewrite check_any_port_open_miss by done. by rewrite IH.
Qed.

Lemma no_hit_not_exists {A} (P : A → Prop) (l : list A) :
  Forall (λ y, ¬ P y) l → ¬ Exists P l.
Proof. intros Hall Hex. apply Exists_exists in Hex as (x & Hx & HP).
  by apply (proj1 (Forall_forall _ _) Hall x). Qed.

(** The port probe is sound: a reported port belongs to the list and
    accepts, success is reported exactly when some port of the list
    accepts, a failure carries no port, and the probe connects to no port
    outside the list and at most once to each position of it. *)
Theorem port_probe_sound (env : Env) (a : string) (ports : list Z) :
  let r := check_any_port_open env a ports in
  (∀ p, value r = (true, p) → ∃ q, p = Some q ∧ q ∈ ports ∧ accepts env a q)
  ∧ (∀ p, value r = (false, p) → p = None ∧ Forall (λ q, ¬ accepts env a q) ports)
  ∧ ((value r).1 = true ↔ Exists (accepts env a) ports)
  ∧ (∃ tried, tried `prefix_of` ports ∧ trace r = connects a tried).
Proof.
  cbn zeta.
  destruct (first_hit_split (accepts env a) ports)
    as [(pre & q & post & -> & Hpre & Hq)|Hall].
  - rewrite (check_any_port_open_first env a pre q post Hpre Hq). cbn [value trace fst].
    split; [|split; [|split]].
    + intros p [= <-]. exists q. split; [done|]. split; [|done].
      apply elem_of_app. right. by left.
    + intros p [=].
    + split; [|done]. intros _. apply Exists_app. right. by left.
    + exists (pre ++ [q]). split; [|done].
      exists post. by rewrite <- app_assoc.
  - rewrite (check_any_port_open_none env a ports Hall). cbn [value trace fst].
    split; [|split; [|split]].
    + intros p [=].
    + by intros p [= <-].
    + split; [done|]. intros Hex. by destruct (no_hit_not_exists _ _ Hall).
    + by exists ports.
Qed.

Lemma http_probe_cases env a :
  (∃ pre pr post,
     tried_pairs = pre ++ pr :: post
     ∧ Forall (λ q, ¬ responds env a q) pre ∧ responds env a pr
     ∧ check_http_service env a
       = mkM (true, Some (http_service pr.1 pr.2)) (gets a (pre ++ [pr])))
  ∨ (Forall (λ q, ¬ responds env a q) tried_pairs
     ∧ check_http_service env a = mkM (false, None) (gets a tried_pairs)).
Proof.
  destruct (first_hit_split (responds env a) tried_pairs)
    as [(pre & pr & post & Hsplit & Hpre & Hpr)|Hall].
  - left. exists pre, pr, post.
    split; [exact Hsplit|]. split; [exact Hpre|]. split; [exact Hpr|].
    exact (http_try_protocols_first env a http_protocols pre pr post Hsplit Hpre Hpr).
  - right. split; [exact Hall|].
    exact (http_try_protocols_none env a http_protocols Hall).
Qed.

(** The HTTP probe is sound: a reported service names one of the ten
    pairs, and that pair responded; success is reported exactly when some
    pair responds; a failure carries no service; at most ten requests are
    made, each to one of the ten URLs, in the order of the pairs. *)
Theorem http_probe_sound (env : Env) (a : string) :
  let r := check_http_service env a in
  (∀ s, value r = (true, s) →
     ∃ pr, s = Some (http_service pr.1 pr.2) ∧ pr ∈ tried_pairs ∧ responds env a pr)
  ∧ (∀ s, value r = (false, s) →
     s = None ∧ Forall (λ q, ¬ responds env a q) tried_pairs)
  ∧ ((value r).1 = true ↔ Exists (responds env a) tried_pairs)
  ∧ (∃ tried, tried `prefix_of` tried_pairs ∧ trace r = gets a tried)
  ∧ (length (trace r) ≤ 10)%nat.
Proof.
  cbn zeta.
  destruct (http_probe_cases env a)
    as [(pre & pr & post & Hsplit & Hpre & Hpr & ->)|[Hall ->]]; cbn [value trace fst].
  - split; [|split; [|split; [|split]]].
    + intros s [= <-]. exists pr. split; [done|]. split; [|done].
      rewrite Hsplit. apply elem_of_app. right. by left.
    + intros s [=].
    + split; [|done]. intros _. rewrite Hsplit. apply Exists_app. right. by left.
    + exists (pre ++ [pr]). split; [|done].
      exists post. by rewrite Hsplit, <- app_assoc.
    + unfold gets. rewrite length_fmap.
      assert (length tried_pairs = 10%nat) as Hten by reflexivity.
      rewrite Hsplit, length_app in Hten. rewrite length_app.
      cbn [length] in Hten |- *. lia.
  - split; [|split; [|split; [|split]]].
    + intros s [=].
    + by intros s [= <-].
    + split; [done|]. intros Hex. by destruct (no_hit_not_exists _ _ Hall).
    + by exists tried_pairs.
    + reflexivity.
Qed.

(** ** The classifier with the probes of the script *)

Lemma port_probe_unreachable env cfg a :
  Forall (λ q, ¬ accepts env a q) (COMMON_PORTS cfg) →
  port_probe (probes env cfg) a = mkM (false, None) (connects a (COMMON_PORTS cfg)).
Proof. intros H. exact (check_any_port_open_none env a (COMMON_PORTS cfg) H). Qed.

Lemma not_icmp_ping_port s : "TCP Port " +:+ s ≠ "ICMP Ping".
Proof. discriminate. Qed.

Lemma not_icmp_ping_http s : "HTTP " +:+ s ≠ "ICMP Ping".
Proof. discriminate. Qed.

Lemma get_not_in_connects a ports url t : EvGet url t ∉ connects a ports.
Proof.
  unfold connects. intros H. apply list_elem_of_fmap in H as (q & Hq & _).
  discriminate.
Qed.

Lemma comprehensive_server_check_up env cfg a :
  ¬ unreachable env cfg a → (value (comprehensive_server_check env cfg a)).1 = "UP".
Proof.
  intros Hreach. rewrite comprehensive_server_check_without_icmp. cbn zeta.
  destruct (first_hit_split (accepts env a) (COMMON_PORTS cfg))
    as [(pre & q & post & Hports & Hpre & Hq)|Hports].
  - rewrite Hports, (check_any_port_open_first env a pre q post Hpre Hq). reflexivity.
  - rewrite (check_any_port_open_none env a _ Hports). cbn [value fst].
    destruct (http_probe_cases env a)
      as [(pre & pr & post & _ & _ & _ & ->)|[Hall _]]; [reflexivity|].
    destruct Hreach. split; [exact Hports | exact Hall].
Qed.

Lemma check_http_service_none env a :
  Forall (λ q, ¬ responds env a q) tried_pairs →
  check_http_service env a = mkM (false, None) (gets a tried_pairs).
Proof. exact (http_try_protocols_none env a http_protocols). Qed.

Lemma comprehensive_server_check_down env cfg a :
  unreachable env cfg a →
  comprehensive_server_check env cfg a
  = mkM ("DOWN", "All checks failed")
        (connects a (COMMON_PORTS cfg) ++ gets a tried_pairs
         ++ [EvPlatform; EvSubprocessRun (ping_command (platform_system env) a)]).
Proof.
  intros [Hports Hpairs]. unfold comprehensive_server_check.
  rewrite classifier_icmp_case.
  - cbn [port_probe http_probe icmp_probe probes].
    rewrite (check_any_port_open_none env a _ Hports).
    rewrite (check_http_service_none env a Hpairs).
    rewrite check_vm_status_ping_spec. reflexivity.
  - cbn [port_probe probes].
    rewrite (check_any_port_open_none env a _ Hports). reflexivity.
  - cbn [http_probe probes].
    rewrite (check_http_service_none env a Hpairs). reflexivity.
Qed.

(** With the probes of the script, the classifier answers "DOWN" exactly
    for an address none of whose common ports accepts and none of whose ten
    HTTP pairs responds, after trying every port, every pair and the ping
    call; every other address is "UP". The method is never "ICMP Ping",
    and no HTTP request is made once a port has accepted. *)
Theorem real_check_status (env : Env) (cfg : Config) (a : string) :
  let r := comprehensive_server_check env cfg a in
  (unreachable env cfg a →
     r = mkM ("DOWN", "All checks failed")
           (connects a (COMMON_PORTS cfg) ++ gets a tried_pairs
            ++ [EvPlatform; EvSubprocessRun (ping_command (platform_system env) a)]))
  ∧ (¬ unreachable env cfg a → (value r).1 = "UP")
  ∧ (value r).2 ≠ "ICMP Ping"
  ∧ (Exists (accepts env a) (COMMON_PORTS cfg) → ∀ url t, EvGet url t ∉ trace r).
Proof.
  cbn zeta. split; [apply comprehensive_server_check_down|].
  split; [apply comprehensive_server_check_up|]. split.
  - rewrite comprehensive_server_check_without_icmp. cbn zeta.
    destruct ((value (check_any_port_open env a (COMMON_PORTS cfg))).1);
      [apply not_icmp_ping_port|].
    destruct ((value (check_http_service env a)).1);
      [apply not_icmp_ping_http | discriminate].
  - intros Hex url t.
    destruct (first_hit_split (accepts env a) (COMMON_PORTS cfg))
      as [(pre & q & post & Hports & Hpre & Hq)|Hports].
    + unfold comprehensive_server_check. rewrite classifier_port_case.
      * cbn [port_probe probes trace].
        rewrite Hports, (check_any_port_open_first env a pre q post Hpre Hq).
        apply get_not_in_connects.
      * cbn [port_probe probes].
        rewrite Hports, (check_any_port_open_first env a pre q post Hpre Hq).
        reflexivity.
    + by destruct (no_hit_not_exists _ _ Hports).
Qed.

Lemma real_check_status_witness :
  (value (comprehensive_server_check Examples.env_demo Examples.cfg_demo "10.0.0.2")).1
  = "UP".
Proof.
  apply (proj1 (proj2 (real_check_status Examples.env_demo Examples.cfg_demo "10.0.0.2"))).
  intros [_ Hpairs].
  assert (responds Examples.env_demo "10.0.0.2" ("https", 8080)) as Hr.
  { exists 200. split; [vm_compute; reflexivity | lia]. }
  revert Hr. apply (proj1 (Forall_forall _ _) Hpairs).
  unfold tried_pairs, pairs_of. cbn. rewrite !elem_of_cons. tauto.
Defined.

(** ** Delivery of the two alerts *)

(** A per-target alert counts as sent only on status 200: the function
    returns [True] exactly then, printing the confirmation; every other
    answer, 201 and 204 included, is reported as a failure. *)
Theorem alert_sent_iff_200 (env : Env) (cfg : Config)
    (vm_name ip_address status : string) (method : option string) :
  let r := send_slack_notification env cfg vm_name ip_address status method in
  let payload := alert_payload env vm_name ip_address status method in
  let url := SLACK_WEBHOOK_URL cfg in
  (value r = inr true ↔ requests_post env url payload = inr 200)
  ∧ (requests_post env url payload = inr 200 →
     trace r = [EvPost url payload;
                EvPrint ("   ✅ Slack notification sent for " +:+ vm_name)])
  ∧ (∀ code, requests_post env url payload = inr code → code ≠ 200 →
     value r = inr false).
Proof.
  cbn zeta. unfold send_slack_notification, post.
  destruct (requests_post env _ _) as [e|code] eqn:Hpost; cbn [value trace mbind M_bind].
  - split; [|split; [discriminate|discriminate]]. by destruct (exc_class e).
  - destruct (decide (code = 200)) as [->|Hne].
    + rewrite bool_decide_eq_true_2 by reflexivity. split; [split; reflexivity|].
      split; [intros _; reflexivity|]. intros c [= <-] Hc. by destruct Hc.
    + rewrite bool_decide_eq_false_2 by exact Hne.
      split; [split; [discriminate | intros [= E]; by destruct Hne] |].
      split; [intros [= E]; by destruct Hne|]. intros c _ _. reflexivity.
Qed.

Lemma alert_sent_iff_200_witness :
  trace (send_slack_notification (with_requests_post Examples.env_demo (λ _ _, inr 200))
           Examples.cfg_demo "B" "10.0.0.3" "DOWN" (Some "All checks failed"))
  = [EvPost (SLACK_WEBHOOK_URL Examples.cfg_demo)
       (alert_payload (with_requests_post Examples.env_demo (λ _ _, inr 200))
          "B" "10.0.0.3" "DOWN" (Some "All checks failed"));
     EvPrint "   ✅ Slack notification sent for B"].
Proof.
  apply (proj1 (proj2 (alert_sent_iff_200
                         (with_requests_post Examples.env_demo (λ _ _, inr 200))
                         Examples.cfg_demo "B" "10.0.0.3" "DOWN" (Some "All checks failed")))).
  reflexivity.
Defined.

(** The summary is posted once for a non-empty list and never retried. A
    200 answer and a [RequestException] are each printed; an answer with
    any other status leaves no trace on the console at all, unlike the
    per-target alert. In these three cases the function returns; an
    exception of another class leaves it, nothing being printed. *)
Theorem summary_delivery (env : Env) (cfg : Config)
    (down_servers : list CheckResult) (total_servers : nat) :
  down_servers ≠ [] →
  let r := send_summary_notification env cfg down_servers total_servers in
  let payload := summary_payload env down_servers total_servers in
  let url := SLACK_WEBHOOK_URL cfg in
  (requests_post env url payload = inr 200 →
     trace r = [EvPost url payload; EvPrint (nl +:+ "✅ Summary report sent to Slack")])
  ∧ (∀ code, requests_post env url payload = inr code → code ≠ 200 →
     trace r = [EvPost url payload])
  ∧ (∀ e, requests_post env url payload = inl e → exc_class e = RequestException →
     trace r = [EvPost url payload;
                EvPrint (nl +:+ "❌ Error sending summary: " +:+ exc_str e)])
  ∧ (∀ e, requests_post env url payload = inl e → exc_class e = OtherException →
     r = mkM (inl e) [EvPost url payload])
  ∧ ((∀ e, requests_post env url payload = inl e → exc_class e = RequestException) →
     value r = inr ()).
Proof.
  intros Hne. cbn zeta. destruct down_servers as [|d ds]; [by destruct Hne|].
  unfold send_summary_notification, post.
  destruct (requests_post env _ _) as [e|code] eqn:Hpost; cbn [value trace mbind M_bind].
  - split; [discriminate|]. split; [discriminate|]. split; [|split].
    + intros e' [= <-] Hclass. by rewrite Hclass.
    + intros e' [= <-] Hclass. by rewrite Hclass.
    + intros Hro. by rewrite (Hro e eq_refl).
  - split; [|split; [|split; [discriminate|split; [discriminate|]]]].
    + intros [= ->]. rewrite bool_decide_eq_true_2 by reflexivity. reflexivity.
    + intros c [= <-] Hc. rewrite bool_decide_eq_false_2 by exact Hc. reflexivity.
    + intros _. by destruct (bool_decide (code = 200)).
Qed.

Lemma summary_delivery_witness :
  trace (send_summary_notification Examples.env_demo Examples.cfg_demo
           [mkResult "B" "10.0.0.3" "DOWN" "All checks failed" 1700000000] 2)
  = [EvPost (SLACK_WEBHOOK_URL Examples.cfg_demo)
       (summary_payload Examples.env_demo
          [mkResult "B" "10.0.0.3" "DOWN" "All checks failed" 1700000000] 2)].
Proof.
  apply (proj1 (proj2 (summary_delivery Examples.env_demo Examples.cfg_demo
           [mkResult "B" "10.0.0.3" "DOWN" "All checks failed" 1700000000] 2
           ltac:(discriminate)))
           503); [reflexivity | lia].
Defined.

(** ** The run with the checker of the script *)

Lemma check_single_vm_value env cfg n a :
  value (check_single_vm env cfg n a)
  = mkResult n a (value (comprehensive_server_check env cfg a)).1
             (value (comprehensive_server_check env cfg a)).2 (time_time env).
Proof.
  unfold check_single_vm. rewrite !value_bind.
  destruct (comprehensive_server_check env cfg a) as [[st m] t]. reflexivity.
Qed.

Lemma check_single_vm_down_iff env cfg n a :
  is_down (value (check_single_vm env cfg n a)) ↔ unreachable env cfg a.
Proof.
  rewrite check_single_vm_value. unfold is_down. cbn [status].
  destruct (decide (unreachable env cfg a)) as [Hu|Hr].
  - rewrite (comprehensive_server_check_down env cfg a Hu). cbn [value fst].
    split; [intros _; exact Hu | intros _; discriminate].
  - rewrite (comprehensive_server_check_up env cfg a Hr).
    split; [intros H; by destruct H | intros H; by destruct Hr].
Qed.

Lemma filter_fmap_iff {A B} (f : A → B) (P : B → Prop) (Q : A → Prop)
    `{!∀ y, Decision (P y)} `{!∀ x, Decision (Q x)} (l : list A) :
  (∀ x, P (f x) ↔ Q x) → filter P (f <$> l) = f <$> filter Q l.
Proof.
  intros Hiff. induction l as [|x l IH]; [reflexivity|].
  rewrite fmap_cons, !filter_cons, IH.
  destruct (decide (P (f x))) as [HP|HP], (decide (Q x)) as [HQ|HQ];
    try reflexivity.
  - destruct HQ. by apply Hiff.
  - destruct HP. by apply Hiff.
Qed.

Lemma main_results env cfg (completed : list (string * string)) :
  outcome_result env cfg
    <$> futures_of (λ vm_name ip_addr,
          inr (value (check_single_vm env cfg vm_name ip_addr))) completed
  = (λ na, value (check_single_vm env cfg na.1 na.2)) <$> completed.
Proof.
  unfold futures_of. rewrite <- list_fmap_compose.
  apply Forall_fmap_ext_1, Forall_forall. by intros [n a] _.
Qed.

Lemma main_down env cfg (completed : list (string * string)) :
  filter is_down ((λ na, value (check_single_vm env cfg na.1 na.2)) <$> completed)
  = (λ na, mkResult na.1 na.2 "DOWN" "All checks failed" (time_time env))
    <$> filter (λ na, unreachable env cfg na.2) completed.
Proof.
  rewrite (filter_fmap_iff _ is_down (λ na, unreachable env cfg na.2)).
  - apply Forall_fmap_ext_1, Forall_forall. intros [n a] Hin.
    apply list_elem_of_filter in Hin as [Hu _]. cbn [fst snd] in *.
    rewrite check_single_vm_value.
    by rewrite (comprehensive_server_check_down env cfg a Hu).
  - intros [n a]. apply check_single_vm_down_iff.
Qed.

(** In a run of the script whose webhook call raises nothing but
    [RequestException]s, every record comes from [check_single_vm]: it
    carries the name and address of its target and the status "UP" or
    "DOWN", never "ERROR". The records collected as down are those of the
    unreachable targets, in completion order, each with the method
    "All checks failed"; they are the targets that get a per-target alert,
    followed by one summary when there is at least one. *)
Theorem run_alerts_unreachable (env : Env) (cfg : Config)
    (completed : list (string * string)) :
  raises_only_request_exceptions env →
  let r := main env cfg completed in
  let down := (λ na, mkResult na.1 na.2 "DOWN" "All checks failed" (time_time env))
              <$> filter (λ na, unreachable env cfg na.2) completed in
  ∃ results down_servers,
    value r = inr (results, down_servers)
    ∧ name <$> results = completed.*1
    ∧ ip <$> results = completed.*2
    ∧ Forall (λ x, status x = "UP" ∨ status x = "DOWN") results
    ∧ down_servers = down
    ∧ posted (trace r)
      = (alert_of env <$> down)
        ++ match down with
           | [] => []
           | _ => [summary_payload env down (length completed)]
           end.
Proof.
  intros Hro. cbn zeta. unfold main.
  destruct (main_with_spec env cfg
              (λ vm_name ip_addr, inr (value (check_single_vm env cfg vm_name ip_addr)))
              completed Hro) as [Hv Ht].
  cbn zeta in Hv, Ht. eexists _, _. split; [exact Hv|]. rewrite Ht. clear Hv Ht.
  rewrite main_results, main_down, length_fmap.
  split; [|split; [|split; [|split; [reflexivity|]]]];
    [| | |by destruct (_ <$> filter _ completed)].
  - rewrite <- list_fmap_compose. apply Forall_fmap_ext_1, Forall_forall.
    intros [n a] _. unfold compose. cbn [fst snd].
    rewrite check_single_vm_value. reflexivity.
  - rewrite <- list_fmap_compose. apply Forall_fmap_ext_1, Forall_forall.
    intros [n a] _. unfold compose. cbn [fst snd].
    rewrite check_single_vm_value. reflexivity.
  - apply Forall_fmap, Forall_forall. intros [n a] _. unfold compose. cbn [fst snd].
    rewrite check_single_vm_value. cbn [status].
    destruct (decide (unreachable env cfg a)) as [Hu|Hr].
    + right. by rewrite (comprehensive_server_check_down env cfg a Hu).
    + left. by apply comprehensive_server_check_up.
Qed.

Lemma run_alerts_unreachable_witness :
  ∃ results down_servers,
    value (main Examples.env_offline Examples.cfg_demo
             (map_to_list (VMS_TO_MONITOR Examples.cfg_demo)))
    = inr (results, down_servers)
    ∧ Forall (λ x, status x = "UP" ∨ status x = "DOWN") results.
Proof.
  destruct (run_alerts_unreachable Examples.env_offline Examples.cfg_demo
              (map_to_list (VMS_TO_MONITOR Examples.cfg_demo)))
    as (results & down_servers & Hv & _ & _ & Hst & _).
  { intros url data e [= <-]. reflexivity. }
  by exists results, down_servers.
Defined.

(** ** An alert that raises inside the loop *)

(** When the alert for a record that is not "UP" raises an exception the
    alert function does not catch, the handler of the loop takes it for a
    failure of the check: it prints it and sends a second alert for the
    same target, with status "ERROR" and the text of the exception as
    method. If the second alert returns, the loop goes on with two records
    for the target in both lists, the record of the check and an "ERROR"
    record; if it raises as well, the loop ends there with that exception,
    after the two posts. *)
Theorem alert_exception_in_loop (env : Env) (cfg : Config) (vm_name : string)
    (result : CheckResult) (rest : list Future) (rs ds : list CheckResult) (e : Exc) :
  status result ≠ "UP" →
  requests_post env (SLACK_WEBHOOK_URL cfg) (alert_of env result) = inl e →
  exc_class e = OtherException →
  let url := SLACK_WEBHOOK_URL cfg in
  let error_result := error_result env cfg vm_name e in
  let second := alert_payload env vm_name (VMS_TO_MONITOR cfg !!! vm_name) "ERROR"
                  (Some (exc_str e)) in
  let r := collect env cfg ((vm_name, inr result) :: rest) rs ds in
  (∀ e', requests_post env url second = inl e' → exc_class e' = OtherException →
     r = mkM (inl e')
           [EvPost url (alert_of env result);
            EvPrint ("   ⚠️ Exception checking " +:+ vm_name +:+ ": " +:+ exc_str e);
            EvPost url second])
  ∧ ((∀ e', requests_post env url second = inl e' → exc_class e' = RequestException) →
     value r = value (collect env cfg rest (rs ++ [result; error_result])
                        (ds ++ [result; error_result]))
     ∧ posted (trace r)
       = [alert_of env result; second]
         ++ posted (trace (collect env cfg rest (rs ++ [result; error_result])
                             (ds ++ [result; error_result])))).
Proof.
  intros Hst Hpost Hclass. cbn zeta. cbn [collect].
  rewrite bool_decide_eq_true_2 by exact Hst. unfold alert_of in *.
  rewrite (send_slack_notification_escapes env cfg _ _ _ _ e Hpost Hclass).
  split.
  - intros e' Hpost' Hclass'. apply M_eq.
    + rewrite !value_bind. cbn [value].
      by rewrite (send_slack_notification_escapes env cfg _ _ _ _ e' Hpost' Hclass').
    + rewrite !trace_bind. cbn [value trace]. rewrite !trace_bind.
      by rewrite (send_slack_notification_escapes env cfg _ _ _ _ e' Hpost' Hclass').
  - intros Hro.
    assert (∃ sent : bool,
              value (send_slack_notification env cfg vm_name (VMS_TO_MONITOR cfg !!! vm_name)
                       "ERROR" (Some (exc_str e))) = inr sent) as [sent Hsent].
    { unfold send_slack_notification, post.
      destruct (requests_post env (SLACK_WEBHOOK_URL cfg)
                  (alert_payload env vm_name (VMS_TO_MONITOR cfg !!! vm_name) "ERROR"
                     (Some (exc_str e)))) as [e'|code] eqn:Hpost';
        cbn [trace value mbind M_bind].
      - rewrite (Hro e' eq_refl). by exists false.
      - destruct (bool_decide (code = 200)); by eexists. }
    split.
    + rewrite !value_bind. cbn [value]. rewrite !value_bind, Hsent.
      by rewrite <- !app_assoc.
    + rewrite !trace_bind, !posted_app. cbn [value trace]. rewrite !trace_bind, !posted_app.
      rewrite send_slack_notification_posted, Hsent. rewrite <- !app_assoc. reflexivity.
Qed.

Lemma alert_exception_in_loop_witness :
  value (collect Examples.env_no_ca_bundle Examples.cfg_demo
           [("B", inr (mkResult "B" "10.0.0.3" "DOWN" "All checks failed" 1700000000));
            ("A", inr (mkResult "A" "10.0.0.1" "UP" "TCP Port 80" 1700000000))] [] [])
  = inl (mkExc OtherException
           "Could not find a suitable TLS CA certificate bundle, invalid path: /etc/ssl/cert.pem").
Proof.
  rewrite (proj1 (alert_exception_in_loop Examples.env_no_ca_bundle Examples.cfg_demo "B"
                    (mkResult "B" "10.0.0.3" "DOWN" "All checks failed" 1700000000)
                    [("A", inr (mkResult "A" "10.0.0.1" "UP" "TCP Port 80" 1700000000))]
                    [] [] _ ltac:(discriminate) eq_refl eq_refl) _ eq_refl eq_refl).
  reflexivity.
Defined.

(** ** The figures of the final report *)

Lemma filter_up_down_length (l : list CheckResult) :
  (length (filter is_up l) + length (filter is_down l) = length l)%nat.
Proof.
  induction l as [|x l IH]; [reflexivity|].
  rewrite !filter_cons. unfold is_up, is_down in *.
  destruct (decide (status x = "UP")) as [Hu|Hd].
  - rewrite decide_False by (intros H; by destruct H). simpl. lia.
  - rewrite decide_True by exact Hd. simpl. lia.
Qed.

Lemma main_with_prints_counts env cfg task completed :
  raises_only_request_exceptions env →
  let out := outcome_result env cfg <$> futures_of task completed in
  let down := filter is_down out in
  EvPrint ("✅ Servers UP: "
           +:+ pretty (Z.of_nat (length out) - Z.of_nat (length down))%Z
           +:+ "/" +:+ pretty (length out))
    ∈ trace (main_with env cfg task completed)
  ∧ EvPrint ("❌ Servers DOWN/ERROR: " +:+ pretty (length down) +:+ "/"
             +:+ pretty (length out))
    ∈ trace (main_with env cfg task completed).
Proof.
  intros Hro. cbn zeta. unfold main_with. cbn zeta.
  destruct (collect_spec env cfg (futures_of task completed) [] [] Hro) as [Hv _].
  cbn zeta in Hv. rewrite !app_nil_l in Hv.
  repeat (rewrite trace_bind; cbv beta). rewrite Hv. cbv beta iota.
  repeat (rewrite trace_bind; cbv beta).
  split.
  - do 10 (apply elem_of_app; right). apply elem_of_app. left. apply list_elem_of_singleton.
    reflexivity.
  - do 11 (apply elem_of_app; right). apply elem_of_app. left. apply list_elem_of_singleton.
    reflexivity.
Qed.

(** The two figures printed at the end of a run are right: the "UP" count
    is the number of records whose status is "UP", the other count is the
    number of records that are not, and the two add up to the number of
    records; the down list is a sub-sequence of the results. The runs are
    those that reach the final report: the webhook call raises nothing but
    [RequestException]s. *)
Theorem run_prints_counts (env : Env) (cfg : Config)
    (task : string → string → Exc + CheckResult)
    (completed : list (string * string)) :
  raises_only_request_exceptions env →
  let r := main_with env cfg task completed in
  ∃ results down_servers,
    value r = inr (results, down_servers)
    ∧ let up := length (filter is_up results) in
      let down := length (filter is_down results) in
      EvPrint ("✅ Servers UP: " +:+ pretty (Z.of_nat up) +:+ "/"
               +:+ pretty (length results)) ∈ trace r
      ∧ EvPrint ("❌ Servers DOWN/ERROR: " +:+ pretty down +:+ "/"
                 +:+ pretty (length results)) ∈ trace r
      ∧ (up + down = length results)%nat
      ∧ length results = length completed
      ∧ down_servers `sublist_of` results.
Proof.
  intros Hro. cbn zeta.
  destruct (main_with_spec env cfg task completed Hro) as [Hv _]. cbn zeta in Hv.
  destruct (main_with_prints_counts env cfg task completed Hro) as [Hup Hdown].
  cbn zeta in Hup, Hdown. eexists _, _. split; [exact Hv|].
  set (out := outcome_result env cfg <$> futures_of task completed) in *.
  pose proof (filter_up_down_length out) as Hsum.
  split; [|split; [exact Hdown|]].
  - replace (Z.of_nat (length (filter is_up out)))
      with (Z.of_nat (length out) - Z.of_nat (length (filter is_down out)))%Z by lia.
    exact Hup.
  - split; [exact Hsum|]. split.
    + subst out. unfold futures_of. by rewrite !length_fmap.
    + apply sublist_filter.
Qed.

Lemma run_prints_counts_witness :
  ∃ results down_servers,
    value (main_with Examples.env_offline Examples.cfg_demo Examples.task_demo
             (map_to_list (VMS_TO_MONITOR Examples.cfg_demo)))
    = inr (results, down_servers)
    ∧ length results = 2%nat.
Proof.
  destruct (run_prints_counts Examples.env_offline Examples.cfg_demo Examples.task_demo
              (map_to_list (VMS_TO_MONITOR Examples.cfg_demo)))
    as (results & down_servers & Hv & _ & _ & _ & Hlen & _).
  { intros url data e [= <-]. reflexivity. }
  exists results, down_servers. split; [exact Hv|]. rewrite Hlen. reflexivity.
Defined.

End VmTriggerSpec.

(** * Properties of the geocoding lookup *)

Module GeolocationSpec.
Import Geolocation.

Lemma error_dict_keys (e m : Json) :
  error_keys ({[ "error" := e; "message" := m ]} : gmap string Json)
  ∧ "latitude" ∉ dom ({[ "error" := e; "message" := m ]} : gmap string Json).
Proof.
  unfold error_keys. rewrite !dom_insert_L, dom_singleton_L.
  split; [split; set_solver|].
  rewrite !elem_of_union, !elem_of_singleton.
  intros [H|H]; discriminate.
Qed.

Lemma success_dict_keys (lat lng fa pid : Json) :
  success_keys (success_dict lat lng fa pid).
Proof.
  unfold success_keys, success_dict. rewrite !dom_insert_L, dom_singleton_L.
  repeat split; set_solver.
Qed.

Lemma eq_str_true v s : eq_str v s = true → v = JStr s.
Proof.
  destruct v; simpl; try discriminate.
  intros H. apply bool_decide_eq_true_1 in H. by subst.
Qed.

Lemma raise_for_status_return response u :
  raise_for_status response = Return u → ¬ (400 ≤ status_code response < 600).
Proof.
  unfold raise_for_status. case_bool_decide; [discriminate|done].
Qed.

(** Only a dict can be indexed by a string. *)
Lemma getitem_str_return v key x :
  getitem_str v key = Return x → ∃ m, v = JObj m ∧ m !! key = Some x.
Proof.
  destruct v as [| | | | | |m]; try discriminate. simpl.
  destruct (m !! key) as [y|] eqn:Hm; [|discriminate].
  intros [= <-]. by exists m.
Qed.

(** [v[0]] is a dict only when [v] is a list that starts with it. *)
Lemma getitem_0_dict v m :
  getitem_0 v = Return (JObj m) → ∃ rest, v = JArr (JObj m :: rest).
Proof.
  destruct v as [| | | |s|l|]; try discriminate.
  - destruct s; discriminate.
  - destruct l as [|x l]; [discriminate|]. intros [= ->]. by exists l.
Qed.

Lemma dict_get_dict m key dflt :
  dict_get (JObj m) key dflt = Return (default dflt (m !! key)).
Proof. reflexivity. Qed.

(** Reduce the binds whose first argument is known. *)
Ltac run := cbn [mbind Result_bind mret Result_ret].

Lemma located_answer_body env address lat lng fa pid :
  located_answer env address lat lng fa pid →
  get_geolocation_body env address = Return (success_dict lat lng fa pid).
Proof.
  intros (response & m & first & rest & geometry & location
          & Hget & Hstatus & Hjson & Hst & Hres & Hgeo & Hloc & Hlat & Hlng & Hfa & ->).
  unfold get_geolocation_body. cbn zeta. fold (geocode_params env address).
  rewrite Hget. run.
  unfold raise_for_status. rewrite bool_decide_eq_false_2 by done. run.
  rewrite Hjson. run. cbn [getitem_str]. rewrite Hst. run.
  cbn [eq_str]. rewrite bool_decide_eq_true_2 by done.
  rewrite Hres. run. cbn [truthy]. rewrite bool_decide_eq_false_2 by done.
  cbn [negb getitem_0]. run. cbn [getitem_str]. rewrite Hgeo. run.
  cbn [getitem_str]. rewrite Hloc, Hfa. run.
  cbn [getitem_str]. rewrite Hlat, Hlng. run. reflexivity.
Qed.

Lemma located_answer_reports_ok env address lat lng fa pid :
  located_answer env address lat lng fa pid → reports_ok env address.
Proof.
  intros (response & m & first & rest & geometry & location
          & Hget & Hstatus & Hjson & Hst & Hres & _).
  exists response, (JObj m), (JObj first), rest.
  repeat split; try done; simpl; by rewrite ?Hst, ?Hres.
Qed.

(** What a completed [try] body has returned. *)
Lemma get_geolocation_body_return env address d :
  get_geolocation_body env address = Return d →
  (∃ lat lng fa pid,
     located_answer env address lat lng fa pid ∧ d = success_dict lat lng fa pid)
  ∨ (error_keys d ∧ "latitude" ∉ dom d).
Proof.
  unfold get_geolocation_body. cbn zeta. fold (geocode_params env address).
  destruct (requests_get env _ _ _) as [response|e] eqn:Hget; run; [|discriminate].
  destruct (raise_for_status response) as [[]|e] eqn:Hstatus; run; [|discriminate].
  destruct (json response) as [data|e] eqn:Hjson; run; [|discriminate].
  destruct (getitem_str data "status") as [st|e] eqn:Hst; run; [|discriminate].
  destruct (eq_str st "OK") eqn:Hok; run.
  - destruct (getitem_str data "results") as [results|e] eqn:Hres; run; [|discriminate].
    destruct (truthy results) eqn:Htruthy.
    + destruct (getitem_0 results) as [first|e] eqn:H0; run; [|discriminate].
      destruct (getitem_str first "geometry") as [geometry|e] eqn:Hgeo;
        run; [|discriminate].
      destruct (getitem_str geometry "location") as [location|e] eqn:Hloc;
        run; [|discriminate].
      destruct (getitem_str first "formatted_address") as [fa|e] eqn:Hfa;
        run; [|discriminate].
      destruct (getitem_str location "lat") as [lat|e] eqn:Hlat; run; [|discriminate].
      destruct (getitem_str location "lng") as [lng|e] eqn:Hlng; run; [|discriminate].
      apply eq_str_true in Hok. subst st.
      apply getitem_str_return in Hst as (m & -> & Hst).
      apply getitem_str_return in Hres as (m' & [= <-] & Hres).
      apply getitem_str_return in Hgeo as (f & -> & Hgeo).
      apply getitem_0_dict in H0 as (rest & ->).
      apply getitem_str_return in Hloc as (g & -> & Hloc).
      apply getitem_str_return in Hlat as (l & -> & Hlat).
      apply getitem_str_return in Hlng as (l' & [= <-] & Hlng).
      apply getitem_str_return in Hfa as (f' & [= <-] & Hfa).
      rewrite dict_get_dict. run. intros [= <-]. left.
      exists lat, lng, fa, (default (JStr "") (f !! "place_id")).
      split; [|reflexivity].
      exists response, m, f, rest, g, l.
      repeat split; try done. by eapply raise_for_status_return.
    + destruct (dict_get data "status" _) as [x|e]; run; [|discriminate].
      destruct (dict_get data "error_message" _) as [y|e]; run; [|discriminate].
      intros [= <-]. right. apply error_dict_keys.
  - destruct (dict_get data "status" _) as [x|e]; run; [|discriminate].
    destruct (dict_get data "error_message" _) as [y|e]; run; [|discriminate].
    intros [= <-]. right. apply error_dict_keys.
Qed.

Lemma get_geolocation_cases env address :
  (∃ lat lng fa pid,
     located_answer env address lat lng fa pid
     ∧ get_geolocation env address = success_dict lat lng fa pid)
  ∨ (error_keys (get_geolocation env address)
     ∧ "latitude" ∉ dom (get_geolocation env address)).
Proof.
  unfold get_geolocation.
  destruct (get_geolocation_body env address) as [d|e] eqn:Hbody.
  - by apply (get_geolocation_body_return env address).
  - right. destruct (exc_class e); apply error_dict_keys.
Qed.

(** C10 (as amended). [get_geolocation] is total: for every address it
    returns a dict. The dict has the keys 'latitude', 'longitude',
    'formatted_address' and 'place_id' when the API reported status 'OK'
    with a non-empty result list whose first element is an object carrying
    geometry.location.lat, geometry.location.lng and formatted_address, and
    it then holds those values; in every other case it has the keys 'error'
    and 'message' and no 'latitude'. A request that raises, and anything
    else that raises inside the body, are among the other cases, with
    'API_REQUEST_FAILED' for a [RequestException] and 'UNEXPECTED_ERROR'
    otherwise. *)
Theorem get_geolocation_total (env : Env) (address : string) :
  let d := get_geolocation env address in
  (∀ lat lng fa pid, located_answer env address lat lng fa pid →
     d = success_dict lat lng fa pid ∧ success_keys d)
  ∧ ((∀ lat lng fa pid, ¬ located_answer env address lat lng fa pid) →
     error_keys d ∧ "latitude" ∉ dom d)
  ∧ (success_keys d ∨ error_keys d)
  ∧ (success_keys d → reports_ok env address)
  ∧ (¬ reports_ok env address → error_keys d)
  ∧ (∀ e, get_geolocation_body env address = Raise e →
       d = {[ "error" := JStr (match exc_class e with
                               | RequestException => "API_REQUEST_FAILED"
                               | OtherException => "UNEXPECTED_ERROR"
                               end);
              "message" := JStr (exc_str e) ]})
  ∧ (∀ e, requests_get env GEOCODING_URL (geocode_params env address) 10 = Raise e →
       get_geolocation_body env address = Raise e).
Proof.
  cbn zeta. repeat apply conj.
  - intros lat lng fa pid H. unfold get_geolocation.
    rewrite (located_answer_body env address lat lng fa pid H).
    split; [reflexivity | apply success_dict_keys].
  - intros Hnone.
    destruct (get_geolocation_cases env address) as [(lat & lng & fa & pid & H & _)|H];
      [by destruct (Hnone lat lng fa pid) | exact H].
  - destruct (get_geolocation_cases env address) as [(lat & lng & fa & pid & _ & ->)|[H _]];
      [left; apply success_dict_keys | by right].
  - intros [Hlat _].
    destruct (get_geolocation_cases env address) as [(lat & lng & fa & pid & H & _)|[_ H]];
      [by eapply located_answer_reports_ok | done].
  - intros Hno.
    destruct (get_geolocation_cases env address) as [(lat & lng & fa & pid & H & _)|[H _]];
      [|done].
    destruct Hno. by eapply located_answer_reports_ok.
  - intros e He. unfold get_geolocation. rewrite He. by destruct (exc_class e).
  - intros e He. unfold get_geolocation_body. cbn zeta.
    fold (geocode_params env address). by rewrite He.
Qed.

Lemma get_geolocation_total_witness :
  Geolocation.get_geolocation Examples.geo_env "MG Road, Bengaluru, India"
  = success_dict (JNum (QArith_base.Qmake 129716 10000))
                 (JNum (QArith_base.Qmake 775946 10000))
                 (JStr "Bengaluru, Karnataka, India")
                 (JStr "ChIJbU60yXAWrjsR4E9-UejD3_g").
Proof.
  apply (proj1 (get_geolocation_total Examples.geo_env "MG Road, Bengaluru, India")).
  exists (mkResponse 200 "" (Return (JObj Examples.geo_answer))),
         Examples.geo_answer, Examples.geo_first, [],
         {[ "location" := JObj {[ "lat" := JNum (QArith_base.Qmake 129716 10000);
                                  "lng" := JNum (QArith_base.Qmake 775946 10000) ]} ]},
         {[ "lat" := JNum (QArith_base.Qmake 129716 10000);
            "lng" := JNum (QArith_base.Qmake 775946 10000) ]}.
  repeat split; try reflexivity. simpl. lia.
Defined.

(** C10 (as written). An 'OK' answer whose first result has no 'geometry'
    ends in the second handler: the lookup raises, and the dict carries the
    error keys although the API reported 'OK' with a non-empty list. *)
Lemma ok_answer_without_geometry : ¬ ok_gives_coordinates.
Proof.
  intros H. destruct (H Examples.geo_env_bare "nowhere") as [Hok _].
  assert (reports_ok Examples.geo_env_bare "nowhere") as Hrep.
  { eexists _, _, _, _. repeat split; try reflexivity. simpl. lia. }
  destruct (Hok Hrep) as [Hlat _].
  assert (get_geolocation Examples.geo_env_bare "nowhere"
          = {[ "error" := JStr "UNEXPECTED_ERROR"; "message" := JStr "'geometry'" ]})
    as E by reflexivity.
  rewrite E in Hlat. by destruct (error_dict_keys (JStr "UNEXPECTED_ERROR") (JStr "'geometry'")).
Qed.

(** ** The error answers *)

Lemma eq_str_false v s : v ≠ JStr s → eq_str v s = false.
Proof.
  destruct v; simpl; try done. intros Hne. apply bool_decide_eq_false_2. congruence.
Qed.

(** An answer whose status is not 'OK', or whose result list is empty, is
    reported with the API's own status as error and the API's
    error_message, or 'No results found' without one, as message. An 'OK'
    answer with no results is thus reported as the error 'OK'. *)
Theorem get_geolocation_api_error (env : Env) (address : string)
    (response : Response) (m : gmap string Json) (status : Json) :
  requests_get env GEOCODING_URL (geocode_params env address) 10 = Return response →
  ¬ (400 ≤ status_code response < 600) →
  json response = Return (JObj m) →
  m !! "status" = Some status →
  status ≠ JStr "OK" ∨ (∃ results, m !! "results" = Some results ∧ truthy results = false) →
  get_geolocation env address
  = {[ "error" := status;
       "message" := default (JStr "No results found") (m !! "error_message") ]}.
Proof.
  intros Hget Hcode Hjson Hst Hcase.
  unfold get_geolocation, get_geolocation_body. cbn zeta.
  fold (geocode_params env address). rewrite Hget. run.
  unfold raise_for_status. rewrite bool_decide_eq_false_2 by done. run.
  rewrite Hjson. run. cbn [getitem_str]. rewrite Hst. run.
  destruct (eq_str status "OK") eqn:Hok.
  - destruct Hcase as [Hne|(results & Hres & Hfalsy)].
    { by rewrite (eq_str_false _ _ Hne) in Hok. }
    rewrite Hres. run. rewrite Hfalsy. rewrite !dict_get_dict. run.
    by rewrite Hst.
  - run. rewrite !dict_get_dict. run. by rewrite Hst.
Qed.

Lemma get_geolocation_api_error_witness :
  get_geolocation Examples.geo_env_zero "nowhere"
  = {[ "error" := JStr "ZERO_RESULTS"; "message" := JStr "No results found" ]}.
Proof.
  etrans.
  - apply (get_geolocation_api_error Examples.geo_env_zero "nowhere"
             (mkResponse 200 ""
                (Return (JObj {[ "status" := JStr "ZERO_RESULTS"; "results" := JArr [] ]})))
             {[ "status" := JStr "ZERO_RESULTS"; "results" := JArr [] ]}
             (JStr "ZERO_RESULTS"));
      [reflexivity | simpl; lia | reflexivity | reflexivity | left; discriminate].
  - reflexivity.
Defined.

(** A response with a 4xx or 5xx status is reported as API_REQUEST_FAILED
    with the text of the HTTPError; its body is not read. *)
Theorem get_geolocation_http_error (env : Env) (address : string) (response : Response) :
  requests_get env GEOCODING_URL (geocode_params env address) 10 = Return response →
  400 ≤ status_code response < 600 →
  get_geolocation env address
  = {[ "error" := JStr "API_REQUEST_FAILED"; "message" := JStr (http_error response) ]}.
Proof.
  intros Hget Hcode.
  unfold get_geolocation, get_geolocation_body. cbn zeta.
  fold (geocode_params env address). rewrite Hget. run.
  unfold raise_for_status. rewrite bool_decide_eq_true_2 by done. reflexivity.
Qed.

Lemma get_geolocation_http_error_witness :
  get_geolocation Examples.geo_env_denied "nowhere"
  = {[ "error" := JStr "API_REQUEST_FAILED";
       "message" := JStr "403 Client Error: Forbidden for url" ]}.
Proof.
  apply (get_geolocation_http_error Examples.geo_env_denied "nowhere"
           (mkResponse 403 "403 Client Error: Forbidden for url" (Return (JObj ∅)))).
  - reflexivity.
  - simpl. lia.
Defined.

End GeolocationSpec.

(** * Properties of the lead pipeline *)

Module LeadsSpec.
Import Geolocation Leads.

(** ** build_address_string *)

Lemma str_app_assoc (a b c : string) : (a +:+ b) +:+ c = a +:+ (b +:+ c).
Proof.
  induction a as [|x a IH]; [reflexivity|].
  change (String x ((a +:+ b) +:+ c) = String x (a +:+ (b +:+ c))).
  f_equal. exact IH.
Qed.

Lemma as_texts_texts i (l : list string) (rest : list SqlVal) :
  as_texts i ((SText <$> l) ++ rest)
  = r ← as_texts (i + length l) rest; mret (l ++ r).
Proof.
  revert i. induction l as [|x l IH]; intros i.
  - simpl. rewrite Nat.add_0_r. by destruct (as_texts i rest).
  - cbn [fmap list_fmap app as_texts length]. rewrite IH.
    replace (S i + length l)%nat with (i + S (length l))%nat by lia.
    by destruct (as_texts (i + S (length l)) rest).
Qed.

Lemma as_texts_all (l : list string) : as_texts 0 (SText <$> l) = Return l.
Proof.
  rewrite <- (app_nil_r (SText <$> l)), as_texts_texts. simpl.
  by rewrite app_nil_r.
Qed.

(** The parts a column adds to the list. *)
Lemma column_part v :
  ¬ wrong_type v →
  (if sql_truthy v then [v] else []) = SText <$> text_part v.
Proof.
  intros Hv. destruct v as [|n|s]; simpl; [reflexivity| |].
  - destruct (Z.eqb_spec n 0) as [->|Hn]; [reflexivity|].
    destruct Hv. by exists n.
  - by destruct (bool_decide (s = "")).
Qed.

Lemma pin_column_part v :
  (if sql_truthy v then [SText (sql_str v)] else []) = SText <$> pin_part v.
Proof. unfold pin_part. by destruct (sql_truthy v). Qed.

Lemma build_address_string_parts lead :
  build_address_string lead
  = str_join ", "
      ((if sql_truthy (lead_get lead "address") then [lead_get lead "address"] else [])
       ++ (if sql_truthy (lead_get lead "city") then [lead_get lead "city"] else [])
       ++ (if sql_truthy (lead_get lead "state") then [lead_get lead "state"] else [])
       ++ (if sql_truthy (lead_get lead "pincode")
           then [SText (sql_str (lead_get lead "pincode"))] else [])
       ++ [SText "India"]).
Proof.
  unfold build_address_string.
  destruct (sql_truthy (lead_get lead "address")),
           (sql_truthy (lead_get lead "city")),
           (sql_truthy (lead_get lead "state")),
           (sql_truthy (lead_get lead "pincode")); reflexivity.
Qed.

Lemma build_address_string_texts lead :
  ¬ wrong_type (lead_get lead "address") →
  ¬ wrong_type (lead_get lead "city") →
  ¬ wrong_type (lead_get lead "state") →
  build_address_string lead = Return (join_texts ", " (address_texts lead)).
Proof.
  intros Ha Hc Hs. rewrite build_address_string_parts.
  rewrite !column_part by assumption. rewrite pin_column_part.
  change [SText "India"] with (SText <$> ["India"]).
  rewrite <- !fmap_app. unfold str_join. by rewrite as_texts_all.
Qed.

(** When the address, city and state columns hold strings or nothing,
    [build_address_string] returns the non-empty ones in that order, then
    the pin code if it is not zero or empty, then 'India', separated by
    ', '. *)
Theorem build_address_string_format (lead : gmap string SqlVal) :
  ¬ wrong_type (lead_get lead "address") →
  ¬ wrong_type (lead_get lead "city") →
  ¬ wrong_type (lead_get lead "state") →
  build_address_string lead = Return (join_texts ", " (address_texts lead)).
Proof.
  intros Ha Hc Hs. rewrite build_address_string_parts.
  rewrite (column_part _ Ha), (column_part _ Hc), (column_part _ Hs), pin_column_part.
  change [SText "India"] with (SText <$> ["India"]).
  rewrite <- !fmap_app. unfold str_join, address_texts.
  by rewrite as_texts_all.
Qed.

Lemma build_address_string_format_witness :
  build_address_string (lead_dict Examples.lead_a)
  = Return "12 MG Road, Bengaluru, Karnataka, 560001, India".
Proof.
  rewrite (build_address_string_format (lead_dict Examples.lead_a)).
  - reflexivity.
  - intros (n & H & _). vm_compute in H. discriminate.
  - intros (n & H & _). vm_compute in H. discriminate.
  - intros (n & H & _). vm_compute in H. discriminate.
Defined.

Lemma str_join_wrong sep (l : list string) n rest :
  n ≠ 0 → ∃ e, str_join sep ((SText <$> l) ++ SInt n :: rest) = Raise e.
Proof. intros Hn. unfold str_join. rewrite as_texts_texts. cbn. eauto. Qed.

Lemma sql_truthy_wrong v : wrong_type v → sql_truthy v = true.
Proof. intros (n & -> & Hn). simpl. by destruct (Z.eqb_spec n 0). Qed.

Lemma build_address_string_wrong lead :
  wrong_type (lead_get lead "address") ∨ wrong_type (lead_get lead "city")
  ∨ wrong_type (lead_get lead "state") →
  ∃ e, build_address_string lead = Raise e.
Proof.
  intros Hwrong. rewrite build_address_string_parts.
  destruct (decide (wrong_type (lead_get lead "address"))) as [Ha|Ha].
  { rewrite (sql_truthy_wrong _ Ha). destruct Ha as (n & -> & Hn).
    exact (str_join_wrong ", " [] n _ Hn). }
  rewrite (column_part _ Ha).
  destruct (decide (wrong_type (lead_get lead "city"))) as [Hc|Hc].
  { rewrite (sql_truthy_wrong _ Hc). destruct Hc as (n & -> & Hn).
    exact (str_join_wrong ", " (text_part (lead_get lead "address")) n _ Hn). }
  rewrite (column_part _ Hc).
  destruct Hwrong as [?|[?|Hs]]; [done|done|].
  rewrite (sql_truthy_wrong _ Hs). destruct Hs as (n & -> & Hn).
  rewrite app_assoc, <- fmap_app.
  exact (str_join_wrong ", " _ n _ Hn).
Qed.

(** [build_address_string] raises exactly when the address, the city or
    the state column holds a non-zero number: the parts are joined as they
    are, and [join] takes strings only. A numeric pin code is fine, it goes
    through [str]. *)
Theorem build_address_string_type_error (lead : gmap string SqlVal) :
  (∃ e, build_address_string lead = Raise e)
  ↔ wrong_type (lead_get lead "address") ∨ wrong_type (lead_get lead "city")
    ∨ wrong_type (lead_get lead "state").
Proof.
  split; [|apply build_address_string_wrong].
  intros [e He].
  destruct (decide (wrong_type (lead_get lead "address"))) as [Ha|Ha]; [by left|].
  destruct (decide (wrong_type (lead_get lead "city"))) as [Hc|Hc]; [by right; left|].
  destruct (decide (wrong_type (lead_get lead "state"))) as [Hs|Hs]; [by right; right|].
  rewrite (build_address_string_texts lead Ha Hc Hs) in He. discriminate.
Qed.

Lemma join_texts_snoc sep (l : list string) x :
  join_texts sep (l ++ [x]) = foldr (λ y acc, y +:+ sep +:+ acc) x l.
Proof.
  induction l as [|y l IH]; [reflexivity|].
  cbn [app foldr]. rewrite <- IH. by destruct l.
Qed.

Lemma foldr_prefix sep (l : list string) x :
  foldr (λ y acc, y +:+ sep +:+ acc) x l
  = foldr (λ y acc, y +:+ sep +:+ acc) "" l +:+ x.
Proof.
  induction l as [|y l IH]; [reflexivity|].
  cbn [foldr]. by rewrite IH, !str_app_assoc.
Qed.

(** Whatever [build_address_string] returns ends with 'India', and it is
    'India' alone for a lead none of whose four columns holds a value:
    missing, NULL, the empty string and the number 0 all count as no
    value. *)
Theorem build_address_string_india (lead : gmap string SqlVal) :
  (∀ s, build_address_string lead = Return s → ∃ prefix, s = prefix +:+ "India")
  ∧ (sql_truthy (lead_get lead "address") = false →
     sql_truthy (lead_get lead "city") = false →
     sql_truthy (lead_get lead "state") = false →
     sql_truthy (lead_get lead "pincode") = false →
     build_address_string lead = Return "India").
Proof.
  split.
  - intros s Hs.
    destruct (decide (wrong_type (lead_get lead "address") ∨ wrong_type (lead_get lead "city")
                      ∨ wrong_type (lead_get lead "state"))) as [Hw|Hw].
    { destruct (build_address_string_wrong lead Hw) as [e He].
      rewrite He in Hs. discriminate. }
    rewrite build_address_string_texts in Hs by tauto.
    injection Hs as <-. unfold address_texts. rewrite !app_assoc.
    rewrite join_texts_snoc, foldr_prefix. eauto.
  - intros Ha Hc Hs Hp. rewrite build_address_string_parts, Ha, Hc, Hs, Hp. reflexivity.
Qed.

Lemma build_address_string_india_witness :
  build_address_string (lead_dict Examples.lead_b) = Return "India".
Proof.
  apply (proj2 (build_address_string_india (lead_dict Examples.lead_b))); reflexivity.
Defined.

(** ** get_leads_without_geolocation *)

Lemma filter_ext_in {A} (P Q : A → Prop) `{!∀ x, Decision (P x)} `{!∀ x, Decision (Q x)}
    (l : list A) :
  (∀ x, x ∈ l → P x ↔ Q x) → filter P l = filter Q l.
Proof.
  induction l as [|x l IH]; intros Hext; [reflexivity|].
  rewrite !filter_cons, IH by (intros y Hy; apply Hext; by right).
  destruct (decide (P x)) as [HP|HP], (decide (Q x)) as [HQ|HQ]; try reflexivity.
  - destruct HQ. apply Hext; [by left | done].
  - destruct HP. apply Hext; [by left | done].
Qed.

Lemma in_query_main w l :
  l ∈ lead_table w → has_stage l →
  l_id l ∈ (l_id <$> query_main w) ↔ has_geolocation w (l_id l).
Proof.
  intros Hl Hstage. unfold query_main, query_ct, has_geolocation.
  rewrite list_elem_of_fmap, Exists_exists. split.
  - intros (l' & Hid & Hin). apply list_elem_of_bind in Hin as (c & Hl' & Hc).
    apply list_elem_of_filter in Hl' as [[Hjoin _] _].
    apply list_elem_of_filter in Hc as [Htype Hc].
    exists c. split; [exact Hc|]. split; [congruence | exact Htype].
  - intros (c & Hc & Hid & Htype). exists l. split; [reflexivity|].
    apply list_elem_of_bind. exists c. split.
    + apply list_elem_of_filter. split; [split; [by symmetry | done] | done].
    + apply list_elem_of_filter. by split.
Qed.

Lemma leads_query_filter w :
  leads_query w
  = filter (λ l, has_stage l ∧ ¬ has_geolocation w (l_id l)) (lead_table w).
Proof.
  unfold leads_query. apply filter_ext_in. intros l Hl. split.
  - intros [Hstage Hnot]. split; [done|]. intros Hg. apply Hnot.
    by apply in_query_main.
  - intros [Hstage Hnot]. split; [done|]. intros Hin. apply Hnot.
    by apply (in_query_main w l).
Qed.

Lemma get_leads_spec w r w' :
  run_db get_leads_without_geolocation w = (r, w') →
  lead_table w' = lead_table w ∧ geolocation_table w' = geolocation_table w
  ∧ pending w' = pending w ∧ log w' = log w ++ [EvFetchLeads]
  ∧ match r with
    | Return leads => leads = leads_query w
    | Raise e => ∃ rest, faults w = Some (exc_str e) :: rest
    end.
Proof.
  unfold get_leads_without_geolocation, db_call. cbn [run_db].
  unfold add_log. cbn [faults].
  destruct (faults w) as [|[msg|] rest] eqn:Hf; intros [= <- <-]; cbn;
    repeat split; eauto.
Qed.

(** The query with its two common table expressions selects the leads that
    have a stage and for which the connection sees no geolocation row of
    type 'lead', in scan order; the call changes neither table, and a
    database error reaches the caller. *)
Theorem leads_query_meaning (w : World) :
  leads_query w
  = filter (λ l, has_stage l ∧ ¬ has_geolocation w (l_id l)) (lead_table w)
  ∧ (∀ r w', run_db get_leads_without_geolocation w = (r, w') →
       lead_table w' = lead_table w ∧ geolocation_table w' = geolocation_table w
       ∧ pending w' = pending w ∧ log w' = log w ++ [EvFetchLeads]
       ∧ match r with
         | Return leads => leads = leads_query w
         | Raise e => ∃ rest, faults w = Some (exc_str e) :: rest
         end).
Proof.
  split; [apply leads_query_filter|]. intros r w'. apply get_leads_spec.
Qed.

(** ** save_geolocation *)

Lemma head_filter_cases {A} (P : A → Prop) `{!∀ x, Decision (P x)} (l : list A) :
  match head (filter P l) with
  | Some x => P x ∧ x ∈ l
  | None => ¬ Exists P l
  end.
Proof.
  induction l as [|x l IH]; [by intros ?%Exists_nil|].
  rewrite filter_cons. destruct (decide (P x)) as [Hx|Hx].
  - split; [done | by left].
  - destruct (head (filter P l)) as [y|].
    + split; [apply IH | right; apply IH].
    + intros [?|?]%Exists_cons; [done | by apply IH].
Qed.

(** Unfold the calls of a computation and split on the schedule. *)
Ltac step_db :=
  repeat progress
    (cbv beta iota zeta delta
       [try_except try_finally lift tell db_call select_existing
        insert_row commit rollback connect close add_log set_faults
        set_pending commit_pending visible
        run_db mbind DbM_bind mret DbM_ret faults pending
        geolocation_table lead_table log fst snd];
     try match goal with
         | |- context [match ?f with [] => _ | _ :: _ => _ end] =>
             is_var f; destruct f as [|[?|] ?]
         end).

Lemma save_geolocation_outcome w lead_id geo_data r w' :
  run_db (save_geolocation lead_id geo_data) w = (r, w') →
  lead_table w' = lead_table w
  ∧ (∃ evs, log w' = log w ++ EvSelect lead_id :: evs ∧ Forall is_statement evs)
  ∧ match r with
    | Return true =>
        ¬ has_geolocation w lead_id
        ∧ ∃ latitude longitude,
            geo_data !! "latitude" = Some latitude
            ∧ geo_data !! "longitude" = Some longitude
            ∧ geolocation_table w'
              = visible w ++ [mkGeoRow lead_id latitude longitude "lead"]
            ∧ pending w' = []
    | Return false =>
        geolocation_table w' = geolocation_table w
        ∧ (pending w' = pending w ∨ pending w' = [])
    | Raise e =>
        geolocation_table w' = geolocation_table w
        ∧ (pending w' = pending w
           ∨ ¬ has_geolocation w lead_id
             ∧ ∃ latitude longitude,
                 pending w' = pending w ++ [mkGeoRow lead_id latitude longitude "lead"])
    end.
Proof.
  unfold save_geolocation, dict_index, has_geolocation.
  pose proof (head_filter_cases (λ g, g_id g = lead_id ∧ g_type g = "lead") (visible w))
    as Hhead.
  destruct w as [lt gt pd fl lg]. unfold visible in *. cbn [geolocation_table pending] in *.
  destruct (head (filter _ (gt ++ pd))) as [row|] eqn:Hsel;
    destruct (geo_data !! "latitude") as [lat|];
    destruct (geo_data !! "longitude") as [lng|];
    repeat (step_db; try rewrite Hsel); intros [= <- <-]; cbn;
    (split; [reflexivity|]);
    (split; [eexists; split; [rewrite <- ?app_assoc; reflexivity | repeat constructor]|]);
    repeat split; eauto 10;
    by (eexists _, _; rewrite app_assoc).
Qed.

Lemma save_geolocation_no_faults w lead_id geo_data :
  faults w = [] →
  run_db (save_geolocation lead_id geo_data) w
  = if decide (has_geolocation w lead_id)
    then (Return false, add_log (EvSelect lead_id) w)
    else match geo_data !! "latitude", geo_data !! "longitude" with
         | Some latitude, Some longitude =>
             let row := mkGeoRow lead_id latitude longitude "lead" in
             (Return true,
              mkWorld (lead_table w) (visible w ++ [row]) [] []
                      (log w ++ [EvSelect lead_id; EvInsert row; EvCommit]))
         | _, _ =>
             (Return false,
              mkWorld (lead_table w) (geolocation_table w) [] []
                      (log w ++ [EvSelect lead_id; EvRollback]))
         end.
Proof.
  unfold save_geolocation, dict_index, has_geolocation.
  pose proof (head_filter_cases (λ g, g_id g = lead_id ∧ g_type g = "lead") (visible w))
    as Hhead.
  destruct w as [lt gt pd fl lg]. unfold visible in *.
  cbn [geolocation_table pending faults] in *. intros ->.
  destruct (head (filter _ (gt ++ pd))) as [row|] eqn:Hsel.
  - rewrite decide_True by (apply Exists_exists; exists row; tauto).
    repeat (step_db; try rewrite Hsel). reflexivity.
  - rewrite decide_False by exact Hhead.
    destruct (geo_data !! "latitude") as [lat|];
      destruct (geo_data !! "longitude") as [lng|];
      repeat (step_db; try rewrite Hsel); cbn;
      rewrite <- ?app_assoc; reflexivity.
Qed.

(** Whatever the database does, [save_geolocation] leaves the [lead] table
    alone and never changes or removes a committed row. It returns [True]
    only for a lead the connection saw no row for and a dict with both
    coordinates, and then the transaction has been committed: the rows that
    were pending on the connection, if any, followed by the new row (id,
    latitude, longitude, 'lead'). On a connection with nothing pending, as
    at every call [process_leads] makes, exactly that one row has been
    committed. In every other outcome nothing has been. *)
Theorem save_geolocation_rows (w : World) (lead_id : Z) (geo_data : gmap string Json)
    (r : Result bool) (w' : World) :
  run_db (save_geolocation lead_id geo_data) w = (r, w') →
  lead_table w' = lead_table w
  ∧ (r = Return true →
     ¬ has_geolocation w lead_id
     ∧ ∃ latitude longitude,
         geo_data !! "latitude" = Some latitude
         ∧ geo_data !! "longitude" = Some longitude
         ∧ geolocation_table w'
           = geolocation_table w ++ pending w
             ++ [mkGeoRow lead_id latitude longitude "lead"]
         ∧ pending w' = []
         ∧ (pending w = [] →
            geolocation_table w'
            = geolocation_table w ++ [mkGeoRow lead_id latitude longitude "lead"]))
  ∧ (r ≠ Return true → geolocation_table w' = geolocation_table w).
Proof.
  intros Hrun.
  destruct (save_geolocation_outcome w lead_id geo_data r w' Hrun) as (Hlt & _ & Hr).
  split; [exact Hlt|]. split.
  - intros ->. destruct Hr as (Hno & lat & lng & Hlat & Hlng & Hgt & Hpd).
    split; [exact Hno|]. exists lat, lng. unfold visible in Hgt.
    do 2 (split; [done|]). split; [by rewrite Hgt, <- app_assoc|]. split; [exact Hpd|].
    intros Hnone. by rewrite Hgt, Hnone, app_nil_r.
  - intros Hne. destruct r as [[]|e]; [by destruct Hne | apply Hr | apply Hr].
Qed.

Lemma save_geolocation_rows_witness :
  geolocation_table
    (run_db (save_geolocation 1 (success_dict (JStr "12.9") (JStr "77.5") JNull JNull))
       Examples.world_demo).2
  = [mkGeoRow 2 JNull JNull "customer"; mkGeoRow 1 (JStr "12.9") (JStr "77.5") "lead"].
Proof.
  destruct (save_geolocation_rows Examples.world_demo 1
              (success_dict (JStr "12.9") (JStr "77.5") JNull JNull)
              (Return true)
              (run_db (save_geolocation 1 (success_dict (JStr "12.9") (JStr "77.5") JNull JNull))
                 Examples.world_demo).2 eq_refl)
    as (_ & Htrue & _).
  destruct (Htrue eq_refl) as (_ & lat & lng & Hlat & Hlng & _ & _ & Hone).
  rewrite (Hone eq_refl).
  vm_compute in Hlat, Hlng. injection Hlat as <-. injection Hlng as <-. reflexivity.
Defined.

Lemma save_geolocation_existing_run w lead_id geo_data r w' :
  has_geolocation w lead_id →
  run_db (save_geolocation lead_id geo_data) w = (r, w') →
  r ≠ Return true
  ∧ (log w' = log w ++ [EvSelect lead_id]
     ∨ log w' = log w ++ [EvSelect lead_id; EvRollback])
  ∧ (faults w = [] → r = Return false ∧ log w' = log w ++ [EvSelect lead_id]).
Proof.
  unfold save_geolocation, dict_index, has_geolocation.
  pose proof (head_filter_cases (λ g, g_id g = lead_id ∧ g_type g = "lead") (visible w))
    as Hhead.
  destruct w as [lt gt pd fl lg]. unfold visible in *.
  cbn [geolocation_table pending faults log] in *. intros Hex.
  destruct (head (filter _ (gt ++ pd))) as [row|] eqn:Hsel; [|by destruct Hhead].
  repeat (step_db; try rewrite Hsel); intros [= <- <-]; cbn;
    rewrite <- ?app_assoc;
    (split; [discriminate|]);
    (split; [(left; reflexivity) || (right; reflexivity)|]);
    intros Hf; try discriminate Hf; split; reflexivity.
Qed.

(** For a lead the connection already sees a row for, no INSERT and no
    COMMIT is ever issued and the result is never [True]: the function
    reads once and returns [False], or rolls back if the read fails. *)
Theorem save_geolocation_existing (w : World) (lead_id : Z)
    (geo_data : gmap string Json) (r : Result bool) (w' : World) :
  has_geolocation w lead_id →
  run_db (save_geolocation lead_id geo_data) w = (r, w') →
  r ≠ Return true
  ∧ geolocation_table w' = geolocation_table w
  ∧ (log w' = log w ++ [EvSelect lead_id]
     ∨ log w' = log w ++ [EvSelect lead_id; EvRollback])
  ∧ (faults w = [] → r = Return false ∧ log w' = log w ++ [EvSelect lead_id]).
Proof.
  intros Hex Hrun.
  destruct (save_geolocation_existing_run w lead_id geo_data r w' Hex Hrun)
    as (Hne & Hlog & Hok).
  destruct (save_geolocation_outcome w lead_id geo_data r w' Hrun) as (_ & _ & Hr).
  split; [exact Hne|]. split; [|split; [exact Hlog|]].
  - destruct r as [[]|e]; [by destruct Hne | apply Hr | apply Hr].
  - exact Hok.
Qed.

Lemma save_geolocation_existing_witness :
  (run_db (save_geolocation 2 (success_dict JNull JNull JNull JNull))
     (mkWorld [] [mkGeoRow 2 JNull JNull "lead"] [] [] [])).1
  = Return false.
Proof.
  apply (proj2 (proj2 (proj2 (save_geolocation_existing
           (mkWorld [] [mkGeoRow 2 JNull JNull "lead"] [] [] []) 2
           (success_dict JNull JNull JNull JNull) _ _
           ltac:(left; split; reflexivity)
           (surjective_pairing _))))).
  reflexivity.
Defined.

Lemma has_geolocation_after w w' row :
  visible w' = visible w ++ [row] → g_type row = "lead" →
  ∀ j, has_geolocation w' j ↔ has_geolocation w j ∨ j = g_id row.
Proof.
  intros Hvis Htype j. unfold has_geolocation. rewrite Hvis, Exists_app, Exists_cons.
  rewrite Exists_nil. split.
  - intros [Hold|[Hnew|Hnil]].
    + by left.
    + right. by destruct Hnew.
    + by destruct Hnil.
  - intros [Hold| ->]; [by left | right; left; by split].
Qed.

Lemma has_geolocation_lead_ids w j : j ∈ lead_ids w ↔ has_geolocation w j.
Proof.
  unfold lead_ids, has_geolocation. rewrite list_elem_of_fmap, Exists_exists. split.
  - intros (g & -> & Hg). apply list_elem_of_filter in Hg as [Htype Hg]. by exists g.
  - intros (g & Hg & <- & Htype). exists g. split; [reflexivity|].
    apply list_elem_of_filter. by split.
Qed.

Lemma lead_ids_snoc w w' row :
  visible w' = visible w ++ [row] → g_type row = "lead" →
  lead_ids w' = lead_ids w ++ [g_id row].
Proof.
  intros Hvis Htype. unfold lead_ids.
  rewrite Hvis, filter_app, fmap_app, filter_cons_True by exact Htype. reflexivity.
Qed.

Lemma lead_ids_visible w1 w2 : visible w1 = visible w2 → lead_ids w1 = lead_ids w2.
Proof. unfold lead_ids. by intros ->. Qed.

Lemma lead_ids_after_save w lead_id geo_data r w' :
  run_db (save_geolocation lead_id geo_data) w = (r, w') →
  lead_ids w' `prefix_of` lead_ids w
  ∨ (¬ has_geolocation w lead_id ∧ lead_ids w' = lead_ids w ++ [lead_id]).
Proof.
  intros Hrun.
  destruct (save_geolocation_outcome w lead_id geo_data r w' Hrun) as (_ & _ & Hr).
  assert (∀ row, g_id row = lead_id → g_type row = "lead" →
            visible w' = visible w ++ [row] →
            lead_ids w' = lead_ids w ++ [lead_id]) as Hnew.
  { intros row Hid Htype Hvis. by rewrite (lead_ids_snoc w w' row Hvis Htype), Hid. }
  assert (geolocation_table w' = geolocation_table w →
          pending w' = pending w ∨ pending w' = [] →
          lead_ids w' `prefix_of` lead_ids w) as Hold.
  { intros Hgt [Hpd|Hpd]; unfold lead_ids, visible; rewrite Hgt, Hpd; [done|].
    rewrite app_nil_r, filter_app, fmap_app. by eexists. }
  destruct r as [[]|e].
  - destruct Hr as (Hno & lat & lng & _ & _ & Hgt & Hpd). right. split; [exact Hno|].
    apply (Hnew (mkGeoRow lead_id lat lng "lead")); try done.
    unfold visible at 1. by rewrite Hgt, Hpd, app_nil_r.
  - destruct Hr as [Hgt Hpd]. left. by apply Hold.
  - destruct Hr as [Hgt [Hpd|(Hno & lat & lng & Hpd)]]; [left; apply Hold; auto|].
    right. split; [exact Hno|].
    apply (Hnew (mkGeoRow lead_id lat lng "lead")); try done.
    unfold visible. by rewrite Hgt, Hpd, app_assoc.
Qed.

Lemma NoDup_prefix {A} (l1 l2 : list A) : l1 `prefix_of` l2 → NoDup l2 → NoDup l1.
Proof. intros [k ->]. by intros [? _]%NoDup_app. Qed.

Lemma save_geolocation_nodup w lead_id geo_data r w' :
  NoDup (lead_ids w) →
  run_db (save_geolocation lead_id geo_data) w = (r, w') →
  NoDup (lead_ids w').
Proof.
  intros Hnd Hrun.
  destruct (lead_ids_after_save w lead_id geo_data r w' Hrun) as [Hpre|[Hno ->]].
  - by apply (NoDup_prefix _ _ Hpre).
  - apply NoDup_app. split; [exact Hnd|]. split; [|apply NoDup_singleton].
    intros j Hj ->%list_elem_of_singleton. by apply Hno, has_geolocation_lead_ids.
Qed.

(** If the connection sees at most one row of type 'lead' per id before a
    call of [save_geolocation], it still does after it, however the call
    ends: the function never creates a second row for a lead. *)
Theorem save_geolocation_one_row_per_lead (w : World) (lead_id : Z)
    (geo_data : gmap string Json) (r : Result bool) (w' : World) :
  NoDup (lead_ids w) →
  run_db (save_geolocation lead_id geo_data) w = (r, w') →
  NoDup (lead_ids w').
Proof.
  intros Hnd Hrun.
  destruct (lead_ids_after_save w lead_id geo_data r w' Hrun) as [[k Hk]|[Hno Hids]].
  - rewrite Hk in Hnd. by apply NoDup_app in Hnd as [? _].
  - rewrite Hids. apply NoDup_app. split; [exact Hnd|]. split; [|apply NoDup_singleton].
    intros j Hj Hin. apply list_elem_of_singleton in Hin as ->.
    apply Hno. by apply has_geolocation_lead_ids.
Qed.

Lemma save_geolocation_one_row_per_lead_witness :
  NoDup (lead_ids
           (run_db (save_geolocation 1 (success_dict JNull JNull JNull JNull))
              Examples.world_demo).2).
Proof.
  apply (save_geolocation_one_row_per_lead Examples.world_demo 1
           (success_dict JNull JNull JNull JNull) _ _
           ltac:(vm_compute; constructor) (surjective_pairing _)).
Defined.

Lemma filter_filter_and {A} (P Q : A → Prop) `{!∀ x, Decision (P x)}
    `{!∀ x, Decision (Q x)} (l : list A) :
  filter P (filter Q l) = filter (λ x, P x ∧ Q x) l.
Proof.
  induction l as [|x l IH]; [reflexivity|].
  rewrite !filter_cons. destruct (decide (Q x)) as [HQ|HQ].
  - rewrite filter_cons, IH.
    destruct (decide (P x)) as [HP|HP].
    + by rewrite decide_True.
    + by rewrite decide_False by tauto.
  - rewrite IH. by rewrite decide_False by tauto.
Qed.

(** Once [save_geolocation] has returned [True] for a lead, the query of
    [get_leads_without_geolocation] no longer selects it, and selects every
    other lead it selected before: a saved lead is not fetched again. *)
Theorem saved_lead_leaves_query (w : World) (lead_id : Z)
    (geo_data : gmap string Json) (w' : World) :
  run_db (save_geolocation lead_id geo_data) w = (Return true, w') →
  leads_query w' = filter (λ l, l_id l ≠ lead_id) (leads_query w).
Proof.
  intros Hrun.
  destruct (save_geolocation_outcome w lead_id geo_data _ w' Hrun)
    as (Hlt & _ & Hno & lat & lng & _ & _ & Hgt & Hpd).
  assert (visible w' = visible w ++ [mkGeoRow lead_id lat lng "lead"]) as Hvis.
  { unfold visible at 1. by rewrite Hgt, Hpd, app_nil_r. }
  rewrite !leads_query_filter, Hlt, filter_filter_and.
  apply filter_ext_in. intros l _.
  rewrite (has_geolocation_after w w' _ Hvis eq_refl (l_id l)). cbn [g_id]. tauto.
Qed.

Lemma saved_lead_leaves_query_witness :
  leads_query
    (run_db (save_geolocation 1 (success_dict JNull JNull JNull JNull))
       Examples.world_demo).2
  = [Examples.lead_b].
Proof.
  etrans.
  - apply (saved_lead_leaves_query Examples.world_demo 1
             (success_dict JNull JNull JNull JNull)).
    reflexivity.
  - reflexivity.
Defined.

(** Without database errors, saving a lead that has no row yet returns
    [True] after SELECT, INSERT and COMMIT, the commit making permanent
    what was pending on the connection and the new row: one more row when
    nothing was pending. Saving the lead again returns [False] after the
    SELECT alone, the table being as the first call left it. *)
Theorem save_geolocation_twice (w : World) (lead_id : Z) (geo_data : gmap string Json)
    (latitude longitude : Json) :
  faults w = [] →
  ¬ has_geolocation w lead_id →
  geo_data !! "latitude" = Some latitude →
  geo_data !! "longitude" = Some longitude →
  let row := mkGeoRow lead_id latitude longitude "lead" in
  let w1 := (run_db (save_geolocation lead_id geo_data) w).2 in
  let w2 := (run_db (save_geolocation lead_id geo_data) w1).2 in
  (run_db (save_geolocation lead_id geo_data) w).1 = Return true
  ∧ geolocation_table w1 = geolocation_table w ++ pending w ++ [row]
  ∧ (pending w = [] → geolocation_table w1 = geolocation_table w ++ [row])
  ∧ log w1 = log w ++ [EvSelect lead_id; EvInsert row; EvCommit]
  ∧ (run_db (save_geolocation lead_id geo_data) w1).1 = Return false
  ∧ geolocation_table w2 = geolocation_table w1
  ∧ log w2 = log w1 ++ [EvSelect lead_id].
Proof.
  intros Hf Hno Hlat Hlng. cbn zeta.
  rewrite (save_geolocation_no_faults w lead_id geo_data Hf).
  rewrite decide_False by exact Hno. rewrite Hlat, Hlng. cbn [fst snd].
  rewrite save_geolocation_no_faults by reflexivity.
  rewrite decide_True.
  - cbn [fst snd geolocation_table log add_log]. unfold visible.
    split; [reflexivity|]. split; [by rewrite <- app_assoc|].
    split; [by intros ->; rewrite app_nil_r|]. by repeat split.
  - unfold has_geolocation, visible. cbn [geolocation_table pending].
    rewrite app_nil_r. apply Exists_app. right. left. by split.
Qed.

Lemma save_geolocation_twice_witness :
  (run_db (save_geolocation 1 (success_dict JNull JNull JNull JNull))
     (run_db (save_geolocation 1 (success_dict JNull JNull JNull JNull))
        Examples.world_demo).2).1
  = Return false.
Proof.
  apply (save_geolocation_twice Examples.world_demo 1
           (success_dict JNull JNull JNull JNull) JNull JNull).
  - reflexivity.
  - vm_compute. intros H. inversion H as [? ? [H1 H2]|? ? H1]; [discriminate|].
    inversion H1.
  - reflexivity.
  - reflexivity.
Defined.

(** Without database errors, a dict that lacks 'latitude' or 'longitude'
    (every error dict of [get_geolocation] does) is not inserted: the
    lookup fails after the SELECT, the handler rolls back, and the result
    is [False] with the table unchanged. *)
Theorem save_geolocation_missing_key (w : World) (lead_id : Z)
    (geo_data : gmap string Json) :
  faults w = [] →
  ¬ has_geolocation w lead_id →
  geo_data !! "latitude" = None ∨ geo_data !! "longitude" = None →
  run_db (save_geolocation lead_id geo_data) w
  = (Return false,
     mkWorld (lead_table w) (geolocation_table w) [] []
             (log w ++ [EvSelect lead_id; EvRollback])).
Proof.
  intros Hf Hno Hmiss.
  rewrite (save_geolocation_no_faults w lead_id geo_data Hf).
  rewrite decide_False by exact Hno.
  destruct Hmiss as [->| ->]; [reflexivity|].
  by destruct (geo_data !! "latitude").
Qed.

Lemma save_geolocation_missing_key_witness :
  (run_db (save_geolocation 1 {[ "error" := JStr "ZERO_RESULTS"; "message" := JNull ]})
     Examples.world_demo).1
  = Return false.
Proof.
  rewrite (save_geolocation_missing_key Examples.world_demo 1
             {[ "error" := JStr "ZERO_RESULTS"; "message" := JNull ]}).
  - reflexivity.
  - reflexivity.
  - vm_compute. intros H. inversion H as [? ? [H1 H2]|? ? H1]; [discriminate|].
    inversion H1.
  - left. reflexivity.
Defined.

(** ** process_leads *)

Lemma dict_nonempty (d : gmap string Json) key x :
  d !! key = Some x → bool_decide (d = ∅) = false.
Proof.
  intros Hd. apply bool_decide_eq_false_2. intros ->. by rewrite lookup_empty in Hd.
Qed.

Lemma run_bind {A B} (m : DbM A) (k : A → DbM B) w :
  run_db (m ≫= k) w
  = match run_db m w with
    | (Return a, w') => run_db (k a) w'
    | (Raise e, w') => (Raise e, w')
    end.
Proof. reflexivity. Qed.

Lemma run_lift {A} (r : Result A) w : run_db (lift r) w = (r, w).
Proof. reflexivity. Qed.

Lemma run_ret {A} (a : A) w : run_db (mret a) w = (Return a, w).
Proof. reflexivity. Qed.

Lemma run_geocode env address w :
  run_db (geocode env address) w
  = (Return (get_geolocation env address), add_log (EvGeocode address) w).
Proof. reflexivity. Qed.

Lemma run_tell ev w : run_db (tell ev) w = (Return (), add_log ev w).
Proof. reflexivity. Qed.

(** Run the binds whose first computation is known. *)
Ltac run_steps :=
  repeat progress (rewrite ?run_bind, ?run_lift, ?run_ret; cbv beta iota).

Lemma Forall_statement_not_session evs :
  Forall is_statement evs → Forall (λ ev, is_session ev = false) evs
  ∧ omap geocoded evs = [] ∧ filter is_sleep evs = [].
Proof.
  induction 1 as [|ev evs Hev _ (IH1 & IH2 & IH3)]; [by repeat split|].
  destruct ev; try done; cbn; rewrite ?IH2; (split; [by constructor|]); split; try done.
Qed.

Lemma record_entry_spec lead_id geo_data results w r w' :
  pending w = [] →
  run_db
    (if negb (bool_decide (geo_data = ∅)) && bool_decide (is_Some (geo_data !! "latitude"))
     then
       _ ← lift (dict_index geo_data "latitude");
       _ ← lift (dict_index geo_data "longitude");
       _ ← lift (dict_index geo_data "formatted_address");
       saved ← save_geolocation lead_id geo_data;
       if saved : bool then
         latitude ← lift (dict_index geo_data "latitude");
         longitude ← lift (dict_index geo_data "longitude");
         formatted_address ← lift (dict_index geo_data "formatted_address");
         mret (results ++ [EntrySuccess lead_id latitude longitude formatted_address])
       else
         mret (results ++ [EntrySkipped lead_id "Already exists in database"])
     else
       mret (results ++ [EntryFailed lead_id
                           (default (JStr "Unknown") (geo_data !! "error"))
                           (default (JStr "N/A") (geo_data !! "message"))])) w
  = (r, w') →
  lead_table w' = lead_table w
  ∧ (NoDup (lead_ids w) → NoDup (lead_ids w'))
  ∧ (∃ evs, log w' = log w ++ evs ∧ Forall is_statement evs)
  ∧ match r with
    | Return results' =>
        ∃ e, results' = results ++ [e]
          ∧ entry_id e = lead_id
          ∧ geo_matches geo_data e
          ∧ geolocation_table w' = geolocation_table w ++ option_list (entry_row e)
          ∧ pending w' = []
          ∧ (is_Some (entry_row e) → ¬ has_geolocation w lead_id)
    | Raise _ => geolocation_table w' = geolocation_table w
    end.
Proof.
  intros Hpd.
  destruct (geo_data !! "latitude") as [lat|] eqn:Hlat.
  2:{ rewrite (bool_decide_eq_false_2 (is_Some None)) by (intros [? [=]]).
      rewrite andb_false_r, run_ret. intros [= <- <-].
      split; [reflexivity|]. split; [done|]. split; [exists []; by rewrite app_nil_r|].
      eexists. split; [reflexivity|]. cbn. rewrite Hlat, app_nil_r.
      do 4 (split; [done|]). by intros [? [=]]. }
  rewrite (dict_nonempty _ _ _ Hlat), (bool_decide_eq_true_2 (is_Some (Some lat))) by eauto.
  cbn [negb andb]. unfold dict_index. rewrite Hlat.
  destruct (geo_data !! "longitude") as [lng|] eqn:Hlng.
  2:{ run_steps. intros [= <- <-].
      split; [reflexivity|]. split; [done|]. split; [exists []; by rewrite app_nil_r|].
      reflexivity. }
  destruct (geo_data !! "formatted_address") as [fa|] eqn:Hfa.
  2:{ run_steps. intros [= <- <-].
      split; [reflexivity|]. split; [done|]. split; [exists []; by rewrite app_nil_r|].
      reflexivity. }
  run_steps.
  destruct (run_db (save_geolocation lead_id geo_data) w) as [rs w1] eqn:Hsave.
  destruct (save_geolocation_outcome _ _ _ _ _ Hsave) as (Hlt & (evs & Hlog & Hevs) & Hr).
  assert (Hstmts : ∃ evs, log w1 = log w ++ evs ∧ Forall is_statement evs).
  { exists (EvSelect lead_id :: evs). split; [exact Hlog|]. by constructor. }
  assert (Hnd : NoDup (lead_ids w) → NoDup (lead_ids w1)).
  { intros Hnd. exact (save_geolocation_nodup _ _ _ _ _ Hnd Hsave). }
  destruct rs as [[]|e].
  - run_steps. intros [= <- <-].
    destruct Hr as (Hno & lat' & lng' & Hlat' & Hlng' & Hgt & Hpd').
    rewrite Hlat in Hlat'. rewrite Hlng in Hlng'. injection Hlat' as <-. injection Hlng' as <-.
    split; [exact Hlt|]. split; [exact Hnd|]. split; [exact Hstmts|].
    eexists. split; [reflexivity|]. cbn. unfold visible in Hgt. rewrite Hpd, app_nil_r in Hgt.
    done.
  - run_steps. intros [= <- <-]. destruct Hr as (Hgt & Hpd').
    split; [exact Hlt|]. split; [exact Hnd|]. split; [exact Hstmts|].
    eexists. split; [reflexivity|]. cbn. rewrite Hlat, app_nil_r.
    do 3 (split; [by eauto|]). split; [|by intros [? [=]]].
    rewrite Hpd in Hpd'. by destruct Hpd'.
  - intros [= <- <-]. destruct Hr as (Hgt & _).
    split; [exact Hlt|]. split; [exact Hnd|]. split; [exact Hstmts|]. exact Hgt.
Qed.

Lemma process_lead_spec env total idx lead results w r w' :
  pending w = [] →
  run_db (process_lead env total idx lead results) w = (r, w') →
  lead_table w' = lead_table w
  ∧ (NoDup (lead_ids w) → NoDup (lead_ids w'))
  ∧ (∃ evs, log w' = log w ++ evs
       ∧ Forall (λ ev, is_session ev = false) evs
       ∧ (∀ res, r = Return res →
            ∃ address, build_address_string (lead_dict lead) = Return address
              ∧ omap geocoded evs = [address]
              ∧ length (filter is_sleep evs)
                = if bool_decide (idx < total)%nat then 1%nat else 0%nat))
  ∧ match r with
    | Return results' =>
        ∃ e, results' = results ++ [e]
          ∧ entry_matches env lead e
          ∧ geolocation_table w' = geolocation_table w ++ option_list (entry_row e)
          ∧ pending w' = []
          ∧ (is_Some (entry_row e) → ¬ has_geolocation w (l_id lead))
    | Raise _ => geolocation_table w' = geolocation_table w
    end.
Proof.
  intros Hpd. unfold process_lead. cbv zeta.
  destruct (build_address_string (lead_dict lead)) as [address|e0] eqn:Hbuild.
  2:{ run_steps. intros [= <- <-].
      split; [reflexivity|]. split; [done|]. split; [|reflexivity].
      exists []. rewrite app_nil_r. split; [reflexivity|]. split; [constructor|].
      intros res [=]. }
  run_steps. rewrite run_geocode. cbv beta iota. rewrite run_bind.
  set (w0 := add_log (EvGeocode address) w).
  set (geo_data := get_geolocation env address).
  match goal with
  | |- context [run_db ?m w0] => destruct (run_db m w0) as [rb w1] eqn:Hbody
  end.
  destruct (record_entry_spec (l_id lead) geo_data results w0 rb w1 Hpd Hbody)
    as (Hlt & Hnd & (evs & Hlog & Hevs) & Hr).
  destruct (Forall_statement_not_session evs Hevs) as (Hses & Hgeo & Hsl).
  destruct rb as [results'|e].
  2:{ intros [= <- <-]. split; [exact Hlt|]. split; [exact Hnd|]. split; [|exact Hr].
      exists (EvGeocode address :: evs). split; [|split].
      - rewrite Hlog. unfold w0. cbn. by rewrite <- app_assoc.
      - by constructor.
      - intros res [=]. }
  destruct Hr as (e & -> & Hid & Hmatch & Hgt & Hpd' & Hno).
  destruct (bool_decide (idx < total)%nat); run_steps; rewrite ?run_tell; cbv beta iota;
    run_steps; intros [= <- <-].
  - split; [exact Hlt|]. split; [exact Hnd|]. split.
    + exists (EvGeocode address :: evs ++ [EvSleep]). split; [|split].
      * cbn. rewrite Hlog. unfold w0. cbn. by rewrite <- !app_assoc.
      * constructor; [done|]. apply Forall_app. split; [exact Hses|by constructor].
      * intros res _. exists address. split; [done|].
        change (EvGeocode address :: evs ++ [EvSleep])
          with ([EvGeocode address] ++ evs ++ [EvSleep]).
        rewrite !omap_app, !filter_app, Hgeo, Hsl. by split.
    + exists e. split; [done|]. split; [|by repeat split].
      split; [exact Hid|]. exists address. by split.
  - split; [exact Hlt|]. split; [exact Hnd|]. split.
    + exists (EvGeocode address :: evs). split; [|split].
      * rewrite Hlog. unfold w0. cbn. by rewrite <- !app_assoc.
      * by constructor.
      * intros res _. exists address. split; [done|].
        change (EvGeocode address :: evs) with ([EvGeocode address] ++ evs).
        rewrite !omap_app, !filter_app, Hgeo, Hsl. by split.
    + exists e. split; [done|]. split; [|by repeat split].
      split; [exact Hid|]. exists address. by split.
Qed.

Lemma success_dict_lookups lat lng fa pid :
  success_dict lat lng fa pid !! "latitude" = Some lat
  ∧ success_dict lat lng fa pid !! "longitude" = Some lng
  ∧ success_dict lat lng fa pid !! "formatted_address" = Some fa.
Proof. repeat split; reflexivity. Qed.

Lemma lead_dict_columns l :
  lead_get (lead_dict l) "address" = l_address l
  ∧ lead_get (lead_dict l) "city" = l_city l
  ∧ lead_get (lead_dict l) "state" = l_state l
  ∧ lead_get (lead_dict l) "pincode" = l_pincode l.
Proof. repeat split; reflexivity. Qed.

Lemma located_answer_dict env address lat lng fa pid :
  located_answer env address lat lng fa pid →
  get_geolocation env address = success_dict lat lng fa pid.
Proof.
  intros H. unfold get_geolocation.
  by rewrite (GeolocationSpec.located_answer_body env address lat lng fa pid H).
Qed.

Lemma geo_matches_answer env address e :
  geo_matches (get_geolocation env address) e →
  match e with
  | EntrySuccess _ lat lng fa => ∃ pid, located_answer env address lat lng fa pid
  | EntrySkipped _ reason =>
      reason = "Already exists in database"
      ∧ ∃ lat lng fa pid, located_answer env address lat lng fa pid
  | EntryFailed _ error message =>
      (∀ lat lng fa pid, ¬ located_answer env address lat lng fa pid)
      ∧ get_geolocation env address !! "error" = Some error
      ∧ get_geolocation env address !! "message" = Some message
  end.
Proof.
  destruct (GeolocationSpec.get_geolocation_cases env address)
    as [(lat & lng & fa & pid & Hans & Hd)|[[Herr Hmsg] Hlat]].
  - rewrite Hd. destruct (success_dict_lookups lat lng fa pid) as (L1 & L2 & L3).
    destruct e as [i lat' lng' fa'|i reason|i error message]; cbn [geo_matches].
    + rewrite L1, L2, L3. intros ([= <-] & [= <-] & [= <-]). by exists pid.
    + intros [_ ->]. split; [done|]. by exists lat, lng, fa, pid.
    + rewrite L1. by intros [[=] _].
  - apply not_elem_of_dom in Hlat.
    apply elem_of_dom in Herr as [x Hx]. apply elem_of_dom in Hmsg as [y Hy].
    destruct e as [i lat' lng' fa'|i reason|i error message]; cbn [geo_matches].
    + rewrite Hlat. by intros [[=] _].
    + rewrite Hlat. by intros [[? [=]] _].
    + rewrite Hx, Hy. cbn [default]. intros (_ & -> & ->). split; [|done].
      intros lat lng fa pid Hans.
      rewrite (located_answer_dict _ _ _ _ _ _ Hans) in Hlat. discriminate.
Qed.

(** One turn of the loop that completes appends exactly one entry, for the
    lead's id. A success entry carries the coordinates and the formatted
    address of the first result of the API's answer for the address built
    from the lead, the connection saw no row for the lead before, and the
    row (id, latitude, longitude, 'lead') is the one row added. A skipped
    or failed entry adds no row; a failed entry carries the 'error' and
    'message' of the dict [get_geolocation] returned, so the defaults
    'Unknown' and 'N/A' are never reported. *)
Theorem process_lead_entry (env : Env) (total idx : nat) (lead : LeadRow)
    (results : list Entry) (w : World) (results' : list Entry) (w' : World) :
  pending w = [] →
  run_db (process_lead env total idx lead results) w = (Return results', w') →
  ∃ e address,
    results' = results ++ [e] ∧ entry_id e = l_id lead
    ∧ build_address_string (lead_dict lead) = Return address
    ∧ match e with
      | EntrySuccess _ lat lng fa =>
          (∃ pid, located_answer env address lat lng fa pid)
          ∧ ¬ has_geolocation w (l_id lead)
          ∧ geolocation_table w'
            = geolocation_table w ++ [mkGeoRow (l_id lead) lat lng "lead"]
      | EntrySkipped _ reason =>
          reason = "Already exists in database"
          ∧ (∃ lat lng fa pid, located_answer env address lat lng fa pid)
          ∧ geolocation_table w' = geolocation_table w
      | EntryFailed _ error message =>
          (∀ lat lng fa pid, ¬ located_answer env address lat lng fa pid)
          ∧ get_geolocation env address !! "error" = Some error
          ∧ get_geolocation env address !! "message" = Some message
          ∧ geolocation_table w' = geolocation_table w
      end.
Proof.
  intros Hpd Hrun.
  destruct (process_lead_spec env total idx lead results w _ w' Hpd Hrun)
    as (_ & _ & _ & e & -> & (Hid & address & Hbuild & Hgm) & Hgt & _ & Hno).
  exists e, address. do 3 (split; [done|]).
  apply geo_matches_answer in Hgm.
  destruct e as [i lat lng fa|i reason|i error message];
    cbn [entry_row option_list entry_id] in *.
  - subst i. split; [exact Hgm|]. split; [by apply Hno|exact Hgt].
  - rewrite app_nil_r in Hgt. by destruct Hgm.
  - rewrite app_nil_r in Hgt. by destruct Hgm as (? & ? & ?).
Qed.

Lemma process_lead_entry_witness :
  ∃ e, entry_id e = 1
    ∧ (run_db (process_lead Examples.geo_env 1 1 Examples.lead_a []) Examples.world_demo).1
      = Return [e].
Proof.
  destruct (process_lead_entry Examples.geo_env 1 1 Examples.lead_a [] Examples.world_demo
              _ _ eq_refl eq_refl) as (e & address & He & Hid & _).
  exists e. split; [exact Hid|]. injection He as <-. reflexivity.
Defined.

Lemma save_geolocation_select_fails w lead_id geo_data msg rest :
  faults w = Some msg :: rest → (∀ m, head rest ≠ Some (Some m)) →
  run_db (save_geolocation lead_id geo_data) w
  = (Return false,
     mkWorld (lead_table w) (geolocation_table w) [] (tail rest)
             (log w ++ [EvSelect lead_id; EvRollback])).
Proof.
  unfold save_geolocation. destruct w as [lt gt pd fl lg]. cbn [faults]. intros -> Hrest.
  destruct rest as [|[m|] rest]; [| by destruct (Hrest m) |];
    step_db; cbn; rewrite <- ?app_assoc; reflexivity.
Qed.

(** When the SELECT of [save_geolocation] fails and the rollback goes
    through, a lead that was geocoded is recorded as skipped with the
    reason 'Already exists in database', whether or not it has a row;
    nothing is inserted, and the loop goes on. *)
Theorem db_error_reported_as_skipped (env : Env) (total idx : nat) (lead : LeadRow)
    (results : list Entry) (w : World) (address : string) (lat lng fa pid : Json)
    (msg : string) (rest : list (option string)) :
  build_address_string (lead_dict lead) = Return address →
  located_answer env address lat lng fa pid →
  faults w = Some msg :: rest →
  (∀ m, head rest ≠ Some (Some m)) →
  let out := run_db (process_lead env total idx lead results) w in
  out.1 = Return (results ++ [EntrySkipped (l_id lead) "Already exists in database"])
  ∧ geolocation_table out.2 = geolocation_table w
  ∧ log out.2
    = log w ++ [EvGeocode address; EvSelect (l_id lead); EvRollback]
      ++ (if bool_decide (idx < total)%nat then [EvSleep] else []).
Proof.
  intros Hbuild Hans Hf Hrest. cbv zeta. unfold process_lead. cbv zeta.
  rewrite Hbuild. run_steps. rewrite run_geocode. cbv beta iota.
  rewrite (located_answer_dict _ _ _ _ _ _ Hans).
  destruct (success_dict_lookups lat lng fa pid) as (L1 & L2 & L3).
  rewrite (dict_nonempty _ _ _ L1), (bool_decide_eq_true_2 _ (mk_is_Some _ _ L1)).
  cbn [negb andb]. unfold dict_index. rewrite L1, L2, L3. run_steps.
  rewrite (save_geolocation_select_fails (add_log (EvGeocode address) w) _ _ msg rest Hf Hrest).
  cbv beta iota. run_steps.
  destruct (bool_decide (idx < total)%nat); run_steps; rewrite ?run_tell; cbv beta iota;
    run_steps; cbn; rewrite <- ?app_assoc; by repeat split.
Qed.

Lemma db_error_reported_as_skipped_witness :
  (run_db (process_lead Examples.geo_env 1 1 Examples.lead_a []) Examples.world_faulty).1
  = Return [EntrySkipped 1 "Already exists in database"].
Proof.
  refine (proj1 (db_error_reported_as_skipped Examples.geo_env 1 1 Examples.lead_a []
                   Examples.world_faulty "12 MG Road, Bengaluru, Karnataka, 560001, India"
                   (JNum (QArith_base.Qmake 129716 10000))
                   (JNum (QArith_base.Qmake 775946 10000))
                   (JStr "Bengaluru, Karnataka, India")
                   (JStr "ChIJbU60yXAWrjsR4E9-UejD3_g")
                   "server closed the connection unexpectedly" [] _ _ eq_refl _)).
  - vm_compute. reflexivity.
  - exists (mkResponse 200 "" (Return (JObj Examples.geo_answer))),
           Examples.geo_answer, Examples.geo_first, [],
           {[ "location" := JObj {[ "lat" := JNum (QArith_base.Qmake 129716 10000);
                                    "lng" := JNum (QArith_base.Qmake 775946 10000) ]} ]},
           {[ "lat" := JNum (QArith_base.Qmake 129716 10000);
              "lng" := JNum (QArith_base.Qmake 775946 10000) ]}.
    repeat split; try reflexivity. simpl. lia.
  - intros m. discriminate.
Defined.

Lemma process_loop_spec env total leads : ∀ idx results w r w',
  pending w = [] →
  run_db (process_loop env total idx leads results) w = (r, w') →
  lead_table w' = lead_table w
  ∧ (NoDup (lead_ids w) → NoDup (lead_ids w'))
  ∧ (∃ evs, log w' = log w ++ evs
       ∧ Forall (λ ev, is_session ev = false) evs
       ∧ (∀ res, r = Return res →
            Forall2 builds_address leads (omap geocoded evs)
            ∧ length (filter is_sleep evs) = (length leads `min` (total - idx))%nat))
  ∧ ∃ es, Forall2 (entry_matches env) (take (length es) leads) es
      ∧ geolocation_table w' = geolocation_table w ++ omap entry_row es
      ∧ match r with
        | Return results' =>
            results' = results ++ es ∧ length es = length leads ∧ pending w' = []
        | Raise _ => (length es < length leads)%nat
        end.
Proof.
  induction leads as [|lead leads IH]; intros idx results w r w' Hpd.
  - cbn [process_loop]. rewrite run_ret. intros [= <- <-].
    split; [reflexivity|]. split; [done|]. split.
    + exists []. rewrite app_nil_r. split; [done|]. split; [done|].
      intros res _. split; [constructor | reflexivity].
    + exists []. split; [constructor|]. split; [exact (eq_sym (app_nil_r _))|].
      split; [exact (eq_sym (app_nil_r _))|]. by split.
  - cbn [process_loop]. rewrite run_bind.
    destruct (run_db (process_lead env total idx lead results) w) as [r1 w1] eqn:Hlead.
    destruct (process_lead_spec _ _ _ _ _ _ _ _ Hpd Hlead)
      as (Hlt1 & Hnd1 & (evs1 & Hlog1 & Hses1 & Hret1) & Hr1).
    destruct r1 as [results1|e1].
    2:{ intros [= <- <-]. split; [exact Hlt1|]. split; [exact Hnd1|]. split.
        - exists evs1. split; [done|]. split; [done|]. intros res [=].
        - exists []. rewrite app_nil_r. split; [constructor|]. split; [done|].
          cbn. lia. }
    destruct Hr1 as (e & -> & Hmatch & Hgt1 & Hpd1 & _).
    destruct (Hret1 _ eq_refl) as (address & Hbuild & Hgeo1 & Hsl1).
    intros Hrest.
    destruct (IH _ _ _ _ _ Hpd1 Hrest)
      as (Hlt2 & Hnd2 & (evs2 & Hlog2 & Hses2 & Hret2) & es & Hes & Hgt2 & Hr2).
    split; [by rewrite Hlt2|]. split; [by auto|]. split.
    + exists (evs1 ++ evs2). split; [by rewrite Hlog2, Hlog1, app_assoc|].
      split; [by apply Forall_app|].
      intros res Hres. destruct (Hret2 _ Hres) as (Hgeo2 & Hsl2).
      rewrite omap_app, filter_app, length_app, Hgeo1, Hsl1, Hsl2. split.
      * by constructor.
      * cbn [length]. case_bool_decide; lia.
    + exists (e :: es). split; [|split].
      * cbn [length take]. by constructor.
      * rewrite Hgt2, Hgt1, <- app_assoc. f_equal. simpl. by destruct (entry_row e).
      * destruct r as [results'|e2].
        -- destruct Hr2 as (-> & Hlen & Hpd2). rewrite <- app_assoc.
           split; [done|]. split; [|done]. cbn [length]. by rewrite Hlen.
        -- cbn [length]. lia.
Qed.

Lemma session_call_spec ev w r w' :
  run_db (db_call ev (λ w, ((), set_pending [] w))) w = (r, w') →
  lead_table w' = lead_table w
  ∧ geolocation_table w' = geolocation_table w
  ∧ log w' = log w ++ [ev]
  ∧ match r with
    | Return _ => pending w' = []
    | Raise _ => pending w' = pending w ∧ ∃ msg rest, faults w = Some msg :: rest
    end.
Proof.
  destruct w as [lt gt pd fl lg]. unfold db_call. cbn [run_db]. unfold add_log.
  cbn [faults]. destruct fl as [|[msg|] rest]; intros [= <- <-]; cbn; repeat split; eauto.
Qed.

Lemma leads_query_visible w1 w2 :
  lead_table w1 = lead_table w2 → visible w1 = visible w2 →
  leads_query w1 = leads_query w2.
Proof. unfold leads_query, query_main, query_ct. by intros -> ->. Qed.

Lemma lead_ids_committed w w' :
  geolocation_table w' = geolocation_table w →
  lead_ids (set_pending [] w') = lead_ids (set_pending [] w).
Proof. intros Hgt. apply lead_ids_visible. unfold visible. cbn. by rewrite Hgt. Qed.

Lemma NoDup_lead_ids_committed w :
  NoDup (lead_ids w) → NoDup (lead_ids (set_pending [] w)).
Proof.
  unfold lead_ids, visible. cbn. rewrite app_nil_r, filter_app, fmap_app.
  by intros [? _]%NoDup_app.
Qed.

Lemma process_leads_settings env host limit w :
  setting_truthy host && setting_truthy (GOOGLE_API_KEY env) = false →
  run_db (process_leads env host limit) w = (Return None, w).
Proof. unfold process_leads. by intros ->. Qed.

Lemma process_leads_spec env host limit w r w' :
  setting_truthy host && setting_truthy (GOOGLE_API_KEY env) = true →
  run_db (process_leads env host limit) w = (r, w') →
  lead_table w' = lead_table w
  ∧ (NoDup (lead_ids (set_pending [] w)) → NoDup (lead_ids (set_pending [] w')))
  ∧ ((log w' = log w ++ [EvDbConnect] ∧ r = Return None
      ∧ geolocation_table w' = geolocation_table w
      ∧ ∃ msg rest, faults w = Some msg :: rest)
     ∨ ∃ mid es,
         log w' = log w ++ EvDbConnect :: mid ++ [EvClose]
         ∧ Forall (λ ev, is_session ev = false) mid
         ∧ Forall2 (entry_matches env) (take (length es) (run_leads limit w)) es
         ∧ geolocation_table w' = geolocation_table w ++ omap entry_row es
         ∧ ∀ results, r = Return (Some results) →
             results = es ∧ length es = length (run_leads limit w)
             ∧ run_leads limit w ≠ []
             ∧ Forall2 builds_address (run_leads limit w) (omap geocoded mid)
             ∧ length (filter is_sleep mid) = (length (run_leads limit w) - 1)%nat
             ∧ pending w' = []).
Proof.
  intros Hset. unfold process_leads. rewrite Hset. cbn [negb run_db].
  destruct (run_db connect w) as [rc wc] eqn:Hconnect.
  destruct (session_call_spec _ _ _ _ Hconnect) as (Hlt0 & Hgt0 & Hlog0 & Hr0).
  destruct rc as [[]|e0].
  2:{ intros [= <- <-]. split; [exact Hlt0|].
      split; [by rewrite (lead_ids_committed w wc Hgt0)|]. left.
      destruct Hr0 as (_ & Hf). done. }
  unfold try_finally, try_except. cbn [run_db]. rewrite run_bind.
  destruct (run_db get_leads_without_geolocation wc) as [rf wf] eqn:Hfetch.
  destruct (get_leads_spec _ _ _ Hfetch) as (Hlt1 & Hgt1 & Hpd1 & Hlog1 & Hr1).
  rewrite Hr0 in Hpd1.
  assert (Hq : leads_query wc = leads_query (set_pending [] w)).
  { apply leads_query_visible; [exact Hlt0|]. unfold visible. cbn. by rewrite Hr0, Hgt0. }
  assert (Hclose : ∀ (rm : Result (option (list Entry))) wm mid es,
    lead_table wm = lead_table w →
    (NoDup (lead_ids (set_pending [] w)) → NoDup (lead_ids wm)) →
    log wm = log w ++ EvDbConnect :: mid →
    Forall (λ ev, is_session ev = false) mid →
    Forall2 (entry_matches env) (take (length es) (run_leads limit w)) es →
    geolocation_table wm = geolocation_table w ++ omap entry_row es →
    (∀ results, rm = Return (Some results) →
       results = es ∧ length es = length (run_leads limit w)
       ∧ run_leads limit w ≠ []
       ∧ Forall2 builds_address (run_leads limit w) (omap geocoded mid)
       ∧ length (filter is_sleep mid) = (length (run_leads limit w) - 1)%nat) →
    match run_db close wm with
    | (Return _, w'') => (rm, w'')
    | (Raise e, w'') => (Raise e, w'')
    end = (r, w') →
    lead_table w' = lead_table w
    ∧ (NoDup (lead_ids (set_pending [] w)) → NoDup (lead_ids (set_pending [] w')))
    ∧ ((log w' = log w ++ [EvDbConnect] ∧ r = Return None
        ∧ geolocation_table w' = geolocation_table w
        ∧ ∃ msg rest, faults w = Some msg :: rest)
       ∨ ∃ mid es,
           log w' = log w ++ EvDbConnect :: mid ++ [EvClose]
           ∧ Forall (λ ev, is_session ev = false) mid
           ∧ Forall2 (entry_matches env) (take (length es) (run_leads limit w)) es
           ∧ geolocation_table w' = geolocation_table w ++ omap entry_row es
           ∧ ∀ results, r = Return (Some results) →
               results = es ∧ length es = length (run_leads limit w)
               ∧ run_leads limit w ≠ []
               ∧ Forall2 builds_address (run_leads limit w) (omap geocoded mid)
               ∧ length (filter is_sleep mid) = (length (run_leads limit w) - 1)%nat
               ∧ pending w' = [])).
  { intros rm wm mid es Hlt Hnd Hlog Hses Hes Hgt Hret.
    destruct (run_db close wm) as [rcl wcl] eqn:Hcl.
    destruct (session_call_spec _ _ _ _ Hcl) as (Hlt2 & Hgt2 & Hlog2 & Hr2).
    assert (Hfin : lead_table wcl = lead_table w
      ∧ (NoDup (lead_ids (set_pending [] w)) → NoDup (lead_ids (set_pending [] wcl)))
      ∧ log wcl = log w ++ EvDbConnect :: mid ++ [EvClose]
      ∧ geolocation_table wcl = geolocation_table w ++ omap entry_row es).
    { split; [by rewrite Hlt2|]. split; [|split].
      - intros H. rewrite (lead_ids_committed wm wcl Hgt2).
        by apply NoDup_lead_ids_committed, Hnd.
      - rewrite Hlog2, Hlog. by rewrite <- app_assoc.
      - by rewrite Hgt2. }
    destruct Hfin as (F1 & F2 & F3 & F4).
    destruct rcl as [[]|ecl]; intros [= <- <-].
    - split; [exact F1|]. split; [exact F2|]. right. exists mid, es.
      do 4 (split; [done|]). intros results Hres.
      destruct (Hret results Hres) as (? & ? & ? & ? & ?). by repeat split.
    - split; [exact F1|]. split; [exact F2|]. right. exists mid, es.
      do 4 (split; [done|]). intros results [=]. }
  assert (Hnd1 : NoDup (lead_ids (set_pending [] w)) → NoDup (lead_ids wf)).
  { intros H. rewrite (lead_ids_visible wf (set_pending [] w)); [done|].
    unfold visible. cbn. by rewrite Hpd1, Hgt1, Hgt0. }
  destruct rf as [all_leads|ef].
  2:{ run_steps. apply (Hclose _ _ [EvFetchLeads] []).
      - by rewrite Hlt1.
      - exact Hnd1.
      - by rewrite Hlog1, Hlog0, <- app_assoc.
      - by repeat constructor.
      - constructor.
      - by rewrite Hgt1, Hgt0, app_nil_r.
      - intros results [=]. }
  subst all_leads. rewrite Hq. fold (selected limit (leads_query (set_pending [] w))).
  fold (run_leads limit w).
  destruct (run_leads limit w) as [|lead leads] eqn:Hleads.
  { run_steps. apply (Hclose _ _ [EvFetchLeads] []).
    - by rewrite Hlt1.
    - exact Hnd1.
    - by rewrite Hlog1, Hlog0, <- app_assoc.
    - by repeat constructor.
    - constructor.
    - by rewrite Hgt1, Hgt0, app_nil_r.
    - intros results [=]. }
  cbv beta iota. rewrite run_bind.
  destruct (run_db (process_loop env (length (lead :: leads)) 1 (lead :: leads) []) wf)
    as [rl wl] eqn:Hloop.
  destruct (process_loop_spec _ _ _ _ _ _ _ _ Hpd1 Hloop)
    as (Hlt3 & Hnd3 & (evs & Hlog3 & Hses3 & Hret3) & es & Hes & Hgt3 & Hr3).
  destruct rl as [results|el]; run_steps.
  - apply (Hclose _ _ (EvFetchLeads :: evs) es).
    + by rewrite Hlt3, Hlt1.
    + auto.
    + rewrite Hlog3, Hlog1, Hlog0. by rewrite <- !app_assoc.
    + by constructor.
    + exact Hes.
    + by rewrite Hgt3, Hgt1, Hgt0.
    + intros ? [= <-]. destruct Hr3 as (-> & Hlen & _).
      destruct (Hret3 _ eq_refl) as (Hgeo & Hsl).
      split; [done|]. split; [done|]. split; [done|].
      split; [exact Hgeo|].
      transitivity (length (lead :: leads) `min` (length (lead :: leads) - 1))%nat;
        [exact Hsl | cbn [length]; lia].
  - apply (Hclose _ _ (EvFetchLeads :: evs) es).
    + by rewrite Hlt3, Hlt1.
    + auto.
    + rewrite Hlog3, Hlog1, Hlog0. by rewrite <- !app_assoc.
    + by constructor.
    + exact Hes.
    + by rewrite Hgt3, Hgt1, Hgt0.
    + intros ? [=].
Qed.

Lemma omap_geocoded_session mid :
  omap geocoded (EvDbConnect :: mid ++ [EvClose]) = omap geocoded mid
  ∧ filter is_sleep (EvDbConnect :: mid ++ [EvClose]) = filter is_sleep mid.
Proof.
  change (EvDbConnect :: mid ++ [EvClose]) with ([EvDbConnect] ++ mid ++ [EvClose]).
  rewrite !omap_app, !filter_app. cbn. by rewrite !app_nil_r.
Qed.

Lemma selected_subseteq limit (all_leads : list LeadRow) :
  selected limit all_leads ⊆ all_leads.
Proof.
  unfold selected, slice_to. destruct limit as [n|]; [|done].
  repeat case_bool_decide; try done; apply subseteq_take.
Qed.

Lemma entry_row_id e row :
  entry_row e = Some row → g_id row = entry_id e ∧ g_type row = "lead".
Proof. destruct e; try discriminate. by intros [= <-]. Qed.

(** Without the database host or the API key [process_leads] returns
    [None] and contacts nothing. With both it connects first; if that
    fails it returns [None] and makes no other call, and otherwise the
    last call of the run is [close], with no connect or close in
    between: a connection that was opened is closed exactly once, however
    the run ends. *)
Theorem process_leads_session (env : Env) (host : option string) (limit : option Z)
    (w : World) (r : Result (option (list Entry))) (w' : World) :
  run_db (process_leads env host limit) w = (r, w') →
  (setting_truthy host && setting_truthy (GOOGLE_API_KEY env) = false →
   r = Return None ∧ w' = w)
  ∧ (setting_truthy host && setting_truthy (GOOGLE_API_KEY env) = true →
     (log w' = log w ++ [EvDbConnect] ∧ r = Return None
      ∧ ∃ msg rest, faults w = Some msg :: rest)
     ∨ (∃ mid, log w' = log w ++ EvDbConnect :: mid ++ [EvClose]
          ∧ Forall (λ ev, is_session ev = false) mid)).
Proof.
  intros Hrun. split; intros Hset.
  - rewrite (process_leads_settings env host limit w Hset) in Hrun.
    by injection Hrun as <- <-.
  - destruct (process_leads_spec env host limit w r w' Hset Hrun)
      as (_ & _ & [(Hlog & Hr & _ & Hf)|(mid & es & Hlog & Hmid & _)]).
    + left. by repeat split.
    + right. by exists mid.
Qed.

Lemma process_leads_session_witness :
  ∃ mid, log (run_db (process_leads Examples.geo_env (Some "db.internal") None)
                Examples.world_demo).2
         = [] ++ EvDbConnect :: mid ++ [EvClose]
    ∧ Forall (λ ev, is_session ev = false) mid.
Proof.
  destruct (proj2 (process_leads_session Examples.geo_env (Some "db.internal") None
                     Examples.world_demo _ _ (surjective_pairing _)) eq_refl)
    as [(_ & Hr & _)|H]; [|exact H].
  vm_compute in Hr. discriminate Hr.
Defined.

(** A run never touches the [lead] table and never changes or removes a
    committed geolocation row. The rows it commits are those of the
    success entries of a first part of the leads it selected, in order,
    each entry saying what geocoding its lead gave; when the run returns
    its results, these are exactly the entries. Rows committed before an
    error stay committed although the run then returns [None]. *)
Theorem process_leads_tables (env : Env) (host : option string) (limit : option Z)
    (w : World) (r : Result (option (list Entry))) (w' : World) :
  run_db (process_leads env host limit) w = (r, w') →
  lead_table w' = lead_table w
  ∧ ∃ es, Forall2 (entry_matches env) (take (length es) (run_leads limit w)) es
      ∧ geolocation_table w' = geolocation_table w ++ omap entry_row es
      ∧ (∀ results, r = Return (Some results) → results = es).
Proof.
  intros Hrun.
  destruct (setting_truthy host && setting_truthy (GOOGLE_API_KEY env)) eqn:Hset.
  - destruct (process_leads_spec env host limit w r w' Hset Hrun)
      as (Hlt & _ & [(_ & Hr & Hgt & _)|(mid & es & _ & _ & Hes & Hgt & Hret)]).
    + split; [exact Hlt|]. exists []. split; [constructor|].
      split; [by rewrite Hgt, app_nil_r|]. intros results Hres. by rewrite Hr in Hres.
    + split; [exact Hlt|]. exists es. split; [exact Hes|]. split; [exact Hgt|].
      intros results Hres. by destruct (Hret results Hres) as (-> & _).
  - rewrite (process_leads_settings env host limit w Hset) in Hrun.
    injection Hrun as <- <-. split; [done|]. exists []. split; [constructor|].
    split; [by rewrite app_nil_r|]. intros results [=].
Qed.

Lemma process_leads_tables_witness :
  lead_table (run_db (process_leads Examples.geo_env (Some "db.internal") None)
                Examples.world_demo).2
  = lead_table Examples.world_demo.
Proof.
  exact (proj1 (process_leads_tables Examples.geo_env (Some "db.internal") None
                  Examples.world_demo _ _ (surjective_pairing _))).
Defined.

(** A run that returns results selected at least one lead and returns
    one entry per selected lead, in order, each for its lead's id and
    saying what geocoding the lead's address gave. The API was asked once
    per lead, in order, with the address built from the lead, and the run
    slept once between two leads: one time less than there are leads. *)
Theorem process_leads_results (env : Env) (host : option string) (limit : option Z)
    (w : World) (results : list Entry) (w' : World) :
  run_db (process_leads env host limit) w = (Return (Some results), w') →
  run_leads limit w ≠ []
  ∧ Forall2 (entry_matches env) (run_leads limit w) results
  ∧ ∃ evs, log w' = log w ++ evs
      ∧ Forall2 builds_address (run_leads limit w) (omap geocoded evs)
      ∧ length (filter is_sleep evs) = (length results - 1)%nat.
Proof.
  intros Hrun.
  destruct (setting_truthy host && setting_truthy (GOOGLE_API_KEY env)) eqn:Hset.
  2:{ rewrite (process_leads_settings env host limit w Hset) in Hrun. discriminate. }
  destruct (process_leads_spec env host limit w _ w' Hset Hrun)
    as (_ & _ & [(_ & Hr & _)|(mid & es & Hlog & _ & Hes & _ & Hret)]); [discriminate|].
  destruct (Hret results eq_refl) as (-> & Hlen & Hne & Hgeo & Hsl & _).
  rewrite Hlen, firstn_all in Hes.
  split; [exact Hne|]. split; [exact Hes|].
  exists (EvDbConnect :: mid ++ [EvClose]). split; [exact Hlog|].
  destruct (omap_geocoded_session mid) as [-> ->].
  split; [exact Hgeo|]. by rewrite Hsl, Hlen.
Qed.

Lemma process_leads_results_witness :
  run_leads (Some 1) Examples.world_demo ≠ [].
Proof.
  exact (proj1 (process_leads_results Examples.geo_env (Some "db.internal") (Some 1)
                  Examples.world_demo _ _ eq_refl)).
Defined.

(** If the committed table holds at most one row of type 'lead' per id
    before a run, it still does after it, however the run ends. *)
Theorem process_leads_one_row_per_lead (env : Env) (host : option string)
    (limit : option Z) (w : World) (r : Result (option (list Entry))) (w' : World) :
  NoDup (lead_ids (set_pending [] w)) →
  run_db (process_leads env host limit) w = (r, w') →
  NoDup (lead_ids (set_pending [] w')).
Proof.
  intros Hnd Hrun.
  destruct (setting_truthy host && setting_truthy (GOOGLE_API_KEY env)) eqn:Hset.
  - destruct (process_leads_spec env host limit w r w' Hset Hrun) as (_ & H & _).
    by apply H.
  - rewrite (process_leads_settings env host limit w Hset) in Hrun.
    by injection Hrun as <- <-.
Qed.

Lemma process_leads_one_row_per_lead_witness :
  NoDup (lead_ids (set_pending []
           (run_db (process_leads Examples.geo_env (Some "db.internal") None)
              Examples.world_demo).2)).
Proof.
  apply (process_leads_one_row_per_lead Examples.geo_env (Some "db.internal") None
           Examples.world_demo _ _
           ltac:(vm_compute; constructor) (surjective_pairing _)).
Defined.

(** A lead whose entry in the returned results is a success is not
    selected by a later run, whatever its limit. *)
Theorem process_leads_saved_not_selected_again (env : Env) (host : option string)
    (limit limit' : option Z) (w : World) (results : list Entry) (w' : World) :
  run_db (process_leads env host limit) w = (Return (Some results), w') →
  ∀ e l, e ∈ results → is_Some (entry_row e) → l ∈ run_leads limit' w' →
    l_id l ≠ entry_id e.
Proof.
  intros Hrun e l He [row Hrow] Hl Hid.
  destruct (setting_truthy host && setting_truthy (GOOGLE_API_KEY env)) eqn:Hset.
  2:{ rewrite (process_leads_settings env host limit w Hset) in Hrun. discriminate. }
  destruct (process_leads_spec env host limit w _ w' Hset Hrun)
    as (_ & _ & [(_ & Hr & _)|(mid & es & _ & _ & _ & Hgt & Hret)]); [discriminate|].
  destruct (Hret results eq_refl) as (-> & _).
  apply selected_subseteq in Hl. rewrite leads_query_filter in Hl.
  apply list_elem_of_filter in Hl as [[_ Hno] _]. apply Hno.
  destruct (entry_row_id e row Hrow) as [Hrid Htype].
  unfold has_geolocation, visible. cbn [geolocation_table pending set_pending].
  rewrite app_nil_r, Hgt. apply Exists_app. right. apply Exists_exists.
  exists row. split; [|split; [congruence | exact Htype]].
  apply list_elem_of_omap. by exists e.
Qed.

Lemma process_leads_saved_not_selected_again_witness :
  Examples.lead_a ∉ run_leads None
      (run_db (process_leads Examples.geo_env (Some "db.internal") (Some 1))
         Examples.world_demo).2.
Proof.
  intros Hin.
  refine (process_leads_saved_not_selected_again Examples.geo_env (Some "db.internal")
            (Some 1) None Examples.world_demo _ _ (surjective_pairing _)
            (EntrySuccess 1 (JNum (QArith_base.Qmake 129716 10000))
               (JNum (QArith_base.Qmake 775946 10000))
               (JStr "Bengaluru, Karnataka, India"))
            Examples.lead_a _ _ Hin eq_refl).
  - vm_compute. left.
  - by eexists.
Defined.

Lemma text_columns_address l :
  text_columns l →
  build_address_string (lead_dict l)
  = Return (join_texts ", " (address_texts (lead_dict l))).
Proof.
  intros (Ha & Hc & Hs). destruct (lead_dict_columns l) as (E1 & E2 & E3 & _).
  apply build_address_string_texts; by rewrite ?E1, ?E2, ?E3.
Qed.

Lemma session_call_no_faults ev w :
  faults w = [] →
  run_db (db_call ev (λ w, ((), set_pending [] w))) w
  = (Return (), set_pending [] (add_log ev w)).
Proof. destruct w as [lt gt pd fl lg]. cbn [faults]. by intros ->. Qed.

Lemma get_leads_no_faults w :
  faults w = [] →
  run_db get_leads_without_geolocation w
  = (Return (leads_query w), add_log EvFetchLeads w).
Proof. destruct w as [lt gt pd fl lg]. cbn [faults]. by intros ->. Qed.

Lemma process_lead_no_faults env total idx lead results w address :
  faults w = [] → pending w = [] →
  build_address_string (lead_dict lead) = Return address →
  ∃ res w', run_db (process_lead env total idx lead results) w = (Return res, w')
    ∧ faults w' = [] ∧ pending w' = [].
Proof.
  intros Hf Hpd Hbuild. unfold process_lead. cbv zeta.
  rewrite Hbuild. run_steps. rewrite run_geocode. cbv beta iota.
  set (w0 := add_log (EvGeocode address) w).
  assert (Hf0 : faults w0 = []) by exact Hf.
  assert (Hpd0 : pending w0 = []) by exact Hpd.
  clearbody w0.
  assert (Hsleep : ∀ (res : list Entry) w1, faults w1 = [] → pending w1 = [] →
    ∃ res' w', run_db (_ ← (if bool_decide (idx < total)%nat then tell EvSleep else mret ());
                       mret res) w1 = (Return res', w')
      ∧ faults w' = [] ∧ pending w' = []).
  { intros res w1 Hf1 Hpd1. destruct (bool_decide (idx < total)%nat); run_steps;
      rewrite ?run_tell; cbv beta iota; run_steps; by eexists _, _. }
  destruct (GeolocationSpec.get_geolocation_cases env address)
    as [(lat & lng & fa & pid & Hans & Hd)|[_ Hlat]].
  - rewrite Hd. destruct (success_dict_lookups lat lng fa pid) as (L1 & L2 & L3).
    rewrite (dict_nonempty _ _ _ L1), (bool_decide_eq_true_2 _ (mk_is_Some _ _ L1)).
    cbn [negb andb]. unfold dict_index. rewrite L1, L2, L3. run_steps.
    rewrite (save_geolocation_no_faults w0 _ _ Hf0).
    destruct (decide (has_geolocation w0 (l_id lead))).
    + cbv beta iota. run_steps. by apply Hsleep.
    + rewrite L1, L2. cbv beta iota zeta. run_steps. by apply Hsleep.
  - apply not_elem_of_dom in Hlat. rewrite Hlat.
    rewrite (bool_decide_eq_false_2 (is_Some None)) by (intros [? [=]]).
    rewrite andb_false_r. run_steps. by apply Hsleep.
Qed.

Lemma process_loop_no_faults env total leads : ∀ idx results w,
  faults w = [] → pending w = [] →
  Forall text_columns leads →
  ∃ res w', run_db (process_loop env total idx leads results) w = (Return res, w')
    ∧ faults w' = [].
Proof.
  induction leads as [|lead leads IH]; intros idx results w Hf Hpd Hall.
  - cbn [process_loop]. rewrite run_ret. by eexists _, _.
  - apply Forall_cons in Hall as [Hlead Hall]. cbn [process_loop]. rewrite run_bind.
    destruct (process_lead_no_faults env total idx lead results w _ Hf Hpd
                (text_columns_address lead Hlead)) as (res & w1 & -> & Hf1 & Hpd1).
    by apply IH.
Qed.

(** With both settings, a database that raises nothing, at least one
    lead selected and no number in the address, city or state column of
    the selected leads, [process_leads] returns results, one entry per
    selected lead. *)
Theorem process_leads_completes (env : Env) (host : option string) (limit : option Z)
    (w : World) :
  setting_truthy host = true → setting_truthy (GOOGLE_API_KEY env) = true →
  faults w = [] →
  run_leads limit w ≠ [] →
  Forall text_columns (run_leads limit w) →
  ∃ results w',
    run_db (process_leads env host limit) w = (Return (Some results), w')
    ∧ length results = length (run_leads limit w).
Proof.
  intros Hhost Hkey Hf Hne Hall.
  assert (∃ results w',
            run_db (process_leads env host limit) w = (Return (Some results), w'))
    as (results & w' & Hrun).
  { unfold process_leads. rewrite Hhost, Hkey. cbn [andb negb run_db].
    unfold connect. rewrite (session_call_no_faults _ w Hf).
    set (wc := set_pending [] (add_log EvDbConnect w)).
    unfold try_finally, try_except. cbn [run_db]. rewrite run_bind.
    rewrite (get_leads_no_faults wc) by exact Hf.
    change (leads_query wc) with (leads_query (set_pending [] w)).
    fold (selected limit (leads_query (set_pending [] w))). fold (run_leads limit w).
    destruct (run_leads limit w) as [|lead leads] eqn:Hleads; [done|].
    cbv beta iota. rewrite run_bind.
    destruct (process_loop_no_faults env (length (lead :: leads)) (lead :: leads) 1%nat []
                (add_log EvFetchLeads wc) Hf eq_refl Hall) as (res & wl & -> & Hfl).
    run_steps. unfold close. rewrite (session_call_no_faults _ wl Hfl). by eexists _, _. }
  exists results, w'. split; [exact Hrun|].
  assert (Hset : setting_truthy host && setting_truthy (GOOGLE_API_KEY env) = true)
    by (by rewrite Hhost, Hkey).
  destruct (process_leads_spec env host limit w _ w' Hset Hrun)
    as (_ & _ & [(_ & Hr & _)|(mid & es & _ & _ & _ & _ & Hret)]); [discriminate|].
  by destruct (Hret results eq_refl) as (-> & Hlen & _).
Qed.

Lemma process_leads_completes_witness :
  ∃ results w',
    run_db (process_leads Examples.geo_env (Some "db.internal") None) Examples.world_demo
    = (Return (Some results), w')
    ∧ length results = length (run_leads None Examples.world_demo).
Proof.
  apply (process_leads_completes Examples.geo_env (Some "db.internal") None
           Examples.world_demo eq_refl eq_refl eq_refl).
  - vm_compute. discriminate.
  - vm_compute. repeat constructor; intros (n & H & _); discriminate H.
Defined.

End LeadsSpec.
